(** * nxcypher-bolt: a shallow embedding of the Bolt protocol stack

    The development follows the Python sources module by module:
    [packstream.py] (PackStream codec), [chunking.py] (chunk framer),
    [state.py] (connection state machine), [session.py] (session and
    transactions), [converter.py] (result converter), [messages.py]
    (message catalog) and [connection.py] (handshake and dispatch).

    Python objects are represented by the inductive type [value]; a
    raised exception is the [Raise] case of [result]. *)

From Stdlib Require Import ZArith List Bool String Ascii Lia Arith.
From Stdlib.Strings Require Import Byte.
Import ListNotations.
Open Scope Z_scope.

Set Warnings "-register-all".

(** ** Python runtime: exceptions and results *)

Inductive exn : Type :=
| ValueError
| StructError
| TypeError
| UnicodeDecodeError
| AttributeError
| RuntimeError
| IndexError
| KeyError.

Inductive result (A : Type) : Type :=
| Ok (a : A)
| Raise (e : exn).

Arguments Ok {A} a.
Arguments Raise {A} e.

Definition bind {A B : Type} (r : result A) (k : A -> result B) : result B :=
  match r with
  | Ok a => k a
  | Raise e => Raise e
  end.

Notation "'do' x <- r ; k" := (bind r (fun x => k))
  (at level 10, x pattern, r at level 100, k at level 200).

(** ** Bytes *)

Definition bytes := list byte.

Definition Z_of_byte (b : byte) : Z := Z.of_N (Byte.to_N b).

Definition byte_of_Z (z : Z) : byte :=
  match Byte.of_N (Z.to_N (z mod 256)) with
  | Some b => b
  | None => x00
  end.

(** [bytearray.append(x)]: [x] must be in [range(256)]. *)
Definition bytearray_append (x : Z) : result bytes :=
  if (0 <=? x) && (x <? 256) then Ok [byte_of_Z x] else Raise ValueError.

(** The [struct] module, big-endian formats only. *)
Module struct.

  (** The [n] low-order bytes of [z], most significant first. *)
Fixpoint be_bytes (n : nat) (z : Z) : bytes :=
  match n with
  | O => []
  | S k => byte_of_Z (z / 256 ^ Z.of_nat k) :: be_bytes k z
  end.

Definition be_to_Z (bs : bytes) : Z :=
  fold_left (fun acc b => acc * 256 + Z_of_byte b) bs 0.

(** [struct.pack('>B' | '>H' | '>I', v)] for [n] = 1, 2, 4. *)
Definition pack_unsigned (n : nat) (v : Z) : result bytes :=
  if (0 <=? v) && (v <? 256 ^ Z.of_nat n)
  then Ok (be_bytes n v) else Raise StructError.

(** [struct.pack('>b' | '>h' | '>i' | '>q', v)] for [n] = 1, 2, 4, 8. *)
Definition pack_signed (n : nat) (v : Z) : result bytes :=
  if (- (256 ^ Z.of_nat n / 2) <=? v) && (v <? 256 ^ Z.of_nat n / 2)
  then Ok (be_bytes n (v mod 256 ^ Z.of_nat n)) else Raise StructError.

Definition unpack_unsigned (bs : bytes) : Z := be_to_Z bs.

Definition unpack_signed (bs : bytes) : Z :=
  let u := be_to_Z bs in
  let m := 256 ^ Z.of_nat (List.length bs) in
  if u <? m / 2 then u else u - m.

End struct.

(** ** Python values

    A [str] is represented by its UTF-8 encoding (a [string] is a list of
    bytes), so [s.encode('utf-8')] is [list_byte_of_string] and
    [len(encoded)] is the byte length.  A [float] is represented by its
    IEEE-754 binary64 bit pattern, which is what [struct.pack('>d', x)]
    writes.  A [dict] is an association list in insertion order. *)

Inductive value : Type :=
| VNone
| VBool (b : bool)
| VInt (z : Z)
| VFloat (bits : Z)
| VStr (s : string)
| VBytes (b : bytes)
| VList (l : list value)
| VTuple (l : list value)
| VDict (kvs : list (value * value))
| VStruct (tag : Z) (fields : list value).

(** Marker bytes for PackStream types ([packstream.py], lines 29-62). *)
Definition TINY_STRING := 0x80.
Definition TINY_LIST := 0x90.
Definition TINY_MAP := 0xA0.
Definition TINY_STRUCT := 0xB0.
Definition NULL := 0xC0.
Definition FLOAT_64 := 0xC1.
Definition FALSE := 0xC2.
Definition TRUE := 0xC3.
Definition INT_8 := 0xC8.
Definition INT_16 := 0xC9.
Definition INT_32 := 0xCA.
Definition INT_64 := 0xCB.
Definition BYTES_8 := 0xCC.
Definition BYTES_16 := 0xCD.
Definition BYTES_32 := 0xCE.
Definition STRING_8 := 0xD0.
Definition STRING_16 := 0xD1.
Definition STRING_32 := 0xD2.
Definition LIST_8 := 0xD4.
Definition LIST_16 := 0xD5.
Definition LIST_32 := 0xD6.
Definition MAP_8 := 0xD8.
Definition MAP_16 := 0xD9.
Definition MAP_32 := 0xDA.
Definition STRUCT_8 := 0xDC.
Definition STRUCT_16 := 0xDD.

Definition len {A : Type} (l : list A) : Z := Z.of_nat (List.length l).

(** ** PackStreamEncoder

    The encoder appends to [self._buffer]; each function below returns the
    bytes it appends, or the exception that aborts the encoding. *)
Module PackStreamEncoder.

Definition _encode_int (value : Z) : result bytes :=
  if (-16 <=? value) && (value <? 128) then
    bytearray_append (Z.land value 0xFF)
  else if (-128 <=? value) && (value <? 128) then
    do m <- bytearray_append INT_8;
    do p <- struct.pack_signed 1 value;
    Ok (m ++ p)
  else if (-32768 <=? value) && (value <? 32768) then
    do m <- bytearray_append INT_16;
    do p <- struct.pack_signed 2 value;
    Ok (m ++ p)
  else if (-2147483648 <=? value) && (value <? 2147483648) then
    do m <- bytearray_append INT_32;
    do p <- struct.pack_signed 4 value;
    Ok (m ++ p)
  else
    do m <- bytearray_append INT_64;
    do p <- struct.pack_signed 8 value;
    Ok (m ++ p).

Definition _encode_string (value : string) : result bytes :=
  let encoded := list_byte_of_string value in
  let size := len encoded in
  do h <-
    (if size <? 16 then bytearray_append (Z.lor TINY_STRING size)
     else if size <? 256 then
       do m <- bytearray_append STRING_8;
       do s <- bytearray_append size;
       Ok (m ++ s)
     else if size <? 65536 then
       do m <- bytearray_append STRING_16;
       do s <- struct.pack_unsigned 2 size;
       Ok (m ++ s)
     else
       do m <- bytearray_append STRING_32;
       do s <- struct.pack_unsigned 4 size;
       Ok (m ++ s));
  Ok (h ++ encoded).

Definition _encode_bytes (value : bytes) : result bytes :=
  let size := len value in
  do h <-
    (if size <? 256 then
       do m <- bytearray_append BYTES_8;
       do s <- bytearray_append size;
       Ok (m ++ s)
     else if size <? 65536 then
       do m <- bytearray_append BYTES_16;
       do s <- struct.pack_unsigned 2 size;
       Ok (m ++ s)
     else
       do m <- bytearray_append BYTES_32;
       do s <- struct.pack_unsigned 4 size;
       Ok (m ++ s));
  Ok (h ++ value).

(** The size headers of [_encode_list], [_encode_map] and
    [_encode_structure], before the items are written. *)
Definition _list_header (size : Z) : result bytes :=
  if size <? 16 then bytearray_append (Z.lor TINY_LIST size)
  else if size <? 256 then
    do m <- bytearray_append LIST_8;
    do s <- bytearray_append size;
    Ok (m ++ s)
  else if size <? 65536 then
    do m <- bytearray_append LIST_16;
    do s <- struct.pack_unsigned 2 size;
    Ok (m ++ s)
  else
    do m <- bytearray_append LIST_32;
    do s <- struct.pack_unsigned 4 size;
    Ok (m ++ s).

Definition _map_header (size : Z) : result bytes :=
  if size <? 16 then bytearray_append (Z.lor TINY_MAP size)
  else if size <? 256 then
    do m <- bytearray_append MAP_8;
    do s <- bytearray_append size;
    Ok (m ++ s)
  else if size <? 65536 then
    do m <- bytearray_append MAP_16;
    do s <- struct.pack_unsigned 2 size;
    Ok (m ++ s)
  else
    do m <- bytearray_append MAP_32;
    do s <- struct.pack_unsigned 4 size;
    Ok (m ++ s).

Definition _structure_header (size : Z) (tag : Z) : result bytes :=
  do h <-
    (if size <? 16 then bytearray_append (Z.lor TINY_STRUCT size)
     else if size <? 256 then
       do m <- bytearray_append STRUCT_8;
       do s <- bytearray_append size;
       Ok (m ++ s)
     else
       do m <- bytearray_append STRUCT_16;
       do s <- struct.pack_unsigned 2 size;
       Ok (m ++ s));
  do t <- bytearray_append tag;
  Ok (h ++ t).

Section Encoder.

  (** The builtin [str(x)], applied by [_encode_map] to every key. *)
Variable py_str : value -> string.

Fixpoint _encode_value (v : value) : result bytes :=
  match v with
  | VNone => bytearray_append NULL
  | VBool b => bytearray_append (if b then TRUE else FALSE)
  | VInt z => _encode_int z
  | VFloat bits =>
      do m <- bytearray_append FLOAT_64;
      Ok (m ++ struct.be_bytes 8 bits)
  | VStr s => _encode_string s
  | VBytes b => _encode_bytes b
  | VList l | VTuple l =>
      do h <- _list_header (len l);
      do items <-
        (fix each (l : list value) : result bytes :=
           match l with
           | [] => Ok []
           | item :: l' =>
               do a <- _encode_value item;
               do b <- each l';
               Ok (a ++ b)
           end) l;
      Ok (h ++ items)
  | VDict kvs =>
      do h <- _map_header (len kvs);
      do items <-
        (fix each (kvs : list (value * value)) : result bytes :=
           match kvs with
           | [] => Ok []
           | (k, v) :: kvs' =>
               do a <- _encode_string (py_str k);
               do b <- _encode_value v;
               do c <- each kvs';
               Ok (a ++ b ++ c)
           end) kvs;
      Ok (h ++ items)
  | VStruct tag fields =>
      do h <- _structure_header (len fields) tag;
      do items <-
        (fix each (l : list value) : result bytes :=
           match l with
           | [] => Ok []
           | field :: l' =>
               do a <- _encode_value field;
               do b <- each l';
               Ok (a ++ b)
           end) fields;
      Ok (h ++ items)
  end.

Definition encode (v : value) : result bytes := _encode_value v.

End Encoder.

End PackStreamEncoder.

(** ** Hashing and dict keys

    A dict finds a key by hash and equality; [True], [1] and [1.0] are one
    key.  [hkey_of] sends a hashable value to a canonical key, so that two
    values are the same dict key when their canonical keys are equal.
    Lists, dicts and [Structure] (a dataclass with [eq] and without
    [frozen]) are unhashable.  Objects carry no identity here: two NaN
    floats with the same bit pattern count as the same key. *)

Module float64.

Definition exponent (bits : Z) : Z := (bits / 2 ^ 52) mod 2048.
Definition mantissa (bits : Z) : Z := bits mod 2 ^ 52.
Definition negative (bits : Z) : bool := 2 ^ 63 <=? bits.

Definition is_nan (bits : Z) : bool :=
  (exponent bits =? 2047) && negb (mantissa bits =? 0).

(** The integer a finite float is equal to, when there is one. *)
Definition as_int (bits : Z) : option Z :=
  let e := exponent bits in
  let m := mantissa bits in
  let sgn := if negative bits then -1 else 1 in
  if e =? 2047 then None
  else if e =? 0 then (if m =? 0 then Some 0 else None)
  else
    let M := 2 ^ 52 + m in
    let E := e - 1075 in
    if 0 <=? E then Some (sgn * (M * 2 ^ E))
    else if M mod 2 ^ (- E) =? 0 then Some (sgn * (M / 2 ^ (- E)))
    else None.

End float64.

Inductive hkey : Type :=
| KNone
| KNum (z : Z)
| KFloat (bits : Z)
| KStr (s : string)
| KBytes (b : bytes)
| KTuple (l : list hkey).

Fixpoint bytes_eqb (a b : bytes) : bool :=
  match a, b with
  | [], [] => true
  | x :: a', y :: b' => Byte.eqb x y && bytes_eqb a' b'
  | _, _ => false
  end.

Fixpoint hkey_eqb (a b : hkey) : bool :=
  match a, b with
  | KNone, KNone => true
  | KNum x, KNum y => x =? y
  | KFloat x, KFloat y => x =? y
  | KStr x, KStr y => String.eqb x y
  | KBytes x, KBytes y => bytes_eqb x y
  | KTuple x, KTuple y =>
      (fix each (x y : list hkey) : bool :=
         match x, y with
         | [], [] => true
         | a' :: x', b' :: y' => hkey_eqb a' b' && each x' y'
         | _, _ => false
         end) x y
  | _, _ => false
  end.

Fixpoint hkey_of (v : value) : option hkey :=
  match v with
  | VNone => Some KNone
  | VBool b => Some (KNum (if b then 1 else 0))
  | VInt z => Some (KNum z)
  | VFloat bits =>
      Some (match float64.as_int bits with
            | Some z => KNum z
            | None => KFloat bits
            end)
  | VStr s => Some (KStr s)
  | VBytes b => Some (KBytes b)
  | VTuple l =>
      option_map KTuple
        ((fix each (l : list value) : option (list hkey) :=
            match l with
            | [] => Some []
            | x :: l' =>
                match hkey_of x, each l' with
                | Some k, Some ks => Some (k :: ks)
                | _, _ => None
                end
            end) l)
  | VList _ | VDict _ | VStruct _ _ => None
  end.

(** Operations of the builtin [dict]. *)
Module pydict.

  (** A dict whose values have type [V]; [t] is a dict of Python values. *)
Definition dict (V : Type) := list (value * V).

Definition t := dict value.

Definition same_key (hk : hkey) (k : value) : bool :=
  match hkey_of k with
  | Some hk' => hkey_eqb hk hk'
  | None => false
  end.

Fixpoint find {V : Type} (hk : hkey) (d : dict V) : option V :=
  match d with
  | [] => None
  | (k, v) :: d' => if same_key hk k then Some v else find hk d'
  end.

(** [d[k] = v] on a hashed key: an equal key keeps its place and its
    key object, a new key goes last. *)
Fixpoint store {V : Type} (hk : hkey) (k : value) (v : V) (d : dict V)
  : dict V :=
  match d with
  | [] => [(k, v)]
  | (k', v') :: d' =>
      if same_key hk k' then (k', v) :: d'
      else (k', v') :: store hk k v d'
  end.

(** [d.get(k)], [None] of the option standing for a missing key. *)
Definition get {V : Type} (d : dict V) (k : value) : result (option V) :=
  match hkey_of k with
  | Some hk => Ok (find hk d)
  | None => Raise TypeError
  end.

Definition set {V : Type} (d : dict V) (k : value) (v : V) : result (dict V) :=
  match hkey_of k with
  | Some hk => Ok (store hk k v d)
  | None => Raise TypeError
  end.

(** [d.get(s)] and [s in d] for a string literal [s]. *)
Definition get_str {V : Type} (d : dict V) (s : string) : option V :=
  find (KStr s) d.

Definition contains_str {V : Type} (d : dict V) (s : string) : bool :=
  match get_str d s with Some _ => true | None => false end.

End pydict.

(** ** UTF-8

    [bs.decode('utf-8')] accepts exactly the well-formed byte sequences
    of the Unicode standard (no overlong forms, no surrogates, nothing
    above U+10FFFF). *)
Module utf8.

Definition cont (b : byte) : bool :=
  (0x80 <=? Z_of_byte b) && (Z_of_byte b <=? 0xBF).

Definition between (lo hi : Z) (b : byte) : bool :=
  (lo <=? Z_of_byte b) && (Z_of_byte b <=? hi).

Fixpoint valid (bs : bytes) : bool :=
  match bs with
  | [] => true
  | b0 :: r0 =>
      let c := Z_of_byte b0 in
      if c <? 0x80 then valid r0
      else if (0xC2 <=? c) && (c <=? 0xDF) then
        match r0 with
        | b1 :: r1 => cont b1 && valid r1
        | _ => false
        end
      else if (0xE0 <=? c) && (c <=? 0xEF) then
        match r0 with
        | b1 :: b2 :: r2 =>
            (if c =? 0xE0 then between 0xA0 0xBF b1
             else if c =? 0xED then between 0x80 0x9F b1
             else cont b1)
            && cont b2 && valid r2
        | _ => false
        end
      else if (0xF0 <=? c) && (c <=? 0xF4) then
        match r0 with
        | b1 :: b2 :: b3 :: r3 =>
            (if c =? 0xF0 then between 0x90 0xBF b1
             else if c =? 0xF4 then between 0x80 0x8F b1
             else cont b1)
            && cont b2 && cont b3 && valid r3
        | _ => false
        end
      else false
  end.

Definition decode (bs : bytes) : result string :=
  if valid bs then Ok (string_of_list_byte bs) else Raise UnicodeDecodeError.

End utf8.

(** ** PackStreamDecoder

    The decoder holds [self._data] and a position [self._pos]; the
    functions below work on the unread suffix [self._data[self._pos:]] and
    return it after each read.  [_decode_value] is recursive on the input
    and takes a recursion budget; [None] means the budget ran out, which
    [decode] never meets (see [decode_total]). *)
Module PackStreamDecoder.

Definition fbind {A B : Type} (m : option (result A))
    (k : A -> option (result B)) : option (result B) :=
  match m with
  | None => None
  | Some (Raise e) => Some (Raise e)
  | Some (Ok a) => k a
  end.

Notation "'run' x <- m ; k" := (fbind m (fun x => k))
  (at level 10, x pattern, m at level 100, k at level 200).

Definition ret {A : Type} (a : A) : option (result A) := Some (Ok a).

Definition _read_byte (data : bytes) : result (Z * bytes) :=
  match data with
  | [] => Raise ValueError
  | b :: data' => Ok (Z_of_byte b, data')
  end.

Definition _read_bytes (n : Z) (data : bytes) : result (bytes * bytes) :=
  if len data <? n then Raise ValueError
  else Ok (firstn (Z.to_nat n) data, skipn (Z.to_nat n) data).

(** [self._read_bytes(size).decode('utf-8')] *)
Definition _read_string (size : Z) (data : bytes) : result (value * bytes) :=
  do (bs, data) <- _read_bytes size data;
  do s <- utf8.decode bs;
  Ok (VStr s, data).

Definition _read_size (n : nat) (data : bytes) : result (Z * bytes) :=
  do (bs, data) <- _read_bytes (Z.of_nat n) data;
  Ok (struct.unpack_unsigned bs, data).

Definition _read_signed (n : nat) (data : bytes) : result (value * bytes) :=
  do (bs, data) <- _read_bytes (Z.of_nat n) data;
  Ok (VInt (struct.unpack_signed bs), data).

Fixpoint _decode_value (fuel : nat) (data : bytes) {struct fuel}
  : option (result (value * bytes)) :=
  match fuel with
  | O => None
  | S fuel =>
    run (marker, data) <- Some (_read_byte data);
    if marker <=? 0x7F then ret (VInt marker, data)
    else if (0x80 <=? marker) && (marker <=? 0x8F) then
      Some (_read_string (Z.land marker 0x0F) data)
    else if (0x90 <=? marker) && (marker <=? 0x9F) then
      run (items, data) <- _decode_list fuel (Z.land marker 0x0F) data;
      ret (VList items, data)
    else if (0xA0 <=? marker) && (marker <=? 0xAF) then
      run (d, data) <- _decode_dict fuel (Z.land marker 0x0F) data [];
      ret (VDict d, data)
    else if (0xB0 <=? marker) && (marker <=? 0xBF) then
      run (tag, data) <- Some (_read_byte data);
      run (fields, data) <- _decode_list fuel (Z.land marker 0x0F) data;
      ret (VStruct tag fields, data)
    else if marker =? NULL then ret (VNone, data)
    else if marker =? FLOAT_64 then
      run (bs, data) <- Some (_read_bytes 8 data);
      ret (VFloat (struct.unpack_unsigned bs), data)
    else if marker =? FALSE then ret (VBool false, data)
    else if marker =? TRUE then ret (VBool true, data)
    else if marker =? INT_8 then Some (_read_signed 1 data)
    else if marker =? INT_16 then Some (_read_signed 2 data)
    else if marker =? INT_32 then Some (_read_signed 4 data)
    else if marker =? INT_64 then Some (_read_signed 8 data)
    else if 0xF0 <=? marker then ret (VInt (marker - 256), data)
    else if marker =? BYTES_8 then
      run (size, data) <- Some (_read_byte data);
      run (bs, data) <- Some (_read_bytes size data);
      ret (VBytes bs, data)
    else if marker =? BYTES_16 then
      run (size, data) <- Some (_read_size 2 data);
      run (bs, data) <- Some (_read_bytes size data);
      ret (VBytes bs, data)
    else if marker =? BYTES_32 then
      run (size, data) <- Some (_read_size 4 data);
      run (bs, data) <- Some (_read_bytes size data);
      ret (VBytes bs, data)
    else if marker =? STRING_8 then
      run (size, data) <- Some (_read_byte data);
      Some (_read_string size data)
    else if marker =? STRING_16 then
      run (size, data) <- Some (_read_size 2 data);
      Some (_read_string size data)
    else if marker =? STRING_32 then
      run (size, data) <- Some (_read_size 4 data);
      Some (_read_string size data)
    else if marker =? LIST_8 then
      run (size, data) <- Some (_read_byte data);
      run (items, data) <- _decode_list fuel size data;
      ret (VList items, data)
    else if marker =? LIST_16 then
      run (size, data) <- Some (_read_size 2 data);
      run (items, data) <- _decode_list fuel size data;
      ret (VList items, data)
    else if marker =? LIST_32 then
      run (size, data) <- Some (_read_size 4 data);
      run (items, data) <- _decode_list fuel size data;
      ret (VList items, data)
    else if marker =? MAP_8 then
      run (size, data) <- Some (_read_byte data);
      run (d, data) <- _decode_dict fuel size data [];
      ret (VDict d, data)
    else if marker =? MAP_16 then
      run (size, data) <- Some (_read_size 2 data);
      run (d, data) <- _decode_dict fuel size data [];
      ret (VDict d, data)
    else if marker =? MAP_32 then
      run (size, data) <- Some (_read_size 4 data);
      run (d, data) <- _decode_dict fuel size data [];
      ret (VDict d, data)
    else if marker =? STRUCT_8 then
      run (size, data) <- Some (_read_byte data);
      run (tag, data) <- Some (_read_byte data);
      run (fields, data) <- _decode_list fuel size data;
      ret (VStruct tag fields, data)
    else if marker =? STRUCT_16 then
      run (size, data) <- Some (_read_size 2 data);
      run (tag, data) <- Some (_read_byte data);
      run (fields, data) <- _decode_list fuel size data;
      ret (VStruct tag fields, data)
    else Some (Raise ValueError)
  end

(** [[self._decode_value() for _ in range(size)]] *)
with _decode_list (fuel : nat) (size : Z) (data : bytes) {struct fuel}
  : option (result (list value * bytes)) :=
  match fuel with
  | O => None
  | S fuel =>
    if size <=? 0 then ret ([], data)
    else
      run (item, data) <- _decode_value fuel data;
      run (items, data) <- _decode_list fuel (size - 1) data;
      ret (item :: items, data)
  end

(** [{self._decode_value(): self._decode_value() for _ in range(size)}]:
    the key is decoded before the value, and the pair is stored before
    the next pair is decoded. *)
with _decode_dict (fuel : nat) (size : Z) (data : bytes) (acc : pydict.t)
    {struct fuel} : option (result (pydict.t * bytes)) :=
  match fuel with
  | O => None
  | S fuel =>
    if size <=? 0 then ret (acc, data)
    else
      run (k, data) <- _decode_value fuel data;
      run (v, data) <- _decode_value fuel data;
      run acc <- Some (pydict.set acc k v);
      _decode_dict fuel (size - 1) data acc
  end.

Definition budget (data : bytes) : nat := S (2 * List.length data).

(** [PackStreamDecoder(data).decode()] *)
Definition decode (data : bytes) : option (result value) :=
  if len data <=? 0 then Some (Raise ValueError)
  else
    run (v, _) <- _decode_value (budget data) data;
    ret v.

End PackStreamDecoder.

(** The module-level convenience functions [encode] and [decode]. *)
Definition encode (py_str : value -> string) (v : value) : result bytes :=
  PackStreamEncoder.encode py_str v.

Definition decode (data : bytes) : option (result value) :=
  PackStreamDecoder.decode data.

(** ** Integer lanes, as the specification words them

    "Integers choose the narrowest lane: tiny-positive if in [0,127],
    tiny-negative if in [-16,-1], else Int8/16/32/64 by value range."
    These two definitions follow that sentence and the marker table; they
    are compared with [PackStreamEncoder._encode_int] below. *)

Inductive lane : Type :=
| TinyPositive | TinyNegative | Int8 | Int16 | Int32 | Int64.

(** The signed range of an [n]-byte two's complement integer. *)
Definition fits_signed (n : nat) (z : Z) : bool :=
  (- 2 ^ (8 * Z.of_nat n - 1) <=? z) && (z <=? 2 ^ (8 * Z.of_nat n - 1) - 1).

Definition narrowest_lane (z : Z) : lane :=
  if (0 <=? z) && (z <=? 127) then TinyPositive
  else if (-16 <=? z) && (z <=? -1) then TinyNegative
  else if fits_signed 1 z then Int8
  else if fits_signed 2 z then Int16
  else if fits_signed 4 z then Int32
  else Int64.

(** Big-endian two's complement of [z] on [n] bytes. *)
Definition twos_complement (n : nat) (z : Z) : bytes :=
  struct.be_bytes n (z mod 2 ^ (8 * Z.of_nat n)).

(** The wire form of [z] in a lane: the marker table of the
    specification. *)
Definition lane_form (l : lane) (z : Z) : bytes :=
  match l with
  | TinyPositive => [byte_of_Z z]
  | TinyNegative => [byte_of_Z (z + 256)]
  | Int8 => byte_of_Z 0xC8 :: twos_complement 1 z
  | Int16 => byte_of_Z 0xC9 :: twos_complement 2 z
  | Int32 => byte_of_Z 0xCA :: twos_complement 4 z
  | Int64 => byte_of_Z 0xCB :: twos_complement 8 z
  end.

(** ** Protocol values

    The values of the PackStream type as the wire format can carry them:
    integers of 64 bits, floats as their 64 bits, strings that have a
    UTF-8 encoding of less than 2^32 bytes, byte strings, lists and maps
    of less than 2^32 entries, maps keyed by strings, and structures with
    a tag of one byte and less than 65536 fields.  A tuple is not among
    them: it is written as a list. *)

Definition protocol_string (s : string) : bool :=
  utf8.valid (list_byte_of_string s) && (len (list_byte_of_string s) <? 2 ^ 32).

Definition string_key (k : value) : bool :=
  match k with
  | VStr s => protocol_string s
  | _ => false
  end.

(** What a [dict] object guarantees: its keys are hashable and no two
    of them are the same key. *)
Fixpoint well_keyed {V : Type} (kvs : pydict.dict V) : bool :=
  match kvs with
  | [] => true
  | (k, _) :: kvs' =>
      match hkey_of k with
      | Some hk =>
          match pydict.find hk kvs' with
          | None => well_keyed kvs'
          | Some _ => false
          end
      | None => false
      end
  end.

Fixpoint protocol_value (v : value) : bool :=
  match v with
  | VNone | VBool _ => true
  | VInt z => (- 2 ^ 63 <=? z) && (z <? 2 ^ 63)
  | VFloat bits => (0 <=? bits) && (bits <? 2 ^ 64)
  | VStr s => protocol_string s
  | VBytes b => len b <? 2 ^ 32
  | VList l =>
      (len l <? 2 ^ 32)
      && (fix all (l : list value) : bool :=
            match l with
            | [] => true
            | x :: l' => protocol_value x && all l'
            end) l
  | VTuple _ => false
  | VDict kvs =>
      (len kvs <? 2 ^ 32) && well_keyed kvs
      && (fix all (kvs : list (value * value)) : bool :=
            match kvs with
            | [] => true
            | (k, x) :: kvs' => string_key k && protocol_value x && all kvs'
            end) kvs
  | VStruct tag fields =>
      (0 <=? tag) && (tag <? 256) && (len fields <? 65536)
      && (fix all (l : list value) : bool :=
            match l with
            | [] => true
            | x :: l' => protocol_value x && all l'
            end) fields
  end.

(** ** Connection state machine ([state.py]) *)

Inductive ConnectionState : Type :=
| NEGOTIATION
| AUTHENTICATION
| READY
| STREAMING
| TX_READY
| TX_STREAMING
| FAILED
| DEFUNCT.

Definition ConnectionState_eqb (a b : ConnectionState) : bool :=
  match a, b with
  | NEGOTIATION, NEGOTIATION | AUTHENTICATION, AUTHENTICATION
  | READY, READY | STREAMING, STREAMING | TX_READY, TX_READY
  | TX_STREAMING, TX_STREAMING | FAILED, FAILED | DEFUNCT, DEFUNCT => true
  | _, _ => false
  end.

(** The table [VALID_TRANSITIONS]: the set of successors of each state. *)
Definition VALID_TRANSITIONS (s : ConnectionState) : list ConnectionState :=
  match s with
  | NEGOTIATION => [AUTHENTICATION; DEFUNCT]
  | AUTHENTICATION => [READY; DEFUNCT]
  | READY => [STREAMING; TX_READY; FAILED; DEFUNCT]
  | STREAMING => [READY; STREAMING; FAILED; DEFUNCT]
  | TX_READY => [TX_STREAMING; READY; FAILED; DEFUNCT]
  | TX_STREAMING => [TX_READY; TX_STREAMING; FAILED; DEFUNCT]
  | FAILED => [READY; DEFUNCT]
  | DEFUNCT => []
  end.

(** [StateMachine]: the object holds the single field [_state]; a method
    returns its result together with the new value of the field. *)
Module StateMachine.

Definition t := ConnectionState.

Definition __init__ : t := NEGOTIATION.

Definition can_transition_to (self : t) (new_state : ConnectionState) : bool :=
  existsb (ConnectionState_eqb new_state) (VALID_TRANSITIONS self).

(** The state is assigned only when no [ValueError] is raised. *)
Definition transition_to (self : t) (new_state : ConnectionState)
  : result unit * t :=
  if negb (can_transition_to self new_state) then (Raise ValueError, self)
  else (Ok tt, new_state).

Definition reset (self : t) : t :=
  if ConnectionState_eqb self FAILED then READY
  else if negb (ConnectionState_eqb self DEFUNCT) then READY
  else self.

Definition is_defunct (self : t) : bool := ConnectionState_eqb self DEFUNCT.

Definition is_in_transaction (self : t) : bool :=
  ConnectionState_eqb self TX_READY || ConnectionState_eqb self TX_STREAMING.

Definition is_streaming (self : t) : bool :=
  ConnectionState_eqb self STREAMING || ConnectionState_eqb self TX_STREAMING.

Definition mark_defunct (self : t) : t := DEFUNCT.

End StateMachine.

(** ** Chunk framer ([chunking.py]) *)

Definition MAX_CHUNK_SIZE := 65535.

(** [data[a:b]] for [0 <= a <= b]. *)
Definition slice {A : Type} (data : list A) (a b : Z) : list A :=
  firstn (Z.to_nat (b - a)) (skipn (Z.to_nat a) data).

Module ChunkWriter.

  (** The object holds the single field [max_chunk_size]. *)
Definition t := Z.

Definition __init__ (max_chunk_size : Z) : t :=
  Z.min max_chunk_size MAX_CHUNK_SIZE.

(** The [while offset < len(data)] loop of [write]; [framed] is the
    local [result].  An iteration with
    a chunk size of zero makes no progress, and the loop then never
    ends: [None] stands for that. *)
Fixpoint _write_loop (fuel : nat) (self : t) (data : bytes) (offset : Z)
    (framed : bytes) : option (result bytes) :=
  if offset <? len data then
    match fuel with
    | O => None
    | S fuel =>
        let chunk_size := Z.min (len data - offset) self in
        match struct.pack_unsigned 2 chunk_size with
        | Raise e => Some (Raise e)
        | Ok header =>
            _write_loop fuel self data (offset + chunk_size)
              (framed ++ header ++ slice data offset (offset + chunk_size))
        end
    end
  else Some (Ok (framed ++ [x00; x00])).

Definition write (self : t) (data : bytes) : option (result bytes) :=
  _write_loop (List.length data) self data 0 [].

End ChunkWriter.

Module ChunkReader.

  (** [_expected_chunk_size] is [None] or the value of a 16-bit header. *)
Record t : Type := mk {
  _buffer : bytes;
  _message_buffer : bytes;
  _expected_chunk_size : option Z
}.

Definition __init__ : t := mk [] [] None.

Definition extend (self : t) (data : bytes) : t :=
  mk (_buffer self ++ data) (_message_buffer self) (_expected_chunk_size self).

(** The first statement of the loop body of [_try_read_message]: read a
    chunk header when none is pending.  [None] is the [return None] on
    a buffer shorter than two bytes. *)
Definition _read_header (self : t) : option (Z * t) :=
  match _expected_chunk_size self with
  | Some n => Some (n, self)
  | None =>
      if len (_buffer self) <? 2 then None
      else
        let n := struct.unpack_unsigned (firstn 2 (_buffer self)) in
        Some (n, mk (skipn 2 (_buffer self)) (_message_buffer self) (Some n))
  end.

(** One iteration of the [while True] of [_try_read_message]; [continue_]
    is the rest of the loop. *)
Definition _loop_body (continue_ : t -> option (option bytes * t)) (self : t)
  : option (option bytes * t) :=
  match _read_header self with
  | None => Some (None, self)
  | Some (n, self) =>
      if n =? 0 then
        let self := mk (_buffer self) (_message_buffer self) None in
        match _message_buffer self with
        | _ :: _ =>
            Some (Some (_message_buffer self), mk (_buffer self) [] None)
        | [] => continue_ self
        end
      else if len (_buffer self) <? n then Some (None, self)
      else
        continue_
          (mk (skipn (Z.to_nat n) (_buffer self))
              (_message_buffer self ++ firstn (Z.to_nat n) (_buffer self))
              None)
  end.

(** [None] of the outer option: the iteration budget ran out. *)
Fixpoint _try_read_message_loop (fuel : nat) (self : t)
  : option (option bytes * t) :=
  match fuel with
  | O => None
  | S fuel => _loop_body (_try_read_message_loop fuel) self
  end.

Definition budget (self : t) : nat := List.length (_buffer self) + 2.

Definition _try_read_message (self : t) : option (option bytes * t) :=
  _try_read_message_loop (budget self) self.

(** The [while True] of [feed]. *)
Fixpoint _feed_loop (fuel : nat) (self : t) (messages : list bytes)
  : option (list bytes * t) :=
  match fuel with
  | O => None
  | S fuel =>
      match _try_read_message self with
      | None => None
      | Some (None, self) => Some (messages, self)
      | Some (Some message, self) =>
          _feed_loop fuel self (messages ++ [message])
      end
  end.

Definition feed (self : t) (data : bytes) : option (list bytes * t) :=
  let self := extend self data in
  _feed_loop (budget self) self [].


(** Feed the slices of a partition in order; the result lists what each
    call of [feed] returned. *)
Fixpoint feed_all (self : t) (parts : list bytes)
  : option (list (list bytes) * t) :=
  match parts with
  | [] => Some ([], self)
  | data :: parts =>
      match feed self data with
      | None => None
      | Some (messages, self) =>
          match feed_all self parts with
          | None => None
          | Some (outs, self) => Some (messages :: outs, self)
          end
      end
  end.

End ChunkReader.

(** ** Session ([session.py]) *)

(** [l[a:b]] with Python's treatment of negative and out-of-range bounds;
    [b = None] is an omitted upper bound. *)
Definition slice_index (n i : Z) : Z :=
  if i <? 0 then Z.max (i + n) 0 else Z.min i n.

Definition pyslice {A : Type} (l : list A) (a : Z) (b : option Z) : list A :=
  let lo := slice_index (len l) a in
  let hi := match b with Some b => slice_index (len l) b | None => len l end in
  firstn (Z.to_nat (hi - lo)) (skipn (Z.to_nat lo) l).

Module QueryResult.

Record t : Type := mk {
  fields : list value;
  records : list (list value);
  cursor : Z
}.

(** Each method returns its result and the object after the call. *)
Definition pull (self : t) (n : Z) : list (list value) * t :=
  if n <? 0 then
    (pyslice (records self) (cursor self) None,
     mk (fields self) (records self) (len (records self)))
  else
    let end_ := Z.min (cursor self + n) (len (records self)) in
    (pyslice (records self) (cursor self) (Some end_),
     mk (fields self) (records self) end_).

Definition has_more (self : t) : bool := cursor self <? len (records self).

Definition reset (self : t) : t := mk (fields self) (records self) 0.

Definition discard (self : t) (n : Z) : Z * t :=
  if n <? 0 then
    (len (records self) - cursor self,
     mk (fields self) (records self) (len (records self)))
  else
    let old_cursor := cursor self in
    let new_cursor := Z.min (cursor self + n) (len (records self)) in
    (new_cursor - old_cursor, mk (fields self) (records self) new_cursor).

End QueryResult.

(** Graph objects live in a store: a session, its connection and the
    other connections of the server hold references to the same live
    graph, and [copy.deepcopy] allocates a new object.  The content [G] of
    a graph and the networkx methods [clear] and [update] are outside the
    repository and stay abstract. *)
Module BoltSession.

Section WithGraph.

Variable G : Type.
(** [g.clear()] and [g.update(other)] on contents. *)
Variable graph_clear : G -> G.
Variable graph_update : G -> G -> G.

Definition ref := nat.

Record store : Type := mk_store {
  cell : ref -> G;
  fresh : ref
}.

Definition write_cell (h : store) (a : ref) (g : G) : store :=
  mk_store (fun b => if Nat.eqb b a then g else cell h b) (fresh h).

(** [copy.deepcopy(obj)]: a new object with the same content. *)
Definition deepcopy (h : store) (a : ref) : ref * store :=
  (fresh h,
   mk_store (fun b => if Nat.eqb b (fresh h) then cell h a else cell h b)
            (S (fresh h))).

Record t : Type := mk {
  graph : ref;
  current_result : option QueryResult.t;
  in_transaction : bool;
  tx_graph : option ref;
  bookmarks : list value;
  database : string;
  last_qid : Z
}.

(** [BoltSession(graph=graph)] *)
Definition __init__ (graph : ref) : t :=
  mk graph None false None [] "neo4j" (-1).

Definition begin_transaction (h : store) (self : t) : result (store * t) :=
  if in_transaction self then Raise RuntimeError
  else
    let (copy, h) := deepcopy h (graph self) in
    Ok (h, mk (graph self) (current_result self) true (Some copy)
              (bookmarks self) (database self) (last_qid self)).

Definition commit_transaction (h : store) (self : t) : result (store * t) :=
  if negb (in_transaction self) then Raise RuntimeError
  else
    let h :=
      match tx_graph self with
      | Some tx =>
          let h := write_cell h (graph self) (graph_clear (cell h (graph self))) in
          write_cell h (graph self)
            (graph_update (cell h (graph self)) (cell h tx))
      | None => h
      end in
    Ok (h, mk (graph self) (current_result self) false None
              (bookmarks self) (database self) (last_qid self)).

Definition rollback_transaction (self : t) : result t :=
  if negb (in_transaction self) then Raise RuntimeError
  else Ok (mk (graph self) (current_result self) false None
              (bookmarks self) (database self) (last_qid self)).

Definition get_working_graph (self : t) : ref :=
  match in_transaction self, tx_graph self with
  | true, Some tx => tx
  | _, _ => graph self
  end.

Definition set_result (self : t) (r : QueryResult.t) : Z * t :=
  (last_qid self + 1,
   mk (graph self) (Some r) (in_transaction self) (tx_graph self)
      (bookmarks self) (database self) (last_qid self + 1)).

Definition clear_result (self : t) : t :=
  mk (graph self) None (in_transaction self) (tx_graph self)
     (bookmarks self) (database self) (last_qid self).

(** A mutation of the graph [get_working_graph] returns, as a query
    run against the working graph performs it. *)
Definition mutate_working_graph (h : store) (self : t) (f : G -> G) : store :=
  let a := get_working_graph self in
  write_cell h a (f (cell h a)).

(** [begin_transaction], the mutations in order, [rollback_transaction];
    an exception ends the sequence.  The result carries the store and
    the session as the sequence leaves them. *)
Definition transaction_then_rollback (h : store) (self : t)
    (mutations : list (G -> G)) : store * t * result unit :=
  match begin_transaction h self with
  | Raise e => (h, self, Raise e)
  | Ok (h, self) =>
      let h :=
        fold_left (fun h f => mutate_working_graph h self f) mutations h in
      match rollback_transaction self with
      | Raise e => (h, self, Raise e)
      | Ok self => (h, self, Ok tt)
      end
  end.

End WithGraph.

Arguments cell {G} s a.
Arguments fresh {G} s.
Arguments write_cell {G} h a g.
Arguments deepcopy {G} h a.
Arguments begin_transaction {G} h self.
Arguments commit_transaction {G} graph_clear graph_update h self.
Arguments mutate_working_graph {G} h self f.
Arguments transaction_then_rollback {G} h self mutations.

End BoltSession.

(** ** Python builtins used by the converter and the connection *)

(** Truth value of an object ([if x], [x or y]). *)
Definition py_truthy (v : value) : bool :=
  match v with
  | VNone => false
  | VBool b => b
  | VInt z => negb (z =? 0)
  | VFloat bits => negb (bits mod 2 ^ 63 =? 0)
  | VStr s => negb (String.eqb s "")
  | VBytes b => match b with [] => false | _ => true end
  | VList l | VTuple l => match l with [] => false | _ => true end
  | VDict d => match d with [] => false | _ => true end
  | VStruct _ _ => true
  end.

Definition is_nan (v : value) : bool :=
  match v with
  | VFloat bits => float64.is_nan bits
  | _ => false
  end.

(** [a == b] between two numbers ([bool], [int] or [float]): equal values,
    and a NaN is equal to nothing. *)
Definition num_eq (a b : value) : bool :=
  match hkey_of a, hkey_of b with
  | Some ka, Some kb => hkey_eqb ka kb && negb (is_nan a) && negb (is_nan b)
  | _, _ => false
  end.

(** The operator [==].  Containers are compared element by element, dicts
    key by key, [Structure] by its dataclass [__eq__]; values of different
    kinds are unequal. *)
Fixpoint py_eq (a b : value) {struct a} : bool :=
  match a with
  | VNone => match b with VNone => true | _ => false end
  | VBool _ | VInt _ | VFloat _ =>
      match b with
      | VBool _ | VInt _ | VFloat _ => num_eq a b
      | _ => false
      end
  | VStr x => match b with VStr y => String.eqb x y | _ => false end
  | VBytes x => match b with VBytes y => bytes_eqb x y | _ => false end
  | VList x =>
      match b with
      | VList y =>
          (fix each (x y : list value) : bool :=
             match x, y with
             | [], [] => true
             | a' :: x', b' :: y' => py_eq a' b' && each x' y'
             | _, _ => false
             end) x y
      | _ => false
      end
  | VTuple x =>
      match b with
      | VTuple y =>
          (fix each (x y : list value) : bool :=
             match x, y with
             | [], [] => true
             | a' :: x', b' :: y' => py_eq a' b' && each x' y'
             | _, _ => false
             end) x y
      | _ => false
      end
  | VDict x =>
      match b with
      | VDict y =>
          (len x =? len y)
          && (fix each (x : list (value * value)) : bool :=
                match x with
                | [] => true
                | (k, v) :: x' =>
                    match hkey_of k with
                    | Some hk =>
                        match pydict.find hk y with
                        | Some v' => py_eq v v'
                        | None => false
                        end
                    | None => false
                    end
                    && each x'
                end) x
      | _ => false
      end
  | VStruct t f =>
      match b with
      | VStruct t' f' =>
          (t =? t')
          && (fix each (x y : list value) : bool :=
                match x, y with
                | [], [] => true
                | a' :: x', b' :: y' => py_eq a' b' && each x' y'
                | _, _ => false
                end) f f'
      | _ => false
      end
  end.

(** The characters of a [str]: the UTF-8 sequence cut before every byte
    that is not a continuation byte. *)
Fixpoint utf8_chars (bs : bytes) : list bytes :=
  match bs with
  | [] => []
  | b :: bs' =>
      match utf8_chars bs' with
      | c :: cs =>
          match c with
          | b' :: _ => if utf8.cont b' then (b :: c) :: cs else [b] :: c :: cs
          | [] => [b] :: cs
          end
      | [] => [[b]]
      end
  end.

(** [list(x)] *)
Definition py_list (v : value) : result (list value) :=
  match v with
  | VList l | VTuple l => Ok l
  | VStr s =>
      Ok (map (fun c => VStr (string_of_list_byte c))
              (utf8_chars (list_byte_of_string s)))
  | VBytes b => Ok (map (fun x => VInt (Z_of_byte x)) b)
  | VDict d => Ok (map fst d)
  | VNone | VBool _ | VInt _ | VFloat _ | VStruct _ _ => Raise TypeError
  end.

(** [k.startswith('__')] *)
Definition startswith_dunder (k : value) : result bool :=
  match k with
  | VStr s => Ok (String.prefix "__" s)
  | VBytes _ => Raise TypeError
  | _ => Raise AttributeError
  end.

(** [{k: v for k, v in d.items() if not k.startswith('__')}] *)
Fixpoint public_items (d : pydict.t) (acc : pydict.t) : result pydict.t :=
  match d with
  | [] => Ok acc
  | (k, v) :: d' =>
      do hidden <- startswith_dunder k;
      if hidden then public_items d' acc
      else
        do acc <- pydict.set acc k v;
        public_items d' acc
  end.

(** ** Message catalog ([messages.py]) *)

Definition MSG_HELLO := 0x01.
Definition MSG_GOODBYE := 0x02.
Definition MSG_RESET := 0x0F.
Definition MSG_RUN := 0x10.
Definition MSG_BEGIN := 0x11.
Definition MSG_COMMIT := 0x12.
Definition MSG_ROLLBACK := 0x13.
Definition MSG_DISCARD := 0x2F.
Definition MSG_PULL := 0x3F.
Definition MSG_ROUTE := 0x66.
Definition MSG_LOGON := 0x6A.
Definition MSG_LOGOFF := 0x6B.
Definition MSG_TELEMETRY := 0x54.

Definition MSG_SUCCESS := 0x70.
Definition MSG_RECORD := 0x71.
Definition MSG_IGNORED := 0x7E.
Definition MSG_FAILURE := 0x7F.

Definition STRUCT_NODE := 0x4E.
Definition STRUCT_RELATIONSHIP := 0x52.
Definition STRUCT_UNBOUND_REL := 0x72.
Definition STRUCT_PATH := 0x50.

Section Messages.

  (** The builtin [str(x)]; its text for other objects than strings is
      left to the interpreter. *)
Variable py_str : value -> string.

(** [element_id or str(id)] *)
Definition or_str_of_id (element_id : string) (id : Z) : string :=
  if negb (String.eqb element_id "") then element_id else py_str (VInt id).

Record BoltNode : Type := mkBoltNode {
  node_id : Z;
  node_labels : list value;
  node_properties : pydict.t;
  node_element_id : string
}.

Definition BoltNode_to_structure (self : BoltNode) : value :=
  VStruct STRUCT_NODE
    [VInt (node_id self); VList (node_labels self);
     VDict (node_properties self);
     VStr (or_str_of_id (node_element_id self) (node_id self))].

Record BoltRelationship : Type := mkBoltRelationship {
  rel_id : Z;
  rel_start_node_id : Z;
  rel_end_node_id : Z;
  rel_type : string;
  rel_properties : pydict.t;
  rel_element_id : string;
  rel_start_element_id : string;
  rel_end_element_id : string
}.

Definition BoltRelationship_to_structure (self : BoltRelationship) : value :=
  VStruct STRUCT_RELATIONSHIP
    [VInt (rel_id self); VInt (rel_start_node_id self);
     VInt (rel_end_node_id self); VStr (rel_type self);
     VDict (rel_properties self);
     VStr (or_str_of_id (rel_element_id self) (rel_id self));
     VStr (or_str_of_id (rel_start_element_id self) (rel_start_node_id self));
     VStr (or_str_of_id (rel_end_element_id self) (rel_end_node_id self))].

Record BoltUnboundRelationship : Type := mkBoltUnboundRelationship {
  urel_id : Z;
  urel_type : string;
  urel_properties : pydict.t;
  urel_element_id : string
}.

Definition BoltUnboundRelationship_to_structure
    (self : BoltUnboundRelationship) : value :=
  VStruct STRUCT_UNBOUND_REL
    [VInt (urel_id self); VStr (urel_type self);
     VDict (urel_properties self);
     VStr (or_str_of_id (urel_element_id self) (urel_id self))].

Record BoltPath : Type := mkBoltPath {
  path_nodes : list BoltNode;
  path_relationships : list BoltUnboundRelationship;
  path_indices : list Z
}.

Definition BoltPath_to_structure (self : BoltPath) : value :=
  VStruct STRUCT_PATH
    [VList (map BoltNode_to_structure (path_nodes self));
     VList (map BoltUnboundRelationship_to_structure (path_relationships self));
     VList (map VInt (path_indices self))].

End Messages.

(** [create_success(metadata)]: [metadata or {}] *)
Definition create_success (metadata : value) : value :=
  VStruct MSG_SUCCESS [if py_truthy metadata then metadata else VDict []].

Definition create_failure (code message : value) : value :=
  VStruct MSG_FAILURE [VDict [(VStr "code", code); (VStr "message", message)]].

Definition create_record (fields : value) : value :=
  VStruct MSG_RECORD [fields].

Definition create_ignored : value := VStruct MSG_IGNORED [VDict []].

(** ** Result converter ([converter.py]) *)

(** [len(x)] and [x[i]] for a non-negative int [i]. *)
Definition py_len (v : value) : result Z :=
  match v with
  | VStr s => Ok (len (utf8_chars (list_byte_of_string s)))
  | VBytes b => Ok (len b)
  | VList l | VTuple l => Ok (len l)
  | VDict d => Ok (len d)
  | VNone | VBool _ | VInt _ | VFloat _ | VStruct _ _ => Raise TypeError
  end.

Definition py_getitem (v : value) (i : Z) : result value :=
  match v with
  | VList l | VTuple l =>
      match nth_error l (Z.to_nat i) with
      | Some x => Ok x
      | None => Raise IndexError
      end
  | VStr s =>
      match nth_error (utf8_chars (list_byte_of_string s)) (Z.to_nat i) with
      | Some c => Ok (VStr (string_of_list_byte c))
      | None => Raise IndexError
      end
  | VBytes b =>
      match nth_error b (Z.to_nat i) with
      | Some x => Ok (VInt (Z_of_byte x))
      | None => Raise IndexError
      end
  | VDict d =>
      match pydict.find (KNum i) d with
      | Some x => Ok x
      | None => Raise KeyError
      end
  | VNone | VBool _ | VInt _ | VFloat _ | VStruct _ _ => Raise TypeError
  end.

Module ResultConverter.

Record t : Type := mk {
  _graph : nat;
  _node_id_map : pydict.dict Z;
  _edge_id_map : pydict.dict Z;
  _next_node_id : Z;
  _next_edge_id : Z
}.

Definition __init__ (graph : nat) : t := mk graph [] [] 0 0.

(** A method changes the converter and returns or raises; the changes
    made before an exception stay. *)
Definition M (A : Type) : Type := t -> result A * t.

Definition ret {A : Type} (a : A) : M A := fun self => (Ok a, self).

Definition raise {A : Type} (e : exn) : M A := fun self => (Raise e, self).

Definition lift {A : Type} (r : result A) : M A := fun self => (r, self).

Definition mbind {A B : Type} (m : M A) (k : A -> M B) : M B :=
  fun self =>
    match m self with
    | (Ok a, self) => k a self
    | (Raise e, self) => (Raise e, self)
    end.

Notation "'let*' x ':=' m 'in' k" := (mbind m (fun x => k))
  (at level 10, x pattern, m at level 100, k at level 200).

Definition _get_node_id (node_key : value) : M Z :=
  fun self =>
    match hkey_of node_key with
    | None => (Raise TypeError, self)
    | Some hk =>
        let self :=
          match pydict.find hk (_node_id_map self) with
          | Some _ => self
          | None =>
              mk (_graph self)
                 (pydict.store hk node_key (_next_node_id self) (_node_id_map self))
                 (_edge_id_map self)
                 (_next_node_id self + 1)
                 (_next_edge_id self)
          end in
        match pydict.find hk (_node_id_map self) with
        | Some id => (Ok id, self)
        | None => (Raise KeyError, self)
        end
    end.

Definition _get_edge_id (edge_key : value) : M Z :=
  fun self =>
    match hkey_of edge_key with
    | None => (Raise TypeError, self)
    | Some hk =>
        let self :=
          match pydict.find hk (_edge_id_map self) with
          | Some _ => self
          | None =>
              mk (_graph self)
                 (_node_id_map self)
                 (pydict.store hk edge_key (_next_edge_id self) (_edge_id_map self))
                 (_next_node_id self)
                 (_next_edge_id self + 1)
          end in
        match pydict.find hk (_edge_id_map self) with
        | Some id => (Ok id, self)
        | None => (Raise KeyError, self)
        end
    end.

(** [d.get(key)] and [d.get(key, default)] for a string literal. *)
Definition get_or (d : pydict.t) (key : string) (default : value) : value :=
  match pydict.get_str d key with
  | Some v => v
  | None => default
  end.

(** [(start_node, end_node, edge_key) if edge_key else (start_node, end_node)] *)
Definition edge_tuple_of (start_node end_node edge_key : value) : value :=
  if py_truthy edge_key then VTuple [start_node; end_node; edge_key]
  else VTuple [start_node; end_node].

Section Converter.

Variable py_str : value -> string.

Definition _convert_node (node_dict : pydict.t) : M value :=
  let* node_key :=
    lift (match pydict.get_str node_dict "__node_id__" with
          | Some k => Ok k
          | None => Raise KeyError
          end) in
  let* node_id := _get_node_id node_key in
  let* labels := lift (py_list (get_or node_dict "__labels__" (VList []))) in
  let* properties := lift (public_items node_dict []) in
  let element_id := py_str node_key in
  ret (BoltNode_to_structure py_str
         (mkBoltNode node_id labels properties element_id)).

Definition _convert_relationship (rel_dict : pydict.t) : M value :=
  let start_node := get_or rel_dict "__start_node__" VNone in
  let end_node := get_or rel_dict "__end_node__" VNone in
  (* the default of [get('__rel_type__', ...)] is evaluated first *)
  let* default :=
    lift (match pydict.get_str rel_dict "__labels__" with
          | Some (VList l) =>
              match l with
              | x :: _ => Ok x
              | [] => Raise IndexError
              end
          | _ => Ok (VStr "")
          end) in
  let rel_type := get_or rel_dict "__rel_type__" default in
  let edge_key := get_or rel_dict "__edge_key__" VNone in
  let edge_tuple := edge_tuple_of start_node end_node edge_key in
  let* edge_id := _get_edge_id edge_tuple in
  let* start_id :=
    if py_truthy start_node then _get_node_id start_node else ret 0 in
  let* end_id :=
    if py_truthy end_node then _get_node_id end_node else ret 0 in
  let* properties := lift (public_items rel_dict []) in
  ret (BoltRelationship_to_structure py_str
         (mkBoltRelationship edge_id start_id end_id (py_str rel_type)
            properties (py_str edge_tuple) (py_str start_node)
            (py_str end_node))).

(** The locals of [_convert_path]. *)
Record path_state : Type := mk_path_state {
  nodes : list BoltNode;
  relationships : list BoltUnboundRelationship;
  indices : list Z;
  node_index_map : pydict.dict Z;
  rel_index : Z
}.

(** [isinstance(element, dict) and '__node_id__' in element], with the
    value of the key. *)
Definition node_key_of (element : value) : option value :=
  match element with
  | VDict d => pydict.get_str d "__node_id__"
  | _ => None
  end.

(** The index a relationship gets: the [if i + 1 < len(path_data)]
    block of [_convert_path]. *)
Definition direction_index (path_data : list value) (i : Z)
    (end_node : value) (rel_index : Z) : Z :=
  if i + 1 <? len path_data then
    match nth_error path_data (Z.to_nat (i + 1)) with
    | Some next_element =>
        match node_key_of next_element with
        | Some next_node_key =>
            if py_eq next_node_key end_node then rel_index + 1
            else - (rel_index + 1)
        | None => rel_index + 1
        end
    | None => rel_index + 1
    end
  else rel_index + 1.

(** The body of the [for i, element in enumerate(path_data)] loop. *)
Definition _path_step (path_data : list value) (i : Z) (element : value)
    (st : path_state) : M path_state :=
  if i mod 2 =? 0 then
    match element with
    | VDict d =>
        match pydict.get_str d "__node_id__" with
        | Some node_key =>
            let* hk :=
              lift (match hkey_of node_key with
                    | Some hk => Ok hk
                    | None => Raise TypeError
                    end) in
            let* st :=
              match pydict.find hk (node_index_map st) with
              | Some _ => ret st
              | None =>
                  let node_index_map' :=
                    pydict.store hk node_key (len (nodes st))
                      (node_index_map st) in
                  let* node_id := _get_node_id node_key in
                  let* labels :=
                    lift (py_list (get_or d "__labels__" (VList []))) in
                  let* properties := lift (public_items d []) in
                  ret (mk_path_state
                         (nodes st ++
                          [mkBoltNode node_id labels properties
                             (py_str node_key)])
                         (relationships st) (indices st)
                         node_index_map' (rel_index st))
              end in
            let* index :=
              lift (match pydict.find hk (node_index_map st) with
                    | Some index => Ok index
                    | None => Raise KeyError
                    end) in
            ret (mk_path_state (nodes st) (relationships st)
                   (indices st ++ [index]) (node_index_map st)
                   (rel_index st))
        | None => ret st
        end
    | _ => ret st
    end
  else
    match element with
    | VDict d =>
        let rel_type := get_or d "__rel_type__" (VStr "") in
        let edge_key := get_or d "__edge_key__" VNone in
        let start_node := get_or d "__start_node__" VNone in
        let end_node := get_or d "__end_node__" VNone in
        let edge_tuple := edge_tuple_of start_node end_node edge_key in
        let* edge_id := _get_edge_id edge_tuple in
        let* properties := lift (public_items d []) in
        let index := direction_index path_data i end_node (rel_index st) in
        ret (mk_path_state (nodes st)
               (relationships st ++
                [mkBoltUnboundRelationship edge_id (py_str rel_type)
                   properties (py_str edge_tuple)])
               (indices st ++ [index]) (node_index_map st)
               (rel_index st + 1))
    | _ => ret st
    end.

Fixpoint _path_loop (path_data : list value) (i : Z) (rest : list value)
    (st : path_state) : M path_state :=
  match rest with
  | [] => ret st
  | element :: rest =>
      let* st := _path_step path_data i element st in
      _path_loop path_data (i + 1) rest st
  end.

(** The elements [enumerate(path_data)] yields, as far as the loop
    looks at them: only a list or a tuple can hold a dict. *)
Definition path_elements (path_data : value) : result (list value) :=
  match path_data with
  | VList l | VTuple l => Ok l
  | VStr _ | VBytes _ | VDict _ => Ok []
  | VNone | VBool _ | VInt _ | VFloat _ | VStruct _ _ => Raise TypeError
  end.

Definition _convert_path_record (path_dict : pydict.t) : M BoltPath :=
  let path_data := get_or path_dict "__path__" (VList []) in
  let* elements := lift (path_elements path_data) in
  let* st :=
    _path_loop elements 0 elements (mk_path_state [] [] [] [] 0) in
  ret (mkBoltPath (nodes st) (relationships st) (indices st)).

Definition _convert_path (path_dict : pydict.t) : M value :=
  let* p := _convert_path_record path_dict in
  ret (BoltPath_to_structure py_str p).

Fixpoint _convert_value (v : value) : M value :=
  match v with
  | VNone => ret VNone
  | VDict d =>
      if pydict.contains_str d "__node_id__" then _convert_node d
      else if pydict.contains_str d "__rel_type__"
              || pydict.contains_str d "__edge_key__"
      then _convert_relationship d
      else if pydict.contains_str d "__path__" then _convert_path d
      else
        let* d' :=
          (fix each (d acc : list (value * value)) : M pydict.t :=
             match d with
             | [] => ret acc
             | (k, v) :: d' =>
                 let* v' := _convert_value v in
                 let* acc := lift (pydict.set acc k v') in
                 each d' acc
             end) d [] in
        ret (VDict d')
  | VList l | VTuple l =>
      let* l' :=
        (fix each (l : list value) : M (list value) :=
           match l with
           | [] => ret []
           | x :: l' =>
               let* y := _convert_value x in
               let* ys := each l' in
               ret (y :: ys)
           end) l in
      ret (VList l')
  | _ => ret v
  end.

(** One row of [convert_result]: [result[field][i]] converted, for
    every field. *)
Fixpoint _convert_row (result : pydict.t) (i : Z) (fields : list value)
  : M (list value) :=
  match fields with
  | [] => ret []
  | field :: fields =>
      let* column :=
        lift (do r <- pydict.get result field;
              match r with
              | Some c => Ok c
              | None => Raise KeyError
              end) in
      let* v := lift (py_getitem column i) in
      let* v' := _convert_value v in
      let* row := _convert_row result i fields in
      ret (v' :: row)
  end.

Fixpoint _convert_rows (result : pydict.t) (fields : list value)
    (i : Z) (count : nat) : M (list (list value)) :=
  match count with
  | O => ret []
  | S count =>
      let* row := _convert_row result i fields in
      let* rows := _convert_rows result fields (i + 1) count in
      ret (row :: rows)
  end.

Definition convert_result (result : value) : M QueryResult.t :=
  if negb (py_truthy result) then ret (QueryResult.mk [] [] 0)
  else
    match result with
    | VDict d =>
        let fields := map fst d in
        let first_col := match d with (_, c) :: _ => c | [] => VNone end in
        let* num_rows :=
          if py_truthy first_col then lift (py_len first_col) else ret 0 in
        let* records := _convert_rows d fields 0 (Z.to_nat num_rows) in
        ret (QueryResult.mk fields records 0)
    | _ => raise AttributeError
    end.

End Converter.

End ResultConverter.

(** ** Connection handler ([connection.py]) *)

Definition BOLT_MAGIC : bytes := [x60; x60; xb0; x17].

Definition SUPPORTED_VERSIONS : list (Z * Z) := [(5, 4); (5, 0); (4, 4); (4, 3)].

Module BoltConnection.

Section WithGraph.

  (** Outside the repository: the content of a graph with the networkx
      methods the session calls, the query engine, and the texts the
      interpreter produces. *)
Variable G : Type.
Variable graph_clear : G -> G.
Variable graph_update : G -> G -> G.
(** [NXCypher(working_graph).run(query, params=params)]: the value it
    returns or the exception it raises, and the working graph after. *)
Variable nxcypher_run : value -> value -> G -> result value * G.
Variable py_str : value -> string.
(** [str(e)] of a caught exception and [f"0x{tag:02X}"]. *)
Variable exn_text : exn -> string.
Variable unknown_tag_text : Z -> string.

(** The fields of the connection object, with the graph store the
    server shares, the bytes still to arrive on the socket
    ([_reader]) and the bytes written to it ([_writer]). *)
Record t : Type := mk {
  store : BoltSession.store G;
  _reader : bytes;
  _writer : bytes;
  _graph : BoltSession.ref;
  _server_name : string;
  connection_id : string;
  _state : StateMachine.t;
  _session : BoltSession.t;
  _converter : ResultConverter.t;
  _chunk_reader : ChunkReader.t;
  _chunk_writer : ChunkWriter.t;
  _negotiated_version : option (Z * Z);
  _client_info : value
}.

Definition __init__ (store : BoltSession.store G) (reader : bytes)
    (graph : BoltSession.ref) (server_name connection_id : string) : t :=
  mk store reader [] graph server_name connection_id
     StateMachine.__init__ (BoltSession.__init__ graph)
     (ResultConverter.__init__ graph) ChunkReader.__init__
     (ChunkWriter.__init__ MAX_CHUNK_SIZE) None (VDict []).

(** Field updates. *)
Definition set_store (self : t) (x : BoltSession.store G) : t :=
  mk x (_reader self) (_writer self) (_graph self) (_server_name self)
     (connection_id self) (_state self) (_session self) (_converter self)
     (_chunk_reader self) (_chunk_writer self) (_negotiated_version self)
     (_client_info self).

Definition set_reader (self : t) (x : bytes) : t :=
  mk (store self) x (_writer self) (_graph self) (_server_name self)
     (connection_id self) (_state self) (_session self) (_converter self)
     (_chunk_reader self) (_chunk_writer self) (_negotiated_version self)
     (_client_info self).

Definition set_writer (self : t) (x : bytes) : t :=
  mk (store self) (_reader self) x (_graph self) (_server_name self)
     (connection_id self) (_state self) (_session self) (_converter self)
     (_chunk_reader self) (_chunk_writer self) (_negotiated_version self)
     (_client_info self).

Definition set_state (self : t) (x : StateMachine.t) : t :=
  mk (store self) (_reader self) (_writer self) (_graph self)
     (_server_name self) (connection_id self) x (_session self)
     (_converter self) (_chunk_reader self) (_chunk_writer self)
     (_negotiated_version self) (_client_info self).

Definition set_session (self : t) (x : BoltSession.t) : t :=
  mk (store self) (_reader self) (_writer self) (_graph self)
     (_server_name self) (connection_id self) (_state self) x
     (_converter self) (_chunk_reader self) (_chunk_writer self)
     (_negotiated_version self) (_client_info self).

Definition set_converter (self : t) (x : ResultConverter.t) : t :=
  mk (store self) (_reader self) (_writer self) (_graph self)
     (_server_name self) (connection_id self) (_state self)
     (_session self) x (_chunk_reader self) (_chunk_writer self)
     (_negotiated_version self) (_client_info self).

Definition set_negotiated_version (self : t) (x : option (Z * Z)) : t :=
  mk (store self) (_reader self) (_writer self) (_graph self)
     (_server_name self) (connection_id self) (_state self)
     (_session self) (_converter self) (_chunk_reader self)
     (_chunk_writer self) x (_client_info self).

Definition set_client_info (self : t) (x : value) : t :=
  mk (store self) (_reader self) (_writer self) (_graph self)
     (_server_name self) (connection_id self) (_state self)
     (_session self) (_converter self) (_chunk_reader self)
     (_chunk_writer self) (_negotiated_version self) x.

(** A coroutine of the connection: it changes the connection and
    returns or raises; what it did before an exception stays.  The
    outer [None] is a run that leaves what is modelled: the chunk
    writer running for ever (which its chunk size of 65535 excludes)
    or a [float] given as the count [n] of PULL or DISCARD. *)
Definition H (A : Type) : Type := t -> option (result A * t).

Definition ret {A : Type} (a : A) : H A := fun self => Some (Ok a, self).

Definition raise {A : Type} (e : exn) : H A :=
  fun self => Some (Raise e, self).

Definition hbind {A B : Type} (m : H A) (k : A -> H B) : H B :=
  fun self =>
    match m self with
    | None => None
    | Some (Ok a, self) => k a self
    | Some (Raise e, self) => Some (Raise e, self)
    end.

Notation "'let!' x ':=' m 'in' k" := (hbind m (fun x => k))
  (at level 10, x pattern, m at level 100, k at level 200).

Definition lift {A : Type} (r : result A) : H A :=
  fun self => Some (r, self).

Definition get : H t := fun self => Some (Ok self, self).

Definition modify (f : t -> t) : H unit := fun self => Some (Ok tt, f self).

(** [try: body except Exception as e: handler(e)] *)
Definition try_except {A : Type} (body : H A) (handler : exn -> H A) : H A :=
  fun self =>
    match body self with
    | None => None
    | Some (Ok a, self) => Some (Ok a, self)
    | Some (Raise e, self) => handler e self
    end.

(** [self._state.transition_to(new_state)] *)
Definition transition_to (new_state : ConnectionState) : H unit :=
  fun self =>
    let (r, s) := StateMachine.transition_to (_state self) new_state in
    Some (r, set_state self s).

(** *** Sending *)

Definition _send_message (message : value) : H unit :=
  fun self =>
    match encode py_str message with
    | Raise e => Some (Raise e, self)
    | Ok encoded =>
        match ChunkWriter.write (_chunk_writer self) encoded with
        | None => None
        | Some (Raise e) => Some (Raise e, self)
        | Some (Ok chunked) =>
            Some (Ok tt, set_writer self (_writer self ++ chunked))
        end
    end.

Definition _send_success (metadata : value) : H unit :=
  _send_message (create_success metadata).

Definition _send_failure (code message : string) : H unit :=
  _send_message (create_failure (VStr code) (VStr message)).

Definition _send_record (fields : value) : H unit :=
  _send_message (create_record fields).

Definition _send_ignored : H unit := _send_message create_ignored.

(** *** Handshake *)

(** [await self._reader.readexactly(n)]; a short stream raises
    [IncompleteReadError], a [ValueError] here. *)
Definition readexactly (n : nat) : H bytes :=
  fun self =>
    if (List.length (_reader self) <? n)%nat then Some (Raise ValueError, self)
    else Some (Ok (firstn n (_reader self)),
               set_reader self (skipn n (_reader self))).

(** The [for i in range(4)] loop: the proposals with a major version
    above zero, as [(major, minor, version_range)]. *)
Fixpoint _parse_versions (version_data : bytes) (count : nat) (i : Z)
  : list (Z * Z * Z) :=
  match count with
  | O => []
  | S count =>
      let v := struct.unpack_unsigned (slice version_data (i * 4) ((i + 1) * 4)) in
      let major := Z.land v 0xFF in
      let minor := Z.land (Z.shiftr v 8) 0xFF in
      let version_range := Z.land (Z.shiftr v 16) 0xFF in
      (if 0 <? major then [(major, minor, version_range)] else [])
      ++ _parse_versions version_data count (i + 1)
  end.

(** The inner [for sup_major, sup_minor in SUPPORTED_VERSIONS] loop,
    up to its [break]. *)
Fixpoint _match_supported (major minor version_range : Z)
    (supported : list (Z * Z)) : option (Z * Z) :=
  match supported with
  | [] => None
  | (sup_major, sup_minor) :: supported =>
      if sup_major =? major then
        if 0 <? version_range then
          if (minor - version_range <=? sup_minor) && (sup_minor <=? minor)
          then Some (sup_major, sup_minor)
          else _match_supported major minor version_range supported
        else
          if sup_minor =? minor then Some (sup_major, sup_minor)
          else _match_supported major minor version_range supported
      else _match_supported major minor version_range supported
  end.

(** The outer [for major, minor, version_range in versions] loop. *)
Fixpoint _select_version (versions : list (Z * Z * Z)) : option (Z * Z) :=
  match versions with
  | [] => None
  | (major, minor, version_range) :: versions =>
      match _match_supported major minor version_range SUPPORTED_VERSIONS with
      | Some selected => Some selected
      | None => _select_version versions
      end
  end.

(** [self._writer.write(data)] *)
Definition writer_write (data : bytes) : H unit :=
  modify (fun self => set_writer self (_writer self ++ data)).

Definition _handshake : H bool :=
  try_except
    (let! magic := readexactly 4 in
     if negb (bytes_eqb magic BOLT_MAGIC) then ret false
     else
       let! version_data := readexactly 16 in
       let versions := _parse_versions version_data 4 0 in
       match _select_version versions with
       | None =>
           let! _ := writer_write [x00; x00; x00; x00] in
           ret false
       | Some selected =>
           let! _ := modify (fun self =>
                       set_negotiated_version self (Some selected)) in
           let! response :=
             lift (struct.pack_unsigned 4
                     (Z.lor (Z.shiftl (snd selected) 8) (fst selected))) in
           let! _ := writer_write response in
           let! _ := transition_to AUTHENTICATION in
           ret true
       end)
    (fun _ => ret false).

(** *** Message handlers *)

(** [fields[i] if len(fields) > i else default] *)
Definition field_or (fields : list value) (i : nat) (default : value) : value :=
  nth i fields default.

(** [extra.get(key, default)] on a decoded field. *)
Definition extra_get (extra : value) (key : string) (default : value)
  : result value :=
  match extra with
  | VDict d => Ok (ResultConverter.get_or d key default)
  | _ => Raise AttributeError
  end.

(** The count [n] as [pull] and [discard] use it: [n < 0] and
    [cursor + n] on an int; a comparison with zero raises on the other
    kinds; a float is outside the model. *)
Definition count_arg (n : value) : H Z :=
  match n with
  | VInt z => ret z
  | VBool b => ret (if b then 1 else 0)
  | VFloat _ => fun _ => None
  | _ => raise TypeError
  end.

Definition state_is (s : ConnectionState) : H bool :=
  fun self => Some (Ok (ConnectionState_eqb (_state self) s), self).

Definition major_at_least (self : t) (major : Z) : bool :=
  match _negotiated_version self with
  | Some (m, _) => major <=? m
  | None => false
  end.

Definition _handle_hello (fields : list value) : H unit :=
  let! authenticating := state_is AUTHENTICATION in
  if negb authenticating then _send_ignored
  else
    let extra := field_or fields 0 (VDict []) in
    let! _ := modify (fun self => set_client_info self extra) in
    let! user_agent := lift (extra_get extra "user_agent" (VStr "unknown")) in
    let! self := get in
    let metadata :=
      [(VStr "server", VStr (_server_name self));
       (VStr "connection_id", VStr (connection_id self))]
      ++ (if major_at_least self 5 then [(VStr "hints", VDict [])] else []) in
    let! _ := _send_success (VDict metadata) in
    transition_to READY.

Definition _handle_goodbye (fields : list value) : H unit :=
  modify (fun self => set_state self (StateMachine.mark_defunct (_state self))).

Definition _handle_reset (fields : list value) : H unit :=
  let! _ := modify (fun self =>
              set_session self (BoltSession.clear_result (_session self))) in
  let! self := get in
  let! _ :=
    if BoltSession.in_transaction (_session self) then
      let! session := lift (BoltSession.rollback_transaction (_session self)) in
      modify (fun self => set_session self session)
    else ret tt in
  let! _ := modify (fun self =>
              set_state self (StateMachine.reset (_state self))) in
  _send_success (VDict []).

(** [query[:100]], evaluated for the debug log line. *)
Definition check_sliceable (query : value) : result unit :=
  match query with
  | VStr _ | VBytes _ | VList _ | VTuple _ => Ok tt
  | _ => Raise TypeError
  end.

(** The [try] block of [_handle_run]. *)
Definition _run_query (query params : value) : H unit :=
  let! self := get in
  let working_graph := BoltSession.get_working_graph (_session self) in
  let (result, g) :=
    nxcypher_run query params (BoltSession.cell (store self) working_graph) in
  let! _ := modify (fun self =>
              set_store self (BoltSession.write_cell (store self) working_graph g)) in
  let! result := lift result in
  let! self := get in
  let (converted, converter) :=
    ResultConverter.convert_result py_str result (_converter self) in
  let! _ := modify (fun self => set_converter self converter) in
  let! query_result := lift converted in
  let! self := get in
  let (qid, session) := BoltSession.set_result (_session self) query_result in
  let! _ := modify (fun self => set_session self session) in
  let! _ :=
    if BoltSession.in_transaction session then transition_to TX_STREAMING
    else transition_to STREAMING in
  let! self := get in
  let metadata :=
    [(VStr "fields", VList (QueryResult.fields query_result));
     (VStr "t_first", VInt 0)]
    ++ (if major_at_least self 4 then [(VStr "qid", VInt qid)] else []) in
  _send_success (VDict metadata).

Definition _handle_run (fields : list value) : H unit :=
  let! self := get in
  if negb (ConnectionState_eqb (_state self) READY
           || ConnectionState_eqb (_state self) TX_READY) then
    if ConnectionState_eqb (_state self) FAILED then _send_ignored
    else _send_failure "Neo.ClientError.Request.Invalid"
                       "Cannot run query in current state"
  else
    let query := field_or fields 0 (VStr "") in
    let params := field_or fields 1 (VDict []) in
    let extra := field_or fields 2 (VDict []) in
    let! _ := lift (check_sliceable query) in
    try_except (_run_query query params)
      (fun e =>
         let! _ := _send_failure "Neo.ClientError.Statement.SyntaxError"
                                 (exn_text e) in
         transition_to FAILED).

Fixpoint _send_records (records : list (list value)) : H unit :=
  match records with
  | [] => ret tt
  | record :: records =>
      let! _ := _send_record (VList record) in
      _send_records records
  end.

(** The state after the last record: TX_READY in a transaction, READY
    otherwise, and the result is dropped. *)
Definition _finish_streaming : H unit :=
  let! self := get in
  let! _ :=
    if BoltSession.in_transaction (_session self) then transition_to TX_READY
    else transition_to READY in
  modify (fun self =>
    set_session self (BoltSession.clear_result (_session self))).

Definition _handle_pull (fields : list value) : H unit :=
  let! self := get in
  if negb (ConnectionState_eqb (_state self) STREAMING
           || ConnectionState_eqb (_state self) TX_STREAMING) then
    if ConnectionState_eqb (_state self) FAILED then _send_ignored
    else _send_failure "Neo.ClientError.Request.Invalid" "No results to pull"
  else
    let extra := field_or fields 0 (VDict []) in
    let! n := lift (extra_get extra "n" (VInt (-1))) in
    let! qid := lift (extra_get extra "qid" (VInt (-1))) in
    match BoltSession.current_result (_session self) with
    | None =>
        _send_failure "Neo.ClientError.Request.Invalid" "No active result"
    | Some current_result =>
        let! n := count_arg n in
        let (records, current_result) := QueryResult.pull current_result n in
        let! _ := modify (fun self =>
                    set_session self
                      (BoltSession.mk
                         (BoltSession.graph (_session self))
                         (Some current_result)
                         (BoltSession.in_transaction (_session self))
                         (BoltSession.tx_graph (_session self))
                         (BoltSession.bookmarks (_session self))
                         (BoltSession.database (_session self))
                         (BoltSession.last_qid (_session self)))) in
        let! _ := _send_records records in
        let has_more := QueryResult.has_more current_result in
        let metadata :=
          [(VStr "has_more", VBool has_more); (VStr "t_last", VInt 0)]
          ++ (if negb has_more
              then [(VStr "type", VStr "r"); (VStr "stats", VDict [])]
              else []) in
        let! _ := if negb has_more then _finish_streaming else ret tt in
        _send_success (VDict metadata)
    end.

Definition _handle_discard (fields : list value) : H unit :=
  let! self := get in
  if negb (ConnectionState_eqb (_state self) STREAMING
           || ConnectionState_eqb (_state self) TX_STREAMING) then
    if ConnectionState_eqb (_state self) FAILED then _send_ignored
    else _send_failure "Neo.ClientError.Request.Invalid"
                       "No results to discard"
  else
    let extra := field_or fields 0 (VDict []) in
    let! n := lift (extra_get extra "n" (VInt (-1))) in
    let! has_more :=
      match BoltSession.current_result (_session self) with
      | None => ret false
      | Some current_result =>
          let! n := count_arg n in
          let (_, current_result) := QueryResult.discard current_result n in
          let! _ := modify (fun self =>
                      set_session self
                        (BoltSession.mk
                           (BoltSession.graph (_session self))
                           (Some current_result)
                           (BoltSession.in_transaction (_session self))
                           (BoltSession.tx_graph (_session self))
                           (BoltSession.bookmarks (_session self))
                           (BoltSession.database (_session self))
                           (BoltSession.last_qid (_session self)))) in
          ret (QueryResult.has_more current_result)
      end in
    let metadata := [(VStr "has_more", VBool has_more)] in
    let! _ := if negb has_more then _finish_streaming else ret tt in
    _send_success (VDict metadata).

Definition _handle_begin (fields : list value) : H unit :=
  let! self := get in
  if negb (ConnectionState_eqb (_state self) READY) then
    if ConnectionState_eqb (_state self) FAILED then _send_ignored
    else _send_failure "Neo.ClientError.Request.Invalid"
                       "Cannot begin transaction in current state"
  else
    let extra := field_or fields 0 (VDict []) in
    try_except
      (let! (h, session) :=
         lift (BoltSession.begin_transaction (store self) (_session self)) in
       let! _ := modify (fun self => set_session (set_store self h) session) in
       let! _ := transition_to TX_READY in
       _send_success (VDict []))
      (fun e =>
         _send_failure "Neo.ClientError.Transaction.TransactionStartFailed"
                       (exn_text e)).

Definition _handle_commit (fields : list value) : H unit :=
  let! self := get in
  if negb (ConnectionState_eqb (_state self) TX_READY) then
    if ConnectionState_eqb (_state self) FAILED then _send_ignored
    else _send_failure "Neo.ClientError.Request.Invalid"
                       "No transaction to commit"
  else
    try_except
      (let! (h, session) :=
         lift (BoltSession.commit_transaction graph_clear graph_update
                 (store self) (_session self)) in
       let! _ := modify (fun self => set_session (set_store self h) session) in
       let! _ := transition_to READY in
       (* Update converter with new graph state *)
       let! _ := modify (fun self =>
                   set_converter self (ResultConverter.__init__ (_graph self))) in
       _send_success (VDict []))
      (fun e =>
         _send_failure "Neo.ClientError.Transaction.TransactionCommitFailed"
                       (exn_text e)).

Definition _handle_rollback (fields : list value) : H unit :=
  let! self := get in
  if negb (ConnectionState_eqb (_state self) TX_READY) then
    if ConnectionState_eqb (_state self) FAILED then _send_ignored
    else _send_failure "Neo.ClientError.Request.Invalid"
                       "No transaction to rollback"
  else
    try_except
      (let! session :=
         lift (BoltSession.rollback_transaction (_session self)) in
       let! _ := modify (fun self => set_session self session) in
       let! _ := transition_to READY in
       _send_success (VDict []))
      (fun e =>
         _send_failure "Neo.ClientError.Transaction.TransactionRollbackFailed"
                       (exn_text e)).

Definition _handle_route (fields : list value) : H unit :=
  let extra := field_or fields 0 (VDict []) in
  let bookmarks := field_or fields 1 (VList []) in
  let db := field_or fields 2 VNone in
  let server (role : string) :=
    VDict [(VStr "addresses", VList [VStr "localhost:7687"]);
           (VStr "role", VStr role)] in
  let routing_table :=
    VDict [(VStr "rt",
            VDict [(VStr "servers",
                    VList [server "WRITE"%string; server "READ"%string;
                           server "ROUTE"%string]);
                   (VStr "ttl", VInt 300);
                   (VStr "db", if py_truthy db then db else VStr "neo4j")])] in
  _send_success routing_table.

Definition _handle_logoff (fields : list value) : H unit :=
  _send_success (VDict []).

Definition _handle_telemetry (fields : list value) : H unit :=
  _send_success (VDict []).

(** The [handlers] dict of [_dispatch_message] and its [get(tag)]. *)
Definition handlers (tag : Z) : option (list value -> H unit) :=
  if tag =? MSG_HELLO then Some _handle_hello
  else if tag =? MSG_LOGON then Some _handle_hello
  else if tag =? MSG_GOODBYE then Some _handle_goodbye
  else if tag =? MSG_RESET then Some _handle_reset
  else if tag =? MSG_RUN then Some _handle_run
  else if tag =? MSG_PULL then Some _handle_pull
  else if tag =? MSG_DISCARD then Some _handle_discard
  else if tag =? MSG_BEGIN then Some _handle_begin
  else if tag =? MSG_COMMIT then Some _handle_commit
  else if tag =? MSG_ROLLBACK then Some _handle_rollback
  else if tag =? MSG_ROUTE then Some _handle_route
  else if tag =? MSG_LOGOFF then Some _handle_logoff
  else if tag =? MSG_TELEMETRY then Some _handle_telemetry
  else None.

(** [_dispatch_message(Structure(tag, fields))] *)
Definition _dispatch_message (tag : Z) (fields : list value) : H unit :=
  match handlers tag with
  | Some handler => handler fields
  | None =>
      _send_failure "Neo.ClientError.Request.Invalid"
        (String.append "Unknown message type: " (unknown_tag_text tag))
  end.

(** The [for message in messages: await self._dispatch_message(message)]
    loop of [handle], on the tags and fields of the messages. *)
Fixpoint _dispatch_messages (messages : list (Z * list value)) : H unit :=
  match messages with
  | [] => ret tt
  | (tag, fields) :: messages =>
      let! _ := _dispatch_message tag fields in
      _dispatch_messages messages
  end.

End WithGraph.

Arguments store {G} t.
Arguments _reader {G} t.
Arguments _writer {G} t.
Arguments _graph {G} t.
Arguments _server_name {G} t.
Arguments connection_id {G} t.
Arguments _state {G} t.
Arguments _session {G} t.
Arguments _converter {G} t.
Arguments _chunk_reader {G} t.
Arguments _chunk_writer {G} t.
Arguments _negotiated_version {G} t.
Arguments _client_info {G} t.
Arguments mk {G}.
Arguments __init__ {G}.
Arguments set_store {G}.
Arguments set_reader {G}.
Arguments set_writer {G}.
Arguments set_state {G}.
Arguments set_session {G}.
Arguments set_converter {G}.
Arguments set_negotiated_version {G}.
Arguments set_client_info {G}.
Arguments ret {G A}.
Arguments raise {G A}.
Arguments hbind {G A B}.
Arguments lift {G A}.
Arguments get {G}.
Arguments modify {G}.
Arguments try_except {G A}.
Arguments transition_to {G}.
Arguments _send_message {G}.
Arguments _send_success {G}.
Arguments _send_failure {G}.
Arguments _send_record {G}.
Arguments _send_ignored {G}.
Arguments readexactly {G}.
Arguments writer_write {G}.
Arguments _handshake {G}.
Arguments count_arg {G}.
Arguments state_is {G}.
Arguments major_at_least {G}.
Arguments _handle_hello {G}.
Arguments _handle_goodbye {G}.
Arguments _handle_reset {G}.
Arguments _run_query {G}.
Arguments _handle_run {G}.
Arguments _send_records {G}.
Arguments _finish_streaming {G}.
Arguments _handle_pull {G}.
Arguments _handle_discard {G}.
Arguments _handle_begin {G}.
Arguments _handle_commit {G}.
Arguments _handle_rollback {G}.
Arguments _handle_route {G}.
Arguments _handle_logoff {G}.
Arguments _handle_telemetry {G}.
Arguments handlers {G}.
Arguments _dispatch_message {G}.
Arguments _dispatch_messages {G}.

End BoltConnection.

(** ** Version negotiation, as the specification words it

    "For each proposal (in order), for each supported version
    [(sup_major, sup_minor)] in the server's preference list, if
    [sup_major == major] and ([range == 0] and [sup_minor == minor]) or
    ([range > 0] and [minor - range <= sup_minor <= minor]), select
    [(sup_major, sup_minor)]."  A proposal is the four bytes
    [(0x00, range, minor, major)].  These definitions follow the
    specification; they are compared with [BoltConnection._handshake]
    below. *)
Module HandshakeSpec.

Record proposal : Type := mk_proposal {
  p_range : Z;
  p_minor : Z;
  p_major : Z
}.

(** The four slots of a 16-byte proposal block. *)
Fixpoint proposals (block : bytes) : list proposal :=
  match block with
  | _ :: r :: mi :: ma :: block' =>
      mk_proposal (Z_of_byte r) (Z_of_byte mi) (Z_of_byte ma) :: proposals block'
  | _ => []
  end.

Definition compatible (p : proposal) (sup : Z * Z) : bool :=
  let (sup_major, sup_minor) := sup in
  (sup_major =? p_major p)
  && (((p_range p =? 0) && (sup_minor =? p_minor p))
      || ((0 <? p_range p)
          && (p_minor p - p_range p <=? sup_minor)
          && (sup_minor <=? p_minor p))).

(** The first compatible pair, proposals outermost. *)
Definition select (block : bytes) : option (Z * Z) :=
  option_map snd
    (find (fun ps => compatible (fst ps) (snd ps))
          (list_prod (proposals block) SUPPORTED_VERSIONS)).

(** The reply: [0x00 0x00 minor major], or four zero bytes. *)
Definition reply (selected : option (Z * Z)) : bytes :=
  match selected with
  | Some (major, minor) => [x00; x00; byte_of_Z minor; byte_of_Z major]
  | None => [x00; x00; x00; x00]
  end.

End HandshakeSpec.

(** ** Uses of one converter object *)

(** The two identifier tables of a converter. *)
Inductive id_table : Type := NodeIds | EdgeIds.

Definition get_id (tb : id_table) : value -> ResultConverter.M Z :=
  match tb with
  | NodeIds => ResultConverter._get_node_id
  | EdgeIds => ResultConverter._get_edge_id
  end.




Section Calls.

Variable py_str : value -> string.



End Calls.

(** ** A session with a commit *)

Module CommitScenario.

(** A stand-in for the query engine: it returns its parameters as the
    result table and leaves the graph alone. *)
Definition echo_run (query params : value) (g : unit) : result value * unit :=
  (Ok params, g).

Definition text_of (v : value) : string :=
  match v with
  | VStr s => s
  | _ => "?"
  end.


(** A client that proposes Bolt 4.4. *)
Definition start : BoltConnection.t unit :=
  BoltConnection.__init__ (BoltSession.mk_store unit (fun _ => tt) 1%nat)
    (BOLT_MAGIC ++ [x00; x00; x04; x04; x00; x00; x00; x00;
                    x00; x00; x00; x00; x00; x00; x00; x00])
    0%nat "nxcypher/1.0.0" "bolt-1".

Definition dispatch (messages : list (Z * list value))
  : BoltConnection.H unit unit :=
  BoltConnection._dispatch_messages (fun g => g) (fun g _ => g) echo_run
    text_of (fun _ => "error"%string) (fun _ => "0x??"%string) messages.





End CommitScenario.

(** ** Positions in a path *)

(** Where the loop of [_convert_path] writes: the number of entries it
    appends to [indices], and the number of relationships it counts, for
    the elements [elements] that stand at the positions [i], [i + 1],
    ... of the path. *)
Definition is_dict (element : value) : bool :=
  match element with
  | VDict _ => true
  | _ => false
  end.

Definition is_node_dict (element : value) : bool :=
  match ResultConverter.node_key_of element with
  | Some _ => true
  | None => false
  end.

Fixpoint entries_for (i : nat) (elements : list value) : nat :=
  match elements with
  | [] => 0
  | element :: elements =>
      ((if Nat.even i then
          if is_node_dict element then 1 else 0
        else
          if is_dict element then 1 else 0)
       + entries_for (S i) elements)%nat
  end.



(** ** Induction over nested values *)

Section ValueInduction.

Variable P : value -> Prop.
Hypothesis HNone : P VNone.
Hypothesis HBool : forall b, P (VBool b).
Hypothesis HInt : forall z, P (VInt z).
Hypothesis HFloat : forall bits, P (VFloat bits).
Hypothesis HStr : forall s, P (VStr s).
Hypothesis HBytes : forall b, P (VBytes b).
Hypothesis HList : forall l, Forall P l -> P (VList l).
Hypothesis HTuple : forall l, Forall P l -> P (VTuple l).
Hypothesis HDict :
  forall kvs, Forall (fun kv => P (fst kv) /\ P (snd kv)) kvs -> P (VDict kvs).
Hypothesis HStruct : forall tag fields, Forall P fields -> P (VStruct tag fields).

Fixpoint value_nested_ind (v : value) : P v :=
  match v with
  | VNone => HNone
  | VBool b => HBool b
  | VInt z => HInt z
  | VFloat bits => HFloat bits
  | VStr s => HStr s
  | VBytes b => HBytes b
  | VList l =>
      HList l
        ((fix each (l : list value) : Forall P l :=
            match l with
            | [] => Forall_nil P
            | x :: l' => Forall_cons x (value_nested_ind x) (each l')
            end) l)
  | VTuple l =>
      HTuple l
        ((fix each (l : list value) : Forall P l :=
            match l with
            | [] => Forall_nil P
            | x :: l' => Forall_cons x (value_nested_ind x) (each l')
            end) l)
  | VDict kvs =>
      HDict kvs
        ((fix each (kvs : list (value * value))
            : Forall (fun kv => P (fst kv) /\ P (snd kv)) kvs :=
            match kvs with
            | [] => Forall_nil _
            | (k, x) :: kvs' =>
                Forall_cons (k, x)
                  (conj (value_nested_ind k) (value_nested_ind x))
                  (each kvs')
            end) kvs)
  | VStruct tag fields =>
      HStruct tag fields
        ((fix each (l : list value) : Forall P l :=
            match l with
            | [] => Forall_nil P
            | x :: l' => Forall_cons x (value_nested_ind x) (each l')
            end) fields)
  end.

End ValueInduction.

Section HkeyInduction.

Variable P : hkey -> Prop.
Hypothesis HNone : P KNone.
Hypothesis HNum : forall z, P (KNum z).
Hypothesis HFloat : forall bits, P (KFloat bits).
Hypothesis HStr : forall s, P (KStr s).
Hypothesis HBytes : forall b, P (KBytes b).
Hypothesis HTuple : forall l, Forall P l -> P (KTuple l).

Fixpoint hkey_nested_ind (k : hkey) : P k :=
  match k with
  | KNone => HNone
  | KNum z => HNum z
  | KFloat bits => HFloat bits
  | KStr s => HStr s
  | KBytes b => HBytes b
  | KTuple l =>
      HTuple l
        ((fix each (l : list hkey) : Forall P l :=
            match l with
            | [] => Forall_nil P
            | x :: l' => Forall_cons x (hkey_nested_ind x) (each l')
            end) l)
  end.

End HkeyInduction.

(** ** More of [packstream.py]: [decode_all] *)

(** The [while self._pos < len(self._data)] loop of [decode_all]; every
    round reads at least one byte, so a budget of one round for each byte
    is never used up. *)
Fixpoint _decode_all_loop (fuel : nat) (data : bytes)
  : option (result (list value)) :=
  if 0 <? len data then
    match fuel with
    | O => None
    | S fuel =>
        PackStreamDecoder.fbind
          (PackStreamDecoder._decode_value (PackStreamDecoder.budget data) data)
          (fun '(v, data) =>
             PackStreamDecoder.fbind (_decode_all_loop fuel data)
               (fun values => PackStreamDecoder.ret (v :: values)))
    end
  else PackStreamDecoder.ret [].

(** [PackStreamDecoder(data).decode_all()] *)
Definition decode_all (data : bytes) : option (result (list value)) :=
  _decode_all_loop (List.length data) data.

(** [b''.join(encode(v) for v in values)] *)
Fixpoint encode_all (py_str : value -> string) (values : list value)
  : result bytes :=
  match values with
  | [] => Ok []
  | v :: values =>
      do a <- encode py_str v;
      do b <- encode_all py_str values;
      Ok (a ++ b)
  end.


(** ** Streams of framed messages *)

(** The bytes a connection puts on the socket for a list of messages:
    what the successive calls of [write] return, joined. *)
Fixpoint write_all (self : ChunkWriter.t) (messages : list bytes)
  : option (result bytes) :=
  match messages with
  | [] => Some (Ok [])
  | message :: messages =>
      match ChunkWriter.write self message with
      | None => None
      | Some (Raise e) => Some (Raise e)
      | Some (Ok framed) =>
          match write_all self messages with
          | None => None
          | Some (Raise e) => Some (Raise e)
          | Some (Ok rest) => Some (Ok (framed ++ rest))
          end
      end
  end.

Definition not_empty (message : bytes) : bool :=
  match message with
  | [] => false
  | _ :: _ => true
  end.

(** ** Sequences of calls *)

(** A call of a method of the state machine that can change the state. *)
Inductive state_call : Type :=
| CallTransitionTo (new_state : ConnectionState)
| CallReset
| CallMarkDefunct.

(** The state after a call; a [transition_to] that raises leaves it. *)
Definition after_state_call (self : StateMachine.t) (c : state_call)
  : StateMachine.t :=
  match c with
  | CallTransitionTo new_state => snd (StateMachine.transition_to self new_state)
  | CallReset => StateMachine.reset self
  | CallMarkDefunct => StateMachine.mark_defunct self
  end.

Definition after_state_calls (calls : list state_call) (self : StateMachine.t)
  : StateMachine.t :=
  fold_left after_state_call calls self.

(** Successive calls of [pull] with the counts [ns]: what each call
    returned, and the result object after the last. *)
Fixpoint pull_batches (self : QueryResult.t) (ns : list Z)
  : list (list (list value)) * QueryResult.t :=
  match ns with
  | [] => ([], self)
  | n :: ns =>
      let (batch, self) := QueryResult.pull self n in
      let (batches, self) := pull_batches self ns in
      (batch :: batches, self)
  end.

(** [begin_transaction], the mutations of the working graph in order,
    [commit_transaction]; an exception ends the sequence. *)
Definition transaction_then_commit {G : Type} (graph_clear : G -> G)
    (graph_update : G -> G -> G) (h : BoltSession.store G)
    (self : BoltSession.t) (mutations : list (G -> G))
  : BoltSession.store G * BoltSession.t * result unit :=
  match BoltSession.begin_transaction h self with
  | Raise e => (h, self, Raise e)
  | Ok (h, self) =>
      let h :=
        fold_left (fun h f => BoltSession.mutate_working_graph h self f)
          mutations h in
      match BoltSession.commit_transaction graph_clear graph_update h self with
      | Raise e => (h, self, Raise e)
      | Ok (h, self) => (h, self, Ok tt)
      end
  end.

(** ** The identifiers in converted values

    What it means for the output of a conversion to carry the
    identifiers of a converter [self]: every identifier in a Node, a
    Relationship or a Path is the one the tables of [self] hold for the
    key it was made for.  The definitions follow the case analysis of
    [_convert_value]. *)

Section Agreement.

Variable py_str : value -> string.
Variable self : ResultConverter.t.












End Agreement.


(** * Properties *)

(** ** Bytes and big-endian packing *)

Lemma Z_of_byte_range (b : byte) : 0 <= Z_of_byte b < 256.
Proof.
  unfold Z_of_byte. pose proof (Byte.to_N_bounded b) as H.
  lia.
Qed.

Lemma byte_of_Z_of_byte (b : byte) : byte_of_Z (Z_of_byte b) = b.
Proof.
  unfold byte_of_Z. rewrite Z.mod_small by apply Z_of_byte_range.
  unfold Z_of_byte. rewrite N2Z.id, Byte.of_to_N. reflexivity.
Qed.

Lemma Z_of_byte_of_Z (z : Z) : Z_of_byte (byte_of_Z z) = z mod 256.
Proof.
  unfold byte_of_Z, Z_of_byte.
  pose proof (Z.mod_pos_bound z 256 ltac:(lia)) as Hb.
  destruct (Byte.of_N (Z.to_N (z mod 256))) as [b|] eqn:E.
  - apply Byte.to_of_N in E. rewrite E. apply Z2N.id. lia.
  - exfalso. pose proof (Byte.to_of_N_option_map (Z.to_N (z mod 256))) as H.
    rewrite E in H. simpl in H.
    destruct (N.leb_spec (Z.to_N (z mod 256)) 255); [discriminate|lia].
Qed.

Lemma Z_of_byte_of_Z_small (z : Z) : 0 <= z < 256 -> Z_of_byte (byte_of_Z z) = z.
Proof. intros H. rewrite Z_of_byte_of_Z. apply Z.mod_small; assumption. Qed.

Lemma byte_of_Z_mod (z : Z) : byte_of_Z (z mod 256) = byte_of_Z z.
Proof. unfold byte_of_Z. rewrite Z.mod_mod by lia. reflexivity. Qed.

Lemma byte_of_Z_shift (z : Z) : byte_of_Z (z + 256) = byte_of_Z z.
Proof.
  unfold byte_of_Z. replace (z + 256) with (z + 1 * 256) by lia.
  rewrite Z_mod_plus_full. reflexivity.
Qed.

Lemma len_app {A : Type} (a b : list A) : len (a ++ b) = len a + len b.
Proof. unfold len. rewrite length_app. lia. Qed.

Lemma len_nonneg {A : Type} (l : list A) : 0 <= len l.
Proof. unfold len. lia. Qed.

Lemma be_bytes_length (n : nat) (z : Z) : List.length (struct.be_bytes n z) = n.
Proof. induction n; simpl; congruence. Qed.

Lemma be_to_Z_app (a b : bytes) :
  struct.be_to_Z (a ++ b)
  = struct.be_to_Z a * 256 ^ Z.of_nat (List.length b) + struct.be_to_Z b.
Proof.
  unfold struct.be_to_Z. rewrite fold_left_app.
  generalize (fold_left (fun acc x => acc * 256 + Z_of_byte x) a 0) as s.
  induction b as [|x b IH]; intros s.
  - simpl. lia.
  - cbn [fold_left List.length]. rewrite IH, (IH (0 * 256 + Z_of_byte x)).
    rewrite Nat2Z.inj_succ, Z.pow_succ_r by lia. lia.
Qed.

Lemma be_to_Z_range (bs : bytes) :
  0 <= struct.be_to_Z bs < 256 ^ Z.of_nat (List.length bs).
Proof.
  induction bs as [|x bs IH] using rev_ind.
  - cbv. split; [discriminate|reflexivity].
  - rewrite be_to_Z_app, length_app. cbn [List.length].
    replace (Z.of_nat (List.length bs + 1)) with (Z.succ (Z.of_nat (List.length bs))) by lia.
    rewrite Z.pow_succ_r by lia.
    assert (struct.be_to_Z [x] = Z_of_byte x) as -> by (cbv [struct.be_to_Z fold_left]; lia).
    pose proof (Z_of_byte_range x). simpl Z.of_nat. lia.
Qed.

Lemma be_roundtrip (n : nat) (z : Z) :
  struct.be_to_Z (struct.be_bytes n z) = z mod 256 ^ Z.of_nat n.
Proof.
  induction n as [|n IH].
  - simpl. rewrite Z.mod_1_r. reflexivity.
  - cbn [struct.be_bytes].
    change (?x :: ?l) with ([x] ++ l).
    rewrite be_to_Z_app, IH, be_bytes_length.
    assert (struct.be_to_Z [byte_of_Z (z / 256 ^ Z.of_nat n)]
            = (z / 256 ^ Z.of_nat n) mod 256) as ->.
    { cbv [struct.be_to_Z fold_left]. rewrite Z_of_byte_of_Z. lia. }
    rewrite Nat2Z.inj_succ, Z.pow_succ_r by lia.
    assert (0 < 256 ^ Z.of_nat n) as Hp by (apply Z.pow_pos_nonneg; lia).
    rewrite (Z.mul_comm 256), Z.rem_mul_r by lia. lia.
Qed.

Lemma be_roundtrip_small (n : nat) (z : Z) :
  0 <= z < 256 ^ Z.of_nat n -> struct.be_to_Z (struct.be_bytes n z) = z.
Proof. intros H. rewrite be_roundtrip. apply Z.mod_small; assumption. Qed.

Lemma unpack_signed_pack (n : nat) (z : Z) :
  (0 < n)%nat ->
  - (256 ^ Z.of_nat n / 2) <= z < 256 ^ Z.of_nat n / 2 ->
  struct.unpack_signed (struct.be_bytes n (z mod 256 ^ Z.of_nat n)) = z.
Proof.
  intros Hn Hz. unfold struct.unpack_signed.
  rewrite be_bytes_length, be_roundtrip, Z.mod_mod
    by (apply Z.pow_nonzero; lia).
  assert (0 < 256 ^ Z.of_nat n) as Hp by (apply Z.pow_pos_nonneg; lia).
  assert (256 ^ Z.of_nat n = 2 * (256 ^ Z.of_nat n / 2)) as He.
  { destruct n; [lia|]. rewrite Nat2Z.inj_succ, Z.pow_succ_r by lia.
    replace (256 * 256 ^ Z.of_nat n) with ((128 * 256 ^ Z.of_nat n) * 2) by lia.
    rewrite Z.div_mul by lia. lia. }
  set (m := 256 ^ Z.of_nat n) in *. set (h := m / 2) in *.
  destruct (Z.ltb_spec (z mod m) h) as [Hlt|Hge].
  - destruct (Z.lt_ge_cases z 0) as [Hneg|Hpos].
    + exfalso. assert (z mod m = z + m) as E.
      { symmetry. apply (Z.mod_unique z m (-1)); lia. }
      lia.
    + apply Z.mod_small; lia.
  - destruct (Z.lt_ge_cases z 0) as [Hneg|Hpos].
    + assert (z mod m = z + m) as E.
      { symmetry. apply (Z.mod_unique z m (-1)); lia. }
      lia.
    + exfalso. rewrite Z.mod_small in Hge; lia.
Qed.

(** ** PackStream integers *)

Lemma land_255 (z : Z) : Z.land z 0xFF = z mod 256.
Proof. change 0xFF with (Z.ones 8). rewrite Z.land_ones by lia. reflexivity. Qed.

Ltac split_ranges :=
  repeat (match goal with
          | |- context [?a <=? ?b] => destruct (Z.leb_spec a b)
          | |- context [?a <? ?b] => destruct (Z.ltb_spec a b)
          end; try lia; cbn [andb negb orb bind]).

(** C7. For every 64-bit integer the encoder succeeds and emits the form
    of the narrowest lane: one tiny-positive byte in [0,127], one
    tiny-negative byte in [-16,-1], and otherwise the Int8, Int16, Int32
    or Int64 marker followed by the big-endian two's complement of the
    smallest signed width that holds the value. *)
Theorem encode_int_narrowest_lane (z : Z) :
  - 2 ^ 63 <= z < 2 ^ 63 ->
  PackStreamEncoder._encode_int z = Ok (lane_form (narrowest_lane z) z).
Proof.
  intros Hz.
  unfold PackStreamEncoder._encode_int, narrowest_lane, fits_signed,
    bytearray_append, struct.pack_signed, lane_form, twos_complement,
    INT_8, INT_16, INT_32, INT_64.
  cbn [Z.of_nat Pos.of_succ_nat Pos.succ Z.mul Pos.mul Z.sub Z.add Z.opp
       Z.pos_sub Pos.pred_double Z.pow Z.pow_pos Pos.iter Z.div] in *.
  rewrite land_255.
  pose proof (Z.mod_pos_bound z 256 ltac:(lia)) as Hm.
  change (2 ^ 63) with 9223372036854775808 in Hz.
  change (- 2 ^ 7) with (-128). change (2 ^ 7 - 1) with 127.
  change (- 2 ^ 15) with (-32768). change (2 ^ 15 - 1) with 32767.
  change (- 2 ^ 31) with (-2147483648). change (2 ^ 31 - 1) with 2147483647.
  change (256 ^ 1) with 256. change (256 ^ 2) with 65536.
  change (256 ^ 4) with 4294967296. change (256 ^ 8) with 18446744073709551616.
  change (2 ^ 8) with 256. change (2 ^ 16) with 65536.
  change (2 ^ 32) with 4294967296. change (2 ^ 64) with 18446744073709551616.
  change (256 / 2) with 128. change (65536 / 2) with 32768.
  change (4294967296 / 2) with 2147483648.
  change (18446744073709551616 / 2) with 9223372036854775808.
  change (256 / 2) with 128. change (65536 / 2) with 32768.
  change (4294967296 / 2) with 2147483648.
  change (18446744073709551616 / 2) with 9223372036854775808.
  change (0 <=? 200) with true. change (0 <=? 201) with true.
  change (0 <=? 202) with true. change (0 <=? 203) with true.
  change (200 <? 256) with true. change (201 <? 256) with true.
  change (202 <? 256) with true. change (203 <? 256) with true.
  cbn [andb bind app].
  destruct (Z.leb_spec (-16) z), (Z.ltb_spec z 128); cbn [andb].
  - destruct (Z.leb_spec 0 (z mod 256)), (Z.ltb_spec (z mod 256) 256);
      try lia; cbn [andb].
    destruct (Z.leb_spec 0 z), (Z.leb_spec z 127); cbn [andb]; try lia.
    + rewrite byte_of_Z_mod. reflexivity.
    + destruct (Z.leb_spec z (-1)); try lia. cbn [andb].
      rewrite byte_of_Z_mod, byte_of_Z_shift. reflexivity.
  - split_ranges; reflexivity.
  - split_ranges; reflexivity.
  - split_ranges; reflexivity.
Qed.

(** The hypothesis of [encode_int_narrowest_lane] at the lane boundary
    [-17], the first value below the tiny-negative range. *)
Lemma encode_int_narrowest_lane_witness :
  - 2 ^ 63 <= -17 < 2 ^ 63 /\
  PackStreamEncoder._encode_int (-17) = Ok (lane_form (narrowest_lane (-17)) (-17)).
Proof.
  split; [lia | apply (encode_int_narrowest_lane (-17)); lia].
Defined.

(** ** State machine *)

Lemma ConnectionState_eqb_eq (a b : ConnectionState) :
  ConnectionState_eqb a b = true <-> a = b.
Proof. destruct a, b; simpl; split; intros H; congruence. Qed.

Lemma can_transition_to_In (s t : ConnectionState) :
  StateMachine.can_transition_to s t = true <-> In t (VALID_TRANSITIONS s).
Proof.
  unfold StateMachine.can_transition_to. rewrite existsb_exists. split.
  - intros [x [Hin Heq]]. apply ConnectionState_eqb_eq in Heq. subst. exact Hin.
  - intros Hin. exists t. split; [exact Hin|]. apply ConnectionState_eqb_eq. reflexivity.
Qed.

(** C3. For every pair of states (s, t): when the edge s -> t is in the
    valid-transition table, [transition_to] succeeds and the state becomes
    t; for every other pair it raises the invalid-transition error and the
    state stays s.  DEFUNCT has no outgoing edge, so from DEFUNCT every
    [transition_to] fails. *)
Theorem transition_to_iff_valid (s t : ConnectionState) :
  (In t (VALID_TRANSITIONS s) <-> StateMachine.transition_to s t = (Ok tt, t))
  /\ (~ In t (VALID_TRANSITIONS s)
      <-> StateMachine.transition_to s t = (Raise ValueError, s))
  /\ StateMachine.transition_to DEFUNCT t = (Raise ValueError, DEFUNCT).
Proof.
  unfold StateMachine.transition_to.
  pose proof (can_transition_to_In s t) as H.
  destruct (StateMachine.can_transition_to s t) eqn:E; cbn [negb].
  - assert (In t (VALID_TRANSITIONS s)) as Hin by (apply H; reflexivity).
    repeat split; try reflexivity; intros; try tauto; discriminate.
  - assert (~ In t (VALID_TRANSITIONS s)) as Hn.
    { intros Hin. apply H in Hin. discriminate. }
    repeat split; try reflexivity; intros; try tauto; try discriminate.
Qed.

(** ** Map keys on decode *)

(** C10. There is an input on which [decode] succeeds and returns a map
    with a key that is not a string: the map branches decode each key as
    an arbitrary value.  The bytes A1 01 02 decode to the map {1: 2}. *)
Theorem decode_map_with_non_string_key :
  decode [xa1; x01; x02] = Some (Ok (VDict [(VInt 1, VInt 2)]))
  /\ exists data kvs k v,
       decode data = Some (Ok (VDict kvs))
       /\ In (k, v) kvs /\ forall s, k <> VStr s.
Proof.
  assert (decode [xa1; x01; x02] = Some (Ok (VDict [(VInt 1, VInt 2)]))) as H
    by (vm_compute; reflexivity).
  split; [exact H|].
  exists [xa1; x01; x02], [(VInt 1, VInt 2)], (VInt 1), (VInt 2).
  split; [exact H|]. split; [left; reflexivity | discriminate].
Qed.

(** ** Chunk framer *)

Module ChunkFacts.

Import ChunkReader.

Lemma loop_body_mono (f g : t -> option (option bytes * t)) :
  (forall s r, f s = Some r -> g s = Some r) ->
  forall s r, _loop_body f s = Some r -> _loop_body g s = Some r.
Proof.
  intros Hfg s r. unfold _loop_body.
  destruct (_read_header s) as [[n s1]|]; [|auto].
  destruct (n =? 0).
  - cbn [_message_buffer _buffer]. destruct (_message_buffer s1); auto.
  - destruct (len (_buffer s1) <? n); auto.
Qed.

Lemma loop_mono (fuel : nat) :
  forall s r, _try_read_message_loop fuel s = Some r ->
  forall fuel', (fuel <= fuel')%nat -> _try_read_message_loop fuel' s = Some r.
Proof.
  induction fuel as [|fuel IH]; intros s r H fuel' Hle; [discriminate|].
  destruct fuel' as [|fuel']; [lia|]. cbn [_try_read_message_loop] in *.
  revert H. apply loop_body_mono. intros s0 r0 H0.
  apply (IH s0 r0 H0). lia.
Qed.

(** The iterations left in a state: a pending header costs one more. *)
Definition weight (s : t) : nat :=
  List.length (_buffer s)
  + match _expected_chunk_size s with Some _ => 2 | None => 1 end.

Lemma loop_total (fuel : nat) :
  forall s, (weight s <= fuel)%nat ->
  exists r, _try_read_message_loop fuel s = Some r.
Proof.
  induction fuel as [|fuel IH]; intros s Hw.
  - unfold weight in Hw. destruct (_expected_chunk_size s); lia.
  - cbn [_try_read_message_loop]. unfold _loop_body, _read_header.
    destruct s as [buf acc exp]. unfold weight in Hw.
    cbn [_buffer _message_buffer _expected_chunk_size] in *.
    assert (forall s', (weight s' <= fuel)%nat ->
              exists r, _try_read_message_loop fuel s' = Some r) as IH' by exact IH.
    destruct exp as [n|].
    + cbn [_buffer _message_buffer _expected_chunk_size].
      destruct (n =? 0).
      * destruct acc; [|eauto]. apply IH'. unfold weight. cbn. lia.
      * destruct (len buf <? n); [eauto|]. apply IH'. unfold weight.
        cbn [_buffer _expected_chunk_size]. rewrite length_skipn. lia.
    + destruct (Z.ltb_spec (len buf) 2) as [Hs|Hs]; [eauto|].
      unfold len in Hs. cbn [_buffer _message_buffer _expected_chunk_size].
      destruct (_ =? 0).
      * destruct acc; [|eauto]. apply IH'. unfold weight.
        cbn [_buffer _expected_chunk_size]. rewrite length_skipn. lia.
      * destruct (_ <? _); [eauto|]. apply IH'. unfold weight.
        cbn [_buffer _expected_chunk_size]. rewrite !length_skipn. lia.
Qed.

Lemma try_read_message_total (s : t) : exists r, _try_read_message s = Some r.
Proof.
  apply loop_total. unfold weight, budget.
  destruct (_expected_chunk_size s); lia.
Qed.

(** [reads s r]: [_try_read_message] on [s] returns [r]. *)
Definition reads (s : t) (r : option bytes * t) : Prop :=
  exists fuel, _try_read_message_loop fuel s = Some r.

Lemma reads_det (s : t) (r1 r2 : option bytes * t) :
  reads s r1 -> reads s r2 -> r1 = r2.
Proof.
  intros [f1 H1] [f2 H2].
  pose proof (loop_mono _ _ _ H1 (Nat.max f1 f2) ltac:(lia)) as E1.
  pose proof (loop_mono _ _ _ H2 (Nat.max f1 f2) ltac:(lia)) as E2.
  congruence.
Qed.

Lemma reads_try (s : t) (r : option bytes * t) :
  reads s r <-> _try_read_message s = Some r.
Proof.
  split.
  - intros Hr. destruct (try_read_message_total s) as [r' Hr'].
    rewrite Hr'. f_equal. eapply reads_det; [|exact Hr]. eexists; exact Hr'.
  - intros H. eexists; exact H.
Qed.

(** One unfolding of the loop. *)
Lemma reads_body (s : t) (r : option bytes * t) :
  reads s r <->
  exists fuel, _loop_body (_try_read_message_loop fuel) s = Some r.
Proof.
  split.
  - intros [[|fuel] H]; [discriminate|]. exists fuel. exact H.
  - intros [fuel H]. exists (S fuel). exact H.
Qed.

(** *** Reading a header *)

Lemma read_header_pending (s s1 : t) (n : Z) :
  _read_header s = Some (n, s1) ->
  _expected_chunk_size s1 = Some n /\ _read_header s1 = Some (n, s1)
  /\ _message_buffer s1 = _message_buffer s
  /\ (List.length (_buffer s1) <= List.length (_buffer s))%nat.
Proof.
  unfold _read_header. destruct s as [buf acc [m|]];
    cbn [_expected_chunk_size _buffer _message_buffer].
  - intros [= <- <-]. cbn. auto.
  - destruct (len buf <? 2); [discriminate|].
    pose proof (length_skipn 2 buf) as Hl.
    remember (skipn 2 buf) as tl. remember (firstn 2 buf) as hd.
    intros [= <- <-].
    cbn [_expected_chunk_size _buffer _message_buffer].
    repeat split; lia.
Qed.

Lemma loop_body_pending (f : t -> option (option bytes * t)) (s s1 : t) (n : Z) :
  _read_header s = Some (n, s1) -> _loop_body f s = _loop_body f s1.
Proof.
  intros H. destruct (read_header_pending _ _ _ H) as (_ & H1 & _).
  unfold _loop_body. rewrite H, H1. reflexivity.
Qed.

Lemma read_header_extend (s s1 : t) (n : Z) (d : bytes) :
  _read_header s = Some (n, s1) ->
  _read_header (extend s d) = Some (n, extend s1 d).
Proof.
  unfold _read_header, extend. destruct s as [buf acc [m|]]; cbn.
  - intros [= <- <-]. reflexivity.
  - destruct (Z.ltb_spec (len buf) 2) as [Hs|Hs]; [discriminate|].
    unfold len in *.
    destruct (Z.ltb_spec (Z.of_nat (List.length (buf ++ d))) 2) as [Hd|Hd].
    + rewrite length_app in Hd. lia.
    + destruct buf as [|a [|b buf]]; cbn in Hs; try lia.
      intros [= <- <-]. reflexivity.
Qed.

(** The loop body on a state whose chunk size [n] is known. *)
Definition pending_body (f : t -> option (option bytes * t)) (n : Z) (s : t)
  : option (option bytes * t) :=
  if n =? 0 then
    match _message_buffer s with
    | _ :: _ => Some (Some (_message_buffer s), mk (_buffer s) [] None)
    | [] => f (mk (_buffer s) [] None)
    end
  else if len (_buffer s) <? n then Some (None, s)
  else f (mk (skipn (Z.to_nat n) (_buffer s))
             (_message_buffer s ++ firstn (Z.to_nat n) (_buffer s)) None).

Lemma loop_body_unfold (f : t -> option (option bytes * t)) (s : t) :
  _loop_body f s =
  match _read_header s with
  | None => Some (None, s)
  | Some (n, s1) => pending_body f n s1
  end.
Proof.
  unfold _loop_body, pending_body. destruct (_read_header s) as [[n s1]|]; [|reflexivity].
  destruct (n =? 0); [|reflexivity]. cbn [_message_buffer _buffer].
  destruct (_message_buffer s1); reflexivity.
Qed.

(** *** More input later *)

Lemma loop_extend_message (fuel : nat) :
  forall s msg s' d,
    _try_read_message_loop fuel s = Some (Some msg, s') ->
    _try_read_message_loop fuel (extend s d) = Some (Some msg, extend s' d).
Proof.
  induction fuel as [|fuel IH]; intros s msg s' d H; [discriminate|].
  cbn [_try_read_message_loop] in *. rewrite loop_body_unfold in *.
  destruct (_read_header s) as [[n s1]|] eqn:Hh; [|discriminate].
  rewrite (read_header_extend _ _ _ d Hh).
  unfold pending_body in *. destruct s1 as [buf acc exp].
  cbn [_buffer _message_buffer extend] in *.
  destruct (n =? 0).
  - destruct acc as [|a acc].
    + apply (IH _ _ _ d) in H. exact H.
    + inversion H; subst. reflexivity.
  - destruct (Z.ltb_spec (len buf) n) as [Hs|Hs]; [discriminate|].
    destruct (Z.ltb_spec (len (buf ++ d)) n) as [Hd|Hd].
    + rewrite len_app in Hd. pose proof (len_nonneg d). lia.
    + apply (IH _ _ _ d) in H. unfold extend in H. cbn in H.
      assert (Z.to_nat n <= List.length buf)%nat as Hn by (unfold len in Hs; lia).
      rewrite skipn_app, firstn_app.
      replace (Z.to_nat n - List.length buf)%nat with O by lia.
      cbn [skipn firstn]. rewrite app_nil_r. exact H.
Qed.

Lemma loop_extend_stuck (fuel : nat) :
  forall s s' d fuel2 r,
    _try_read_message_loop fuel s = Some (None, s') ->
    _try_read_message_loop fuel2 (extend s' d) = Some r ->
    _try_read_message_loop (fuel + fuel2) (extend s d) = Some r.
Proof.
  induction fuel as [|fuel IH]; intros s s' d fuel2 r H H2; [discriminate|].
  cbn [_try_read_message_loop Nat.add] in *. rewrite loop_body_unfold in H.
  destruct (_read_header s) as [[n s1]|] eqn:Hh.
  - rewrite (loop_body_pending _ _ _ _ (read_header_extend _ _ _ d Hh)).
    destruct (read_header_pending _ _ _ Hh) as (Hexp & Hh1 & _).
    unfold pending_body in H. destruct s1 as [buf acc exp].
    cbn [_buffer _message_buffer _expected_chunk_size] in *. subst exp.
    destruct (Z.eqb_spec n 0) as [Hn|Hn].
    + destruct acc as [|a acc]; [|discriminate].
      rewrite loop_body_unfold. unfold _read_header, extend, pending_body.
      cbn. subst n. cbn.
      apply (IH _ _ d fuel2 r H H2).
    + destruct (Z.ltb_spec (len buf) n) as [Hs|Hs].
      * inversion H; subst s'.
        change (_try_read_message_loop (S (fuel + fuel2))
                  (extend (mk buf acc (Some n)) d) = Some r).
        eapply loop_mono; [exact H2|lia].
      * rewrite loop_body_unfold. unfold _read_header, extend, pending_body.
        cbn [_buffer _message_buffer _expected_chunk_size].
        destruct (Z.eqb_spec n 0) as [|_]; [contradiction|].
        destruct (Z.ltb_spec (len (buf ++ d)) n) as [Hd|Hd].
        { rewrite len_app in Hd. pose proof (len_nonneg d). lia. }
        pose proof (IH _ _ d fuel2 r H H2) as H3. unfold extend in H3. cbn in H3.
        assert (Z.to_nat n <= List.length buf)%nat as Hle by (unfold len in Hs; lia).
        rewrite skipn_app, firstn_app.
        replace (Z.to_nat n - List.length buf)%nat with O by lia.
        cbn [skipn firstn]. rewrite app_nil_r. exact H3.
  - inversion H; subst s'.
    change (_try_read_message_loop (S (fuel + fuel2)) (extend s d) = Some r).
    eapply loop_mono; [exact H2|lia].
Qed.

Lemma reads_extend_message (s s' : t) (msg d : bytes) :
  reads s (Some msg, s') -> reads (extend s d) (Some msg, extend s' d).
Proof. intros [f H]. exists f. apply loop_extend_message. exact H. Qed.

Lemma reads_extend_stuck (s s' : t) (d : bytes) (r : option bytes * t) :
  reads s (None, s') -> reads (extend s' d) r -> reads (extend s d) r.
Proof.
  intros [f H] [f2 H2]. exists (f + f2)%nat.
  eapply loop_extend_stuck; eassumption.
Qed.

(** *** The loop of [feed] *)

Inductive drain : t -> list bytes -> t -> Prop :=
| drain_stop (s s' : t) :
    reads s (None, s') -> drain s [] s'
| drain_message (s s1 s' : t) (m : bytes) (ms : list bytes) :
    reads s (Some m, s1) -> drain s1 ms s' -> drain s (m :: ms) s'.

Lemma drain_det (s : t) (ms1 : list bytes) (s1 : t) :
  drain s ms1 s1 -> forall ms2 s2, drain s ms2 s2 -> ms1 = ms2 /\ s1 = s2.
Proof.
  induction 1 as [s s' Hr|s sa s' m ms Hr Hd IH]; intros ms2 s2 H2.
  - inversion H2 as [? ? Hr2|? ? ? ? ? Hr2]; subst.
    + pose proof (reads_det _ _ _ Hr Hr2) as E. inversion E. auto.
    + pose proof (reads_det _ _ _ Hr Hr2) as E. discriminate.
  - inversion H2 as [? ? Hr2|? sb ? ? ? Hr2 Hd2]; subst.
    + pose proof (reads_det _ _ _ Hr Hr2) as E. discriminate.
    + pose proof (reads_det _ _ _ Hr Hr2) as E. inversion E; subst.
      destruct (IH _ _ Hd2) as [-> ->]. auto.
Qed.

Lemma drain_extend (s : t) (ms : list bytes) (s' : t) :
  drain s ms s' ->
  forall d ms2 s'', drain (extend s' d) ms2 s'' ->
                    drain (extend s d) (ms ++ ms2) s''.
Proof.
  induction 1 as [s s' Hr|s sa s' m ms Hr Hd IH]; intros d ms2 s'' H2.
  - cbn [app]. inversion H2 as [? ? Hr2|? sb ? ? ? Hr2 Hd2]; subst.
    + apply drain_stop. eapply reads_extend_stuck; eassumption.
    + eapply drain_message; [|exact Hd2].
      eapply reads_extend_stuck; eassumption.
  - cbn [app]. eapply drain_message.
    + apply reads_extend_message. exact Hr.
    + apply IH. exact H2.
Qed.

(** A state in which [_try_read_message] returned [None] returns [None]
    again as long as nothing is fed. *)
Lemma reads_stuck_again (fuel : nat) :
  forall s s', _try_read_message_loop fuel s = Some (None, s') ->
               reads s' (None, s').
Proof.
  induction fuel as [|fuel IH]; intros s s' H; [discriminate|].
  cbn [_try_read_message_loop] in H. rewrite loop_body_unfold in H.
  destruct (_read_header s) as [[n s1]|] eqn:Hh.
  - destruct (read_header_pending _ _ _ Hh) as (Hexp & Hh1 & _).
    unfold pending_body in H.
    destruct (n =? 0) eqn:En.
    + destruct (_message_buffer s1); [|discriminate]. eapply IH; exact H.
    + destruct (len (_buffer s1) <? n) eqn:El.
      * inversion H; subst s'. exists 1%nat. cbn [_try_read_message_loop].
        rewrite loop_body_unfold, Hh1. unfold pending_body.
        rewrite En, El. reflexivity.
      * eapply IH; exact H.
  - inversion H; subst s'. exists 1%nat. cbn [_try_read_message_loop].
    rewrite loop_body_unfold, Hh. reflexivity.
Qed.

Lemma drain_ends_stuck (s : t) (ms : list bytes) (s' : t) :
  drain s ms s' -> reads s' (None, s').
Proof.
  induction 1 as [s s' [f Hr]|]; [|assumption].
  eapply reads_stuck_again; exact Hr.
Qed.

Lemma loop_message_weight (fuel : nat) :
  forall s m s', _try_read_message_loop fuel s = Some (Some m, s') ->
                 (weight s' < weight s)%nat.
Proof.
  induction fuel as [|fuel IH]; intros s m s' H; [discriminate|].
  cbn [_try_read_message_loop] in H. rewrite loop_body_unfold in H.
  destruct (_read_header s) as [[n s1]|] eqn:Hh; [|discriminate].
  destruct (read_header_pending _ _ _ Hh) as (Hexp & _ & _ & Hlen).
  assert (weight s1 <= weight s)%nat as Hw.
  { unfold weight. rewrite Hexp. revert Hh Hlen. unfold _read_header.
    destruct s as [buf acc [k|]]; cbn [_expected_chunk_size _buffer].
    - intros [= <- <-]. cbn. lia.
    - destruct (Z.ltb_spec (len buf) 2) as [Hs|Hs]; [discriminate|].
      pose proof (length_skipn 2 buf) as Hl.
      remember (skipn 2 buf) as tl. remember (firstn 2 buf) as hd.
      intros [= <- <-]. cbn [_buffer]. intros _.
      unfold len in *; lia. }
  unfold pending_body in H.
  destruct s1 as [buf acc exp]. cbn [_buffer _message_buffer _expected_chunk_size] in *.
  subst exp.
  destruct (n =? 0).
  - destruct acc as [|a acc].
    + apply IH in H. unfold weight in *.
      cbn [_buffer _expected_chunk_size] in *. lia.
    + inversion H; subst. unfold weight in *.
      cbn [_buffer _expected_chunk_size] in *. lia.
  - destruct (len buf <? n); [discriminate|].
    apply IH in H. unfold weight in *.
    cbn [_buffer _expected_chunk_size] in *.
    rewrite length_skipn in H. lia.
Qed.

Lemma feed_loop_total (fuel : nat) :
  forall s msgs, (weight s <= fuel)%nat ->
  exists r, _feed_loop fuel s msgs = Some r.
Proof.
  induction fuel as [|fuel IH]; intros s msgs Hw.
  - unfold weight in Hw. destruct (_expected_chunk_size s); lia.
  - cbn [_feed_loop]. destruct (try_read_message_total s) as [[[m|] s1] Hr];
      rewrite Hr; [|eauto].
    apply IH. apply loop_message_weight in Hr. lia.
Qed.

Lemma feed_loop_drain (fuel : nat) :
  forall s msgs out s',
    _feed_loop fuel s msgs = Some (out, s') ->
    exists ms, out = msgs ++ ms /\ drain s ms s'.
Proof.
  induction fuel as [|fuel IH]; intros s msgs out s' H; [discriminate|].
  cbn [_feed_loop] in H.
  destruct (_try_read_message s) as [[[m|] s1]|] eqn:Hr; [| |discriminate].
  - apply IH in H. destruct H as (ms & -> & Hd).
    exists (m :: ms). rewrite <- app_assoc. split; [reflexivity|].
    eapply drain_message; [|exact Hd]. apply reads_try. exact Hr.
  - inversion H; subst. exists []. rewrite app_nil_r. split; [reflexivity|].
    apply drain_stop. apply reads_try. exact Hr.
Qed.

Lemma feed_drain (s : t) (d : bytes) :
  exists ms s', feed s d = Some (ms, s') /\ drain (extend s d) ms s'.
Proof.
  unfold feed.
  destruct (feed_loop_total (budget (extend s d)) (extend s d) []) as [[ms s'] H].
  { unfold weight, budget. destruct (_expected_chunk_size _); lia. }
  exists ms, s'. split; [exact H|].
  apply feed_loop_drain in H. destruct H as (ms' & -> & Hd). exact Hd.
Qed.

Lemma extend_nil (s : t) : extend s [] = s.
Proof. destruct s. unfold extend. cbn. rewrite app_nil_r. reflexivity. Qed.

Lemma extend_extend (s : t) (a b : bytes) :
  extend (extend s a) b = extend s (a ++ b).
Proof. destruct s. unfold extend. cbn. rewrite app_assoc. reflexivity. Qed.

Lemma feed_all_drain (parts : list bytes) :
  forall s, reads s (None, s) ->
  exists outs s',
    feed_all s parts = Some (outs, s')
    /\ drain (extend s (List.concat parts)) (List.concat outs) s'.
Proof.
  induction parts as [|d parts IH]; intros s Hs.
  - exists [], s. split; [reflexivity|]. cbn [List.concat]. rewrite extend_nil.
    apply drain_stop. exact Hs.
  - destruct (feed_drain s d) as (ms & s1 & Hf & Hd).
    destruct (IH s1 (drain_ends_stuck _ _ _ Hd)) as (outs & s' & Hfa & Hda).
    exists (ms :: outs), s'. cbn [feed_all List.concat]. rewrite Hf, Hfa.
    split; [reflexivity|]. rewrite <- extend_extend.
    eapply drain_extend; eassumption.
Qed.

Lemma feed_all_firstn (parts : list bytes) :
  forall s outs s', feed_all s parts = Some (outs, s') ->
  forall k, exists sk, feed_all s (firstn k parts) = Some (firstn k outs, sk).
Proof.
  induction parts as [|d parts IH]; intros s outs s' H k.
  - inversion H; subst. destruct k; exists s'; reflexivity.
  - cbn [feed_all] in H.
    destruct (feed s d) as [[ms s1]|] eqn:Hf; [|discriminate].
    destruct (feed_all s1 parts) as [[outs1 s2]|] eqn:Hfa; [|discriminate].
    inversion H; subst. destruct k as [|k]; [exists s; reflexivity|].
    destruct (IH _ _ _ Hfa k) as [sk Hk]. exists sk.
    cbn [firstn feed_all]. rewrite Hf, Hk. reflexivity.
Qed.

(** *** What the writer produces *)

(** [chunked body data]: [body] is [data] cut into non-empty chunks of
    at most 65535 bytes, each behind its two-byte length. *)
Inductive chunked : bytes -> bytes -> Prop :=
| chunked_nil : chunked [] []
| chunked_cons (payload body rest : bytes) :
    payload <> [] -> len payload <= 65535 -> chunked body rest ->
    chunked (struct.be_bytes 2 (len payload) ++ payload ++ body)
            (payload ++ rest).

Lemma write_loop_chunked (self : Z) (data : bytes) :
  1 <= self <= 65535 ->
  forall fuel offset framed,
    0 <= offset <= len data ->
    len data - offset <= Z.of_nat fuel ->
    exists body,
      ChunkWriter._write_loop fuel self data offset framed
      = Some (Ok (framed ++ body ++ [x00; x00]))
      /\ chunked body (skipn (Z.to_nat offset) data).
Proof.
  intros Hself. induction fuel as [|fuel IH]; intros offset framed Ho Hf.
  - assert (offset = len data) as -> by lia.
    exists []. cbn [ChunkWriter._write_loop]. rewrite Z.ltb_irrefl.
    split; [reflexivity|]. unfold len. rewrite Nat2Z.id, skipn_all.
    constructor.
  - cbn [ChunkWriter._write_loop].
    destruct (Z.ltb_spec offset (len data)) as [Hlt|Hge].
    + set (cs := Z.min (len data - offset) self).
      assert (1 <= cs <= 65535) as Hcs by (unfold cs; lia).
      assert (cs <= len data - offset) as Hcs' by (unfold cs; lia).
      unfold struct.pack_unsigned.
      change (256 ^ Z.of_nat 2) with 65536.
      destruct (Z.leb_spec 0 cs); [|lia]. destruct (Z.ltb_spec cs 65536); [|lia].
      cbn [andb].
      destruct (IH (offset + cs)
                  (framed ++ struct.be_bytes 2 cs ++ slice data offset (offset + cs)))
        as (body & Hw & Hc); [lia|lia|].
      set (payload := slice data offset (offset + cs)) in *.
      assert (List.length payload = Z.to_nat cs) as Hpl.
      { unfold payload, slice. rewrite length_firstn, length_skipn.
        unfold len in *. lia. }
      assert (skipn (Z.to_nat offset) data
              = payload ++ skipn (Z.to_nat (offset + cs)) data) as Hsk.
      { unfold payload, slice. replace (offset + cs - offset) with cs by lia.
        replace (Z.to_nat (offset + cs)) with (Z.to_nat cs + Z.to_nat offset)%nat by lia.
        rewrite <- skipn_skipn. symmetry. apply firstn_skipn. }
      exists (struct.be_bytes 2 cs ++ payload ++ body). split.
      * rewrite Hw. rewrite <- !app_assoc. reflexivity.
      * rewrite Hsk.
        assert (cs = len payload) as Ecs by (unfold len; lia).
        rewrite Ecs at 1.
        constructor; [|lia|exact Hc].
        intros E. rewrite E in Hpl. cbn in Hpl. lia.
    + assert (offset = len data) as -> by lia.
      exists []. split; [reflexivity|]. unfold len. rewrite Nat2Z.id, skipn_all.
      constructor.
Qed.

Lemma write_chunked (max_chunk_size : Z) (data : bytes) :
  1 <= max_chunk_size ->
  exists body,
    ChunkWriter.write (ChunkWriter.__init__ max_chunk_size) data
    = Some (Ok (body ++ [x00; x00]))
    /\ chunked body data.
Proof.
  intros H. unfold ChunkWriter.write, ChunkWriter.__init__, MAX_CHUNK_SIZE.
  destruct (write_loop_chunked (Z.min max_chunk_size 65535) data ltac:(lia)
              (List.length data) 0 []) as (body & Hw & Hc);
    [pose proof (len_nonneg data); lia|unfold len; lia|].
  exists body. split; assumption.
Qed.

(** *** The reader on a chunked stream *)

Lemma unpack_header (k : Z) (rest : bytes) :
  0 <= k <= 65535 ->
  struct.unpack_unsigned (firstn 2 (struct.be_bytes 2 k ++ rest)) = k
  /\ skipn 2 (struct.be_bytes 2 k ++ rest) = rest.
Proof.
  intros Hk. cbn [struct.be_bytes app firstn skipn]. split; [|reflexivity].
  change [byte_of_Z (k / 256 ^ Z.of_nat 1); byte_of_Z (k / 256 ^ Z.of_nat 0)]
    with (struct.be_bytes 2 k).
  apply be_roundtrip_small. change (256 ^ Z.of_nat 2) with 65536. lia.
Qed.

Lemma reads_chunk (payload tail acc : bytes) (r : option bytes * t) :
  payload <> [] -> len payload <= 65535 ->
  reads (mk tail (acc ++ payload) None) r ->
  reads (mk (struct.be_bytes 2 (len payload) ++ payload ++ tail) acc None) r.
Proof.
  intros Hne Hle [fuel H]. exists (S fuel). cbn [_try_read_message_loop].
  rewrite loop_body_unfold. unfold _read_header.
  cbn [_expected_chunk_size _buffer _message_buffer].
  pose proof (len_nonneg payload) as Hp.
  destruct (unpack_header (len payload) (payload ++ tail) ltac:(lia)) as [Hu Hs].
  destruct (Z.ltb_spec (len (struct.be_bytes 2 (len payload) ++ payload ++ tail)) 2)
    as [Hlt|_].
  { rewrite len_app in Hlt. unfold len in Hlt at 1. rewrite be_bytes_length in Hlt.
    pose proof (len_nonneg (payload ++ tail)). lia. }
  rewrite Hu, Hs. unfold pending_body. cbn [_buffer _message_buffer].
  assert (len payload <> 0) as Hnz.
  { unfold len. destruct payload; [contradiction|cbn; lia]. }
  destruct (Z.eqb_spec (len payload) 0); [contradiction|].
  destruct (Z.ltb_spec (len (payload ++ tail)) (len payload)) as [Hlt|_].
  { rewrite len_app in Hlt. pose proof (len_nonneg tail). lia. }
  unfold len at 1 2. rewrite !Nat2Z.id.
  rewrite skipn_app, firstn_app, Nat.sub_diag, skipn_all, firstn_all.
  cbn [skipn firstn app]. rewrite app_nil_r. exact H.
Qed.

Lemma reads_chunked (body rest : bytes) :
  chunked body rest ->
  forall acc tail r,
    reads (mk tail (acc ++ rest) None) r ->
    reads (mk (body ++ tail) acc None) r.
Proof.
  induction 1 as [|payload body rest Hne Hle Hc IH]; intros acc tail r Hr.
  - rewrite app_nil_r in Hr. exact Hr.
  - rewrite <- !app_assoc. apply reads_chunk; [assumption..|].
    apply IH. rewrite <- app_assoc. exact Hr.
Qed.

Lemma reads_init : reads __init__ (None, __init__).
Proof. exists 1%nat. reflexivity. Qed.

Lemma reads_terminator (acc : bytes) :
  acc <> [] -> reads (mk [x00; x00] acc None) (Some acc, __init__).
Proof.
  intros Hne. exists 1%nat. cbn [_try_read_message_loop].
  rewrite loop_body_unfold. destruct acc; [contradiction|]. reflexivity.
Qed.

Lemma reads_empty_terminator : reads (mk [x00; x00] [] None) (None, __init__).
Proof. exists 2%nat. reflexivity. Qed.

(** The whole framed stream yields the message, unless it is empty. *)
Lemma drain_framed (body m : bytes) :
  chunked body m ->
  drain (extend __init__ (body ++ [x00; x00]))
        (match m with [] => [] | _ => [m] end) __init__.
Proof.
  intros Hc. unfold extend, __init__.
  cbn [_buffer _message_buffer _expected_chunk_size app].
  destruct m as [|b m].
  - apply drain_stop. apply (reads_chunked _ _ Hc [] [x00; x00]).
    exact reads_empty_terminator.
  - eapply drain_message; [|apply drain_stop; exact reads_init].
    apply (reads_chunked _ _ Hc [] [x00; x00]).
    apply reads_terminator. discriminate.
Qed.

Lemma app_prefix_split {A : Type} (a : list A) :
  forall p q b, p ++ q = a ++ b -> (List.length a <= List.length p)%nat ->
                exists p', p = a ++ p' /\ p' ++ q = b.
Proof.
  induction a as [|x a IH]; intros p q b H Hl.
  - exists p. auto.
  - destruct p as [|y p]; [cbn in Hl; lia|].
    cbn [app] in H. injection H as -> H. cbn in Hl.
    destruct (IH p q b H ltac:(lia)) as (p' & -> & Hp'). exists p'. auto.
Qed.

(** Before the last byte of the stream has arrived nothing is returned. *)
Lemma reads_strict_prefix (body rest : bytes) :
  chunked body rest ->
  forall acc p q,
    p ++ q = body ++ [x00; x00] -> q <> [] ->
    exists s', reads (mk p acc None) (None, s').
Proof.
  assert (forall acc p, len p < 2 -> reads (mk p acc None) (None, mk p acc None))
    as Hshort.
  { intros acc p Hlt. exists 1%nat. cbn [_try_read_message_loop].
    rewrite loop_body_unfold. unfold _read_header.
    cbn [_expected_chunk_size _buffer].
    destruct (Z.ltb_spec (len p) 2); [reflexivity|lia]. }
  induction 1 as [|payload body rest Hne Hle Hc IH]; intros acc p q Hpq Hq.
  - exists (mk p acc None). apply Hshort.
    apply (f_equal (@List.length _)) in Hpq. rewrite length_app in Hpq.
    cbn in Hpq. destruct q; [contradiction|]. cbn in Hpq. unfold len. lia.
  - set (k := len payload) in *.
    pose proof (len_nonneg payload) as Hp0.
    destruct (Nat.lt_ge_cases (List.length p) 2) as [Hlt|Hlong].
    { exists (mk p acc None). apply Hshort. unfold len. lia. }
    rewrite <- !app_assoc in Hpq.
    destruct (app_prefix_split _ _ _ _ Hpq) as (p1 & -> & Hp1).
    { rewrite be_bytes_length. exact Hlong. }
    destruct (Nat.lt_ge_cases (List.length p1) (List.length payload)) as [Hpart|Hfull].
    + exists (mk p1 acc (Some k)). exists 1%nat. cbn [_try_read_message_loop].
      rewrite loop_body_unfold. unfold _read_header.
      cbn [_expected_chunk_size _buffer _message_buffer].
      destruct (unpack_header k p1 ltac:(unfold k; lia)) as [Hu Hs].
      destruct (Z.ltb_spec (len (struct.be_bytes 2 k ++ p1)) 2) as [Hl2|_].
      { rewrite len_app in Hl2. unfold len in Hl2 at 1.
        rewrite be_bytes_length in Hl2. pose proof (len_nonneg p1). lia. }
      rewrite Hu, Hs. unfold pending_body. cbn [_buffer _message_buffer].
      assert (k <> 0) as Hnz.
      { unfold k, len. destruct payload; [contradiction|cbn; lia]. }
      destruct (Z.eqb_spec k 0); [contradiction|].
      destruct (Z.ltb_spec (len p1) k); [reflexivity|unfold k, len in *; lia].
    + destruct (app_prefix_split _ _ _ _ Hp1 Hfull) as (p2 & -> & Hp2).
      destruct (IH (acc ++ payload) p2 q Hp2 Hq) as [s' Hr].
      exists s'. apply reads_chunk; assumption.
Qed.

End ChunkFacts.

(** C2, as the code has it.  For every message [m] and every chunk size of
    at least one byte, [write] returns the framed bytes, and for every
    partition of them into slices fed in order to a fresh reader: all the
    calls of [feed] together return exactly [[m]] when [m] is not empty
    and nothing when [m] is empty (an empty message is skipped); no call
    returns a message before the last byte of the terminator has been
    fed; and the reader is back in its initial state at the end. *)
Theorem chunk_roundtrip_any_partition (m : bytes) (max_chunk_size : Z) :
  1 <= max_chunk_size ->
  exists framed,
    ChunkWriter.write (ChunkWriter.__init__ max_chunk_size) m = Some (Ok framed)
    /\ forall parts,
         List.concat parts = framed ->
         exists outs,
           ChunkReader.feed_all ChunkReader.__init__ parts
           = Some (outs, ChunkReader.__init__)
           /\ List.concat outs = match m with [] => [] | _ => [m] end
           /\ forall k,
                (List.length (List.concat (firstn k parts)) < List.length framed)%nat ->
                List.concat (firstn k outs) = [].
Proof.
  intros Hm. destruct (ChunkFacts.write_chunked max_chunk_size m Hm) as (body & Hw & Hc).
  exists (body ++ [x00; x00]). split; [exact Hw|]. intros parts Hparts.
  destruct (ChunkFacts.feed_all_drain parts ChunkReader.__init__ ChunkFacts.reads_init)
    as (outs & s' & Hf & Hd).
  rewrite Hparts in Hd.
  destruct (ChunkFacts.drain_det _ _ _ Hd _ _ (ChunkFacts.drain_framed _ _ Hc)) as [Hms ->].
  exists outs. split; [exact Hf|]. split; [exact Hms|].
  intros k Hk.
  destruct (ChunkFacts.feed_all_firstn _ _ _ _ Hf k) as [sk Hfk].
  destruct (ChunkFacts.feed_all_drain (firstn k parts) ChunkReader.__init__
              ChunkFacts.reads_init) as (outs_k & sk' & Hfk' & Hdk).
  assert (Some (outs_k, sk') = Some (firstn k outs, sk)) as Eq
    by (rewrite <- Hfk, <- Hfk'; reflexivity).
  injection Eq as -> ->.
  assert (List.concat (firstn k parts) ++ List.concat (skipn k parts)
          = body ++ [x00; x00]) as Hsplit.
  { rewrite <- concat_app, firstn_skipn. exact Hparts. }
  assert (List.concat (skipn k parts) <> []) as Hq.
  { intros E. rewrite E, app_nil_r in Hsplit. rewrite Hsplit in Hk. lia. }
  destruct (ChunkFacts.reads_strict_prefix _ _ Hc [] _ _ Hsplit Hq) as [s1 Hr].
  assert (ChunkFacts.drain
            (ChunkReader.extend ChunkReader.__init__ (List.concat (firstn k parts)))
            [] s1) as Hstop by (apply ChunkFacts.drain_stop; exact Hr).
  destruct (ChunkFacts.drain_det _ _ _ Hdk _ _ Hstop) as [E _]. exact E.
Qed.

(** [chunk_roundtrip_any_partition] at a three-byte message cut into
    chunks of two bytes. *)
Lemma chunk_roundtrip_any_partition_witness :
  1 <= 2 /\
  exists framed,
    ChunkWriter.write (ChunkWriter.__init__ 2) [x01; x02; x03] = Some (Ok framed)
    /\ forall parts,
         List.concat parts = framed ->
         exists outs,
           ChunkReader.feed_all ChunkReader.__init__ parts
           = Some (outs, ChunkReader.__init__)
           /\ List.concat outs = [[x01; x02; x03]]
           /\ forall k,
                (List.length (List.concat (firstn k parts)) < List.length framed)%nat ->
                List.concat (firstn k outs) = [].
Proof.
  split; [lia | apply (chunk_roundtrip_any_partition [x01; x02; x03] 2); lia].
Defined.

(** C2 as stated fails on the empty message: its framed form is the bare
    terminator 00 00, and the reader fed these two bytes returns no
    message at all, not the one message [b""]. *)
Lemma chunk_roundtrip_empty_message_counterexample :
  ~ (forall (m framed : bytes) (parts : list bytes),
       ChunkWriter.write (ChunkWriter.__init__ MAX_CHUNK_SIZE) m = Some (Ok framed) ->
       List.concat parts = framed ->
       exists outs s,
         ChunkReader.feed_all ChunkReader.__init__ parts = Some (outs, s)
         /\ List.concat outs = [m]).
Proof.
  intros H.
  destruct (H [] [x00; x00] [[x00; x00]] eq_refl eq_refl) as (outs & s & Hf & Hc).
  vm_compute in Hf. injection Hf as <- <-. discriminate Hc.
Qed.

(** ** Session transactions *)

Section SessionFacts.

Variable G : Type.

Import BoltSession.

Lemma mutations_keep_other_cells (self : t) (mutations : list (G -> G)) :
  forall (h : store G) (a : ref),
    a <> get_working_graph self ->
    cell (fold_left (fun h f => mutate_working_graph h self f) mutations h) a
    = cell h a.
Proof.
  induction mutations as [|f mutations IH]; intros h a Ha; [reflexivity|].
  cbn [fold_left]. rewrite IH by exact Ha.
  unfold mutate_working_graph, write_cell. cbn [cell].
  destruct (Nat.eqb_spec a (get_working_graph self)); [contradiction|reflexivity].
Qed.

(** C9. For a session holding an allocated graph: [begin_transaction],
    any sequence of mutations of the graph returned by
    [get_working_graph], then [rollback_transaction] leave the live graph
    with the content it had before [begin_transaction].  The
    transaction works on a new object that starts as a copy of the live
    graph; when the session was not in a transaction the sequence
    completes and the session is out of the transaction again. *)
Theorem rollback_restores_live_graph
    (h : store G) (self : t) (mutations : list (G -> G)) :
  (graph self < fresh h)%nat ->
  let '(h', self', r) := transaction_then_rollback h self mutations in
  cell h' (graph self') = cell h (graph self)
  /\ graph self' = graph self
  /\ (in_transaction self = false ->
      r = Ok tt /\ in_transaction self' = false /\ tx_graph self' = None
      /\ exists h1 self1,
           begin_transaction h self = Ok (h1, self1)
           /\ get_working_graph self1 <> graph self
           /\ cell h1 (get_working_graph self1) = cell h (graph self)).
Proof.
  intros Halloc. unfold transaction_then_rollback, begin_transaction.
  destruct (in_transaction self) eqn:Etx.
  - cbv beta iota. split; [reflexivity|]. split; [reflexivity|].
    intros E. discriminate E.
  - unfold deepcopy, rollback_transaction. cbn [in_transaction negb graph].
    split; [|split; [reflexivity|]].
    + rewrite mutations_keep_other_cells.
      * cbn [cell]. destruct (Nat.eqb_spec (graph self) (fresh h)); [lia|reflexivity].
      * unfold get_working_graph. cbn. lia.
    + intros _. repeat split. eexists _, _. split; [reflexivity|].
      unfold get_working_graph. cbn [in_transaction tx_graph graph cell].
      split; [lia|]. rewrite Nat.eqb_refl. reflexivity.
Qed.

End SessionFacts.

(** [rollback_restores_live_graph] on a store of one graph whose content
    is a number, with two mutations. *)
Lemma rollback_restores_live_graph_witness :
  let h := BoltSession.mk_store nat (fun _ => 7%nat) 1%nat in
  let self := BoltSession.__init__ 0%nat in
  (BoltSession.graph self < BoltSession.fresh h)%nat
  /\ let '(h', self', r) :=
       BoltSession.transaction_then_rollback h self [S; Nat.mul 2] in
     BoltSession.cell h' (BoltSession.graph self') = 7%nat.
Proof.
  cbv zeta. split; [cbn; lia|].
  pose proof (rollback_restores_live_graph nat
                (BoltSession.mk_store nat (fun _ => 7%nat) 1%nat)
                (BoltSession.__init__ 0%nat) [S; Nat.mul 2]) as H.
  destruct (BoltSession.transaction_then_rollback _ _ _) as [[h' self'] r].
  apply H. cbn. lia.
Defined.

(** ** Handshake *)

Module HandshakeFacts.

Import BoltConnection.

Lemma slot_fields (b0 b1 b2 b3 : byte) :
  let v := struct.unpack_unsigned [b0; b1; b2; b3] in
  Z.land v 0xFF = Z_of_byte b3
  /\ Z.land (Z.shiftr v 8) 0xFF = Z_of_byte b2
  /\ Z.land (Z.shiftr v 16) 0xFF = Z_of_byte b1.
Proof.
  cbv zeta. unfold struct.unpack_unsigned, struct.be_to_Z. cbn [fold_left].
  rewrite !land_255, !Z.shiftr_div_pow2 by lia.
  change (2 ^ 8) with 256. change (2 ^ 16) with 65536.
  pose proof (Z_of_byte_range b0). pose proof (Z_of_byte_range b1).
  pose proof (Z_of_byte_range b2). pose proof (Z_of_byte_range b3).
  set (x0 := Z_of_byte b0) in *. set (x1 := Z_of_byte b1) in *.
  set (x2 := Z_of_byte b2) in *. set (x3 := Z_of_byte b3) in *.
  repeat split.
  - symmetry. apply (Z.mod_unique _ _ (((0 * 256 + x0) * 256 + x1) * 256 + x2)); lia.
  - replace ((((0 * 256 + x0) * 256 + x1) * 256 + x2) * 256 + x3)
      with (x3 + (((0 * 256 + x0) * 256 + x1) * 256 + x2) * 256) by lia.
    rewrite Z.div_add by lia. rewrite (Z.div_small x3) by lia.
    symmetry. apply (Z.mod_unique _ _ ((0 * 256 + x0) * 256 + x1)); lia.
  - replace ((((0 * 256 + x0) * 256 + x1) * 256 + x2) * 256 + x3)
      with ((x2 * 256 + x3) + ((0 * 256 + x0) * 256 + x1) * 65536) by lia.
    rewrite Z.div_add by lia. rewrite (Z.div_small (x2 * 256 + x3)) by lia.
    symmetry. apply (Z.mod_unique _ _ (0 * 256 + x0)); lia.
Qed.

Definition triple (p : HandshakeSpec.proposal) : Z * Z * Z :=
  (HandshakeSpec.p_major p, HandshakeSpec.p_minor p, HandshakeSpec.p_range p).

Lemma match_supported_spec (p : HandshakeSpec.proposal) (supported : list (Z * Z)) :
  0 <= HandshakeSpec.p_range p ->
  _match_supported (HandshakeSpec.p_major p) (HandshakeSpec.p_minor p)
    (HandshakeSpec.p_range p) supported
  = option_map snd
      (find (fun ps => HandshakeSpec.compatible (fst ps) (snd ps))
            (map (pair p) supported)).
Proof.
  intros Hr. induction supported as [|[sup_major sup_minor] supported IH];
    [reflexivity|].
  cbn [_match_supported map find fst snd]. unfold HandshakeSpec.compatible at 1.
  rewrite IH.
  destruct (sup_major =? HandshakeSpec.p_major p); cbn [andb]; [|reflexivity].
  destruct (Z.ltb_spec 0 (HandshakeSpec.p_range p)) as [Hpos|Hzero].
  - destruct (Z.eqb_spec (HandshakeSpec.p_range p) 0); [lia|]. cbn [andb orb].
    destruct ((_ <=? _) && (_ <=? _)); reflexivity.
  - destruct (Z.eqb_spec (HandshakeSpec.p_range p) 0); [|lia]. cbn [andb orb].
    rewrite Bool.orb_false_r.
    destruct (sup_minor =? HandshakeSpec.p_minor p); reflexivity.
Qed.

Lemma major_zero_never_matches (p : HandshakeSpec.proposal) :
  HandshakeSpec.p_major p <= 0 ->
  find (fun ps => HandshakeSpec.compatible (fst ps) (snd ps))
       (map (pair p) SUPPORTED_VERSIONS) = None.
Proof.
  intros Hm. unfold SUPPORTED_VERSIONS, HandshakeSpec.compatible.
  cbn [map find fst snd].
  destruct (Z.eqb_spec 5 (HandshakeSpec.p_major p)); [lia|].
  destruct (Z.eqb_spec 4 (HandshakeSpec.p_major p)); [lia|].
  reflexivity.
Qed.

Lemma find_over_app {A : Type} (f : A -> bool) (l1 l2 : list A) :
  find f (l1 ++ l2)
  = match find f l1 with Some x => Some x | None => find f l2 end.
Proof.
  induction l1 as [|x l1 IH]; [reflexivity|]. cbn [app find].
  destruct (f x); [reflexivity|exact IH].
Qed.

Lemma select_version_spec (ps : list HandshakeSpec.proposal) :
  (forall p, In p ps -> 0 <= HandshakeSpec.p_range p) ->
  _select_version
    (flat_map (fun p => if 0 <? HandshakeSpec.p_major p then [triple p] else []) ps)
  = option_map snd
      (find (fun ps => HandshakeSpec.compatible (fst ps) (snd ps))
            (list_prod ps SUPPORTED_VERSIONS)).
Proof.
  intros Hr. induction ps as [|p ps IH]; [reflexivity|].
  cbn [flat_map list_prod].
  change (map (fun y => (p, y)) SUPPORTED_VERSIONS)
    with (map (pair p) SUPPORTED_VERSIONS).
  rewrite find_over_app.
  assert (0 <= HandshakeSpec.p_range p) as Hp by (apply Hr; left; reflexivity).
  assert (forall q, In q ps -> 0 <= HandshakeSpec.p_range q) as Hps
    by (intros q Hq; apply Hr; right; exact Hq).
  destruct (Z.ltb_spec 0 (HandshakeSpec.p_major p)) as [Hpos|Hzero].
  - cbn [app _select_version triple].
    rewrite (match_supported_spec p SUPPORTED_VERSIONS Hp).
    destruct (find _ (map (pair p) SUPPORTED_VERSIONS)) as [x|];
      [reflexivity|]. cbn [option_map]. apply IH. exact Hps.
  - cbn [app]. rewrite (major_zero_never_matches p Hzero). apply IH. exact Hps.
Qed.

Lemma proposals_range_nonneg (block : bytes) :
  forall p, In p (HandshakeSpec.proposals block) -> 0 <= HandshakeSpec.p_range p.
Proof.
  assert (forall n block, (List.length block <= n)%nat ->
            forall p, In p (HandshakeSpec.proposals block) ->
                      0 <= HandshakeSpec.p_range p) as H.
  { induction n as [|n IH]; intros blk Hl p Hin.
    - destruct blk; [contradiction|cbn in Hl; lia].
    - destruct blk as [|b0 [|b1 [|b2 [|b3 blk]]]]; try contradiction.
      cbn [HandshakeSpec.proposals] in Hin. destruct Hin as [<-|Hin].
      + cbn. apply Z_of_byte_range.
      + apply (IH blk); [cbn in Hl; lia|exact Hin]. }
  intros p. apply (H (List.length block) block). lia.
Qed.

Lemma parse_versions_spec (block : bytes) :
  List.length block = 16%nat ->
  _parse_versions block 4 0
  = flat_map (fun p => if 0 <? HandshakeSpec.p_major p then [triple p] else [])
             (HandshakeSpec.proposals block).
Proof.
  intros Hl.
  do 16 (destruct block as [|? block]; [discriminate Hl|]).
  destruct block; [|discriminate Hl].
  cbn [_parse_versions HandshakeSpec.proposals flat_map].
  repeat match goal with
         | |- context [slice ?l ?a ?b] =>
             let s := eval cbv in (slice l a b) in
             change (slice l a b) with s
         end.
  repeat match goal with
         | |- context [struct.unpack_unsigned [?a; ?b; ?c; ?d]] =>
             destruct (slot_fields a b c d) as (-> & -> & ->)
         end.
  unfold triple. cbn [HandshakeSpec.p_major HandshakeSpec.p_minor HandshakeSpec.p_range].
  rewrite !app_nil_r. reflexivity.
Qed.

Lemma supported_reply (selected : Z * Z) :
  In selected SUPPORTED_VERSIONS ->
  struct.pack_unsigned 4 (Z.lor (Z.shiftl (snd selected) 8) (fst selected))
  = Ok (HandshakeSpec.reply (Some selected)).
Proof.
  intros [<-|[<-|[<-|[<-|[]]]]]; vm_compute; reflexivity.
Qed.

Lemma match_supported_In (major minor version_range : Z) (supported : list (Z * Z)) :
  forall selected,
    _match_supported major minor version_range supported = Some selected ->
    In selected supported.
Proof.
  induction supported as [|[sup_major sup_minor] supported IH]; intros sel H;
    [discriminate|].
  cbn [_match_supported] in H.
  repeat match type of H with
         | (if ?c then _ else _) = _ => destruct c
         end;
    try (injection H as <-; left; reflexivity);
    right; apply IH; exact H.
Qed.

Lemma select_version_In (versions : list (Z * Z * Z)) :
  forall selected, _select_version versions = Some selected ->
                   In selected SUPPORTED_VERSIONS.
Proof.
  induction versions as [|[[major minor] version_range] versions IH];
    intros sel H; [discriminate|].
  cbn [_select_version] in H.
  destruct (_match_supported major minor version_range SUPPORTED_VERSIONS)
    as [x|] eqn:E.
  - injection H as <-. eapply match_supported_In; exact E.
  - apply IH; exact H.
Qed.

End HandshakeFacts.

(** C6. For every 16-byte proposal block that follows the magic preamble
    on a connection in NEGOTIATION, the handshake selects the first
    compatible version, going through the four proposals in order and,
    within a proposal, through the preference list (5,4), (5,0), (4,4),
    (4,3).  On a match it records the version, writes 00 00 minor major,
    moves to AUTHENTICATION and returns true; with no match it writes
    00 00 00 00 and returns false, on which [handle] returns and closes
    the connection. *)
Theorem handshake_selects_first_compatible
    (G : Type) (self : BoltConnection.t G) (block rest : bytes) :
  List.length block = 16%nat ->
  BoltConnection._reader self = BOLT_MAGIC ++ block ++ rest ->
  BoltConnection._state self = NEGOTIATION ->
  BoltConnection._handshake self
  = Some
      (match HandshakeSpec.select block with
       | Some selected =>
           (Ok true,
            BoltConnection.set_state
              (BoltConnection.set_writer
                 (BoltConnection.set_negotiated_version
                    (BoltConnection.set_reader self rest) (Some selected))
                 (BoltConnection._writer self
                  ++ HandshakeSpec.reply (Some selected)))
              AUTHENTICATION)
       | None =>
           (Ok false,
            BoltConnection.set_writer (BoltConnection.set_reader self rest)
              (BoltConnection._writer self ++ HandshakeSpec.reply None))
       end).
Proof.
  intros Hlen Hreader Hstate.
  unfold HandshakeSpec.select.
  rewrite <- (HandshakeFacts.select_version_spec (HandshakeSpec.proposals block)
                (HandshakeFacts.proposals_range_nonneg block)).
  rewrite <- (HandshakeFacts.parse_versions_spec block Hlen).
  assert (forall (s : BoltConnection.t G) (n : nat) (a b : bytes),
            List.length a = n -> BoltConnection._reader s = a ++ b ->
            BoltConnection.readexactly n s
            = Some (Ok a, BoltConnection.set_reader s b)) as Hread.
  { intros s n a b Ha Hs. unfold BoltConnection.readexactly. rewrite Hs.
    assert ((List.length (a ++ b) <? n)%nat = false) as ->
      by (apply Nat.ltb_ge; rewrite length_app; lia).
    rewrite firstn_app, skipn_app, Ha, Nat.sub_diag. cbn [firstn skipn].
    rewrite app_nil_r. rewrite <- Ha, firstn_all, skipn_all. reflexivity. }
  unfold BoltConnection._handshake, BoltConnection.try_except.
  unfold BoltConnection.hbind at 1.
  rewrite (Hread self 4%nat BOLT_MAGIC (block ++ rest) eq_refl Hreader).
  change (bytes_eqb BOLT_MAGIC BOLT_MAGIC) with true. cbn [negb].
  unfold BoltConnection.hbind at 1.
  rewrite (Hread (BoltConnection.set_reader self (block ++ rest)) 16%nat block rest Hlen)
    by (destruct self; reflexivity).
  destruct (BoltConnection._select_version (BoltConnection._parse_versions block 4 0))
    as [selected|] eqn:Esel.
  - pose proof (HandshakeFacts.supported_reply selected
                  (HandshakeFacts.select_version_In _ _ Esel)) as Hreply.
    unfold BoltConnection.hbind, BoltConnection.writer_write, BoltConnection.modify,
      BoltConnection.lift, BoltConnection.transition_to, BoltConnection.ret.
    rewrite Hreply. cbn [option_map].
    destruct self as [st rd wr gr sn cid state sess conv cr cw nv ci].
    cbn [BoltConnection._state] in Hstate. subst state. reflexivity.
  - unfold BoltConnection.hbind, BoltConnection.writer_write, BoltConnection.modify,
      BoltConnection.ret. cbn [option_map].
    destruct self as [st rd wr gr sn cid state sess conv cr cw nv ci]. reflexivity.
Qed.

(** [handshake_selects_first_compatible] on the block of the integration
    test: Bolt 4.4 and three empty slots. *)
Lemma handshake_selects_first_compatible_witness :
  let block := [x00; x00; x04; x04; x00; x00; x00; x00;
                x00; x00; x00; x00; x00; x00; x00; x00] in
  let self :=
    BoltConnection.__init__ (BoltSession.mk_store unit (fun _ => tt) 1%nat)
      (BOLT_MAGIC ++ block ++ []) 0%nat "nxcypher/1.0.0" "bolt-1" in
  HandshakeSpec.select block = Some (4, 4)
  /\ exists self',
       BoltConnection._handshake self = Some (Ok true, self')
       /\ BoltConnection._writer self' = [x00; x00; x04; x04]
       /\ BoltConnection._state self' = AUTHENTICATION.
Proof.
  cbv zeta. split; [reflexivity|].
  eexists. split.
  - rewrite (handshake_selects_first_compatible unit _
               [x00; x00; x04; x04; x00; x00; x00; x00;
                x00; x00; x00; x00; x00; x00; x00; x00] []);
      [|reflexivity|reflexivity|reflexivity].
    reflexivity.
  - split; reflexivity.
Defined.

(** ** Dict keys *)

Lemma bytes_eqb_eq (a b : bytes) : bytes_eqb a b = true <-> a = b.
Proof.
  revert b. induction a as [|x a IH]; intros [|y b]; cbn; split; intros H;
    try discriminate; try reflexivity.
  - apply andb_prop in H. destruct H as [H1 H2].
    apply Byte.byte_dec_bl in H1. apply IH in H2. congruence.
  - injection H as -> ->. apply andb_true_intro. split.
    + apply Byte.byte_dec_lb. reflexivity.
    + apply IH. reflexivity.
Qed.

Lemma hkey_eqb_eq (a : hkey) : forall b, hkey_eqb a b = true <-> a = b.
Proof.
  induction a as [ | x | x | x | x | l IH] using hkey_nested_ind;
    intros [ | y | y | y | y | l']; cbn [hkey_eqb];
    try (split; [discriminate|discriminate]).
  - split; reflexivity.
  - rewrite Z.eqb_eq. split; congruence.
  - rewrite Z.eqb_eq. split; congruence.
  - rewrite String.eqb_eq. split; congruence.
  - rewrite bytes_eqb_eq. split; congruence.
  - revert l'. induction IH as [|a l Ha Hl IHl]; intros [|b l'];
      try (split; [discriminate|discriminate]).
    + split; reflexivity.
    + rewrite Bool.andb_true_iff, (Ha b), IHl. split.
      * intros [-> E]. injection E as ->. reflexivity.
      * intros E. injection E as -> ->. auto.
Qed.

Lemma hkey_eqb_refl (a : hkey) : hkey_eqb a a = true.
Proof. apply hkey_eqb_eq. reflexivity. Qed.

Lemma hkey_eqb_neq (a b : hkey) : a <> b -> hkey_eqb a b = false.
Proof.
  intros H. destruct (hkey_eqb a b) eqn:E; [|reflexivity].
  apply hkey_eqb_eq in E. contradiction.
Qed.

Module DictFacts.

Import pydict.

Lemma same_key_iff (hk : hkey) (k : value) :
  same_key hk k = true <-> hkey_of k = Some hk.
Proof.
  unfold same_key. destruct (hkey_of k) as [hk'|].
  - rewrite hkey_eqb_eq. split; congruence.
  - split; discriminate.
Qed.

Lemma find_store_same {V : Type} (hk : hkey) (k : value) (v : V) (d : dict V) :
  hkey_of k = Some hk -> find hk (store hk k v d) = Some v.
Proof.
  intros Hk. induction d as [|[k' v'] d IH]; cbn [store find].
  - apply same_key_iff in Hk. rewrite Hk. reflexivity.
  - destruct (same_key hk k') eqn:E; cbn [find]; rewrite E; [reflexivity|exact IH].
Qed.

Lemma find_store_other {V : Type} (hk hk' : hkey) (k : value) (v : V) (d : dict V) :
  hkey_of k = Some hk -> hk' <> hk ->
  find hk' (store hk k v d) = find hk' d.
Proof.
  intros Hk Hne. induction d as [|[k' v'] d IH]; cbn [store find].
  - destruct (same_key hk' k) eqn:E; [|reflexivity].
    apply same_key_iff in E. congruence.
  - destruct (same_key hk k') eqn:E; cbn [find].
    + destruct (same_key hk' k') eqn:E'; [|reflexivity].
      apply same_key_iff in E, E'. congruence.
    + rewrite IH. reflexivity.
Qed.

(** A key that is found is the key of an entry. *)
Lemma find_In {V : Type} (hk : hkey) (d : dict V) (v : V) :
  find hk d = Some v -> exists k, In (k, v) d /\ hkey_of k = Some hk.
Proof.
  induction d as [|[k' v'] d IH]; cbn [find]; [discriminate|].
  destruct (same_key hk k') eqn:E.
  - intros [= <-]. exists k'. split; [left; reflexivity|].
    apply same_key_iff. exact E.
  - intros H. destruct (IH H) as (k & Hin & Hk). exists k. split; [right|]; assumption.
Qed.

Lemma find_app {V : Type} (hk : hkey) (d1 d2 : dict V) :
  find hk (d1 ++ d2)
  = match find hk d1 with
    | Some v => Some v
    | None => find hk d2
    end.
Proof.
  induction d1 as [|[k v] d1 IH]; cbn [app find]; [reflexivity|].
  destruct (same_key hk k); [reflexivity|exact IH].
Qed.

(** A key that is not found is the key of no entry. *)
Lemma find_None_In {V : Type} (hk : hkey) (d : dict V) (k : value) (v : V) :
  find hk d = None -> In (k, v) d -> hkey_of k <> Some hk.
Proof.
  induction d as [|[k' v'] d IH]; cbn [find In]; [tauto|].
  destruct (same_key hk k') eqn:E; [discriminate|].
  intros Hf [[= -> ->]|Hin].
  - intros Hk. apply same_key_iff in Hk. congruence.
  - apply IH; assumption.
Qed.

(** [d[k] = v] for a new key appends the entry. *)
Lemma store_new {V : Type} (hk : hkey) (k : value) (v : V) (d : dict V) :
  find hk d = None -> store hk k v d = d ++ [(k, v)].
Proof.
  induction d as [|[k' v'] d IH]; cbn [find store app]; [reflexivity|].
  destruct (same_key hk k'); [discriminate|].
  intros H. rewrite IH by exact H. reflexivity.
Qed.

End DictFacts.

(** ** Converter identifiers *)

Module ConverterFacts.

Import ResultConverter.

(** The identifiers of a table are below its counter and belong to one
    key each. *)
Definition table_ok (table : pydict.dict Z) (next : Z) : Prop :=
  0 <= next
  /\ (forall hk id, pydict.find hk table = Some id -> 0 <= id < next)
  /\ (forall hk1 hk2 id,
        pydict.find hk1 table = Some id -> pydict.find hk2 table = Some id ->
        hk1 = hk2).

Definition inv (c : t) : Prop :=
  table_ok (_node_id_map c) (_next_node_id c)
  /\ table_ok (_edge_id_map c) (_next_edge_id c).

Definition table_extends (table table' : pydict.dict Z) (next next' : Z) : Prop :=
  (forall hk id, pydict.find hk table = Some id -> pydict.find hk table' = Some id)
  /\ next <= next'
  /\ (forall hk id,
        pydict.find hk table' = Some id ->
        pydict.find hk table = Some id \/ next <= id).

(** [extends c c']: [c'] knows every identifier of [c]. *)
Definition extends (c c' : t) : Prop :=
  table_extends (_node_id_map c) (_node_id_map c')
                (_next_node_id c) (_next_node_id c')
  /\ table_extends (_edge_id_map c) (_edge_id_map c')
                   (_next_edge_id c) (_next_edge_id c')
  /\ _graph c' = _graph c.

Lemma table_extends_refl table next : table_extends table table next next.
Proof. split; [auto|split; [lia|auto]]. Qed.

Lemma table_extends_trans t1 t2 t3 n1 n2 n3 :
  table_extends t1 t2 n1 n2 -> table_extends t2 t3 n2 n3 ->
  table_extends t1 t3 n1 n3.
Proof.
  intros (A & B & F) (C & D & G). split; [auto|split; [lia|]].
  intros hk id H. destruct (G _ _ H) as [H'|H']; [|right; lia].
  destruct (F _ _ H') as [H''|H'']; [left; exact H''|right; lia].
Qed.

Lemma extends_refl c : extends c c.
Proof. split; [|split]; [apply table_extends_refl..|reflexivity]. Qed.

Lemma extends_trans c1 c2 c3 : extends c1 c2 -> extends c2 c3 -> extends c1 c3.
Proof.
  intros (A & B & C) (D & E & F). split; [|split].
  - eapply table_extends_trans; eassumption.
  - eapply table_extends_trans; eassumption.
  - congruence.
Qed.


(** A table after [table[key] = next; next += 1] for a new key. *)
Lemma table_insert (table : pydict.dict Z) (next : Z) (hk : hkey) (key : value) :
  table_ok table next -> hkey_of key = Some hk -> pydict.find hk table = None ->
  table_ok (pydict.store hk key next table) (next + 1)
  /\ table_extends table (pydict.store hk key next table) next (next + 1).
Proof.
  intros (H0 & Hb & Hi) Hk Hnew.
  assert (forall hk' id, pydict.find hk' (pydict.store hk key next table) = Some id ->
            (hk' = hk /\ id = next) \/ (hk' <> hk /\ pydict.find hk' table = Some id))
    as Hcases.
  { intros hk' id H. destruct (hkey_eqb hk' hk) eqn:E.
    - apply hkey_eqb_eq in E. subst hk'.
      rewrite DictFacts.find_store_same in H by exact Hk. left. split; congruence.
    - assert (hk' <> hk) as Hne by (intros ->; rewrite hkey_eqb_refl in E; discriminate).
      rewrite DictFacts.find_store_other in H by assumption. right. auto. }
  split; [split; [lia|split]|split; [|split]].
  - intros hk' id H. destruct (Hcases _ _ H) as [[_ ->]|[_ H']]; [lia|].
    apply Hb in H'. lia.
  - intros hk1 hk2 id H1 H2.
    destruct (Hcases _ _ H1) as [[-> ->]|[N1 H1']],
             (Hcases _ _ H2) as [[-> E2]|[N2 H2']].
    + reflexivity.
    + apply Hb in H2'. lia.
    + subst id. apply Hb in H1'. lia.
    + eapply Hi; eassumption.
  - intros hk' id H. rewrite DictFacts.find_store_other; [exact H|exact Hk|].
    intros ->. congruence.
  - lia.
  - intros hk' id H. destruct (Hcases _ _ H) as [[_ ->]|[_ H']];
      [right; lia|left; exact H'].
Qed.

(** What one call of [_get_node_id] does. *)
Lemma get_node_id_cases (key : value) (c : t) :
  match hkey_of key with
  | None => _get_node_id key c = (Raise TypeError, c)
  | Some hk =>
      match pydict.find hk (_node_id_map c) with
      | Some id => _get_node_id key c = (Ok id, c)
      | None =>
          _get_node_id key c
          = (Ok (_next_node_id c),
             mk (_graph c)
                (pydict.store hk key (_next_node_id c) (_node_id_map c))
                (_edge_id_map c) (_next_node_id c + 1) (_next_edge_id c))
      end
  end.
Proof.
  unfold _get_node_id. destruct (hkey_of key) as [hk|] eqn:Hk; [|reflexivity].
  destruct (pydict.find hk (_node_id_map c)) as [id|] eqn:Hf.
  - rewrite Hf. reflexivity.
  - cbn [_node_id_map]. rewrite DictFacts.find_store_same by exact Hk. reflexivity.
Qed.

Lemma get_edge_id_cases (key : value) (c : t) :
  match hkey_of key with
  | None => _get_edge_id key c = (Raise TypeError, c)
  | Some hk =>
      match pydict.find hk (_edge_id_map c) with
      | Some id => _get_edge_id key c = (Ok id, c)
      | None =>
          _get_edge_id key c
          = (Ok (_next_edge_id c),
             mk (_graph c) (_node_id_map c)
                (pydict.store hk key (_next_edge_id c) (_edge_id_map c))
                (_next_node_id c) (_next_edge_id c + 1))
      end
  end.
Proof.
  unfold _get_edge_id. destruct (hkey_of key) as [hk|] eqn:Hk; [|reflexivity].
  destruct (pydict.find hk (_edge_id_map c)) as [id|] eqn:Hf.
  - rewrite Hf. reflexivity.
  - cbn [_edge_id_map]. rewrite DictFacts.find_store_same by exact Hk. reflexivity.
Qed.

(** [good m]: the method [m] keeps the tables well formed and forgets
    no identifier, also when it raises. *)
Definition good {A : Type} (m : M A) : Prop :=
  forall c r c', inv c -> m c = (r, c') -> inv c' /\ extends c c'.

Lemma good_ret {A : Type} (a : A) : good (ret a).
Proof. intros c r c' Hi [= <- <-]. split; [exact Hi|apply extends_refl]. Qed.

Lemma good_raise {A : Type} (e : exn) : good (@raise A e).
Proof. intros c r c' Hi [= <- <-]. split; [exact Hi|apply extends_refl]. Qed.

Lemma good_lift {A : Type} (x : result A) : good (lift x).
Proof. intros c r c' Hi [= <- <-]. split; [exact Hi|apply extends_refl]. Qed.

Lemma good_bind {A B : Type} (m : M A) (k : A -> M B) :
  good m -> (forall a, good (k a)) -> good (mbind m k).
Proof.
  intros Hm Hk c r c' Hi H. unfold mbind in H.
  destruct (m c) as [[a|e] c1] eqn:E.
  - destruct (Hm _ _ _ Hi E) as [Hi1 He1].
    destruct (Hk a _ _ _ Hi1 H) as [Hi2 He2].
    split; [exact Hi2|eapply extends_trans; eassumption].
  - injection H as <- <-. eapply Hm; eassumption.
Qed.

Lemma good_get_node_id (key : value) : good (_get_node_id key).
Proof.
  intros c r c' [Hn He] H. pose proof (get_node_id_cases key c) as Hc.
  destruct (hkey_of key) as [hk|] eqn:Hk.
  - destruct (pydict.find hk (_node_id_map c)) as [id|] eqn:Hf.
    + rewrite Hc in H. injection H as <- <-.
      split; [split; assumption|apply extends_refl].
    + rewrite Hc in H. injection H as <- <-.
      destruct (table_insert _ _ _ _ Hn Hk Hf) as [Hok Hext].
      split; [split; assumption|].
      split; [exact Hext|]. split; [apply table_extends_refl|reflexivity].
  - rewrite Hc in H. injection H as <- <-.
    split; [split; assumption|apply extends_refl].
Qed.

Lemma good_get_edge_id (key : value) : good (_get_edge_id key).
Proof.
  intros c r c' [Hn He] H. pose proof (get_edge_id_cases key c) as Hc.
  destruct (hkey_of key) as [hk|] eqn:Hk.
  - destruct (pydict.find hk (_edge_id_map c)) as [id|] eqn:Hf.
    + rewrite Hc in H. injection H as <- <-.
      split; [split; assumption|apply extends_refl].
    + rewrite Hc in H. injection H as <- <-.
      destruct (table_insert _ _ _ _ He Hk Hf) as [Hok Hext].
      split; [split; assumption|].
      split; [apply table_extends_refl|]. split; [exact Hext|reflexivity].
  - rewrite Hc in H. injection H as <- <-.
    split; [split; assumption|apply extends_refl].
Qed.

Ltac good :=
  repeat first
    [ apply good_ret | apply good_raise | apply good_lift
    | apply good_get_node_id | apply good_get_edge_id
    | apply good_bind; [|intros ?]
    | match goal with
      | |- good (if ?b then _ else _) => destruct b
      | |- good (match ?x with _ => _ end) => destruct x
      end ].

Section WithStr.

Variable py_str : value -> string.










End WithStr.

End ConverterFacts.

(** ** Identifiers over the life of one converter *)

Module ConverterIdFacts.

Import ResultConverter ConverterFacts.



Lemma good_get_id (tb : id_table) (key : value) : good (get_id tb key).
Proof. destruct tb; [apply good_get_node_id|apply good_get_edge_id]. Qed.



Section WithStr.

Variable py_str : value -> string.



End WithStr.

End ConverterIdFacts.


(** ** Path indices *)

Module PathFacts.

Import ResultConverter.




Section WithStr.

Variable py_str : value -> string.



Lemma entries_for_app (elements1 elements2 : list value) :
  forall i,
    entries_for i (elements1 ++ elements2)
    = (entries_for i elements1
       + entries_for (i + List.length elements1) elements2)%nat.
Proof.
  induction elements1 as [|e l IH]; intros i; cbn [entries_for app List.length].
  - rewrite Nat.add_0_r. reflexivity.
  - rewrite IH. replace (S i + List.length l)%nat with (i + S (List.length l))%nat by lia.
    lia.
Qed.


End WithStr.


End PathFacts.






(** ** The identifiers a conversion emits *)

Module AgreementFacts.

Import ResultConverter ConverterFacts.






Section WithStr.

Variable py_str : value -> string.


























End WithStr.

End AgreementFacts.

(** ** The identifiers over the life of one converter *)

Module ConverterLifeFacts.

Import ResultConverter ConverterFacts.




End ConverterLifeFacts.




(** ** Requests in the FAILED state *)

Section FailedState.

Variable G : Type.
Variable graph_clear : G -> G.
Variable graph_update : G -> G -> G.
Variable nxcypher_run : value -> value -> G -> result value * G.
Variable py_str : value -> string.
Variable exn_text : exn -> string.
Variable unknown_tag_text : Z -> string.

(** SUCCESS {} and IGNORED {} as they are framed by a writer with the
    default chunk size. *)
Lemma send_success_empty (self : BoltConnection.t G) :
  BoltConnection._chunk_writer self = ChunkWriter.__init__ MAX_CHUNK_SIZE ->
  BoltConnection._send_success py_str (VDict []) self
  = Some (Ok tt,
          BoltConnection.set_writer self
            (BoltConnection._writer self ++ [x00; x03; xb1; x70; xa0; x00; x00])).
Proof.
  intros Hw. unfold BoltConnection._send_success, BoltConnection._send_message.
  rewrite Hw. reflexivity.
Qed.

Lemma send_ignored_frame (self : BoltConnection.t G) :
  BoltConnection._chunk_writer self = ChunkWriter.__init__ MAX_CHUNK_SIZE ->
  BoltConnection._send_ignored py_str self
  = Some (Ok tt,
          BoltConnection.set_writer self
            (BoltConnection._writer self ++ [x00; x03; xb1; x7e; xa0; x00; x00])).
Proof.
  intros Hw. unfold BoltConnection._send_ignored, BoltConnection._send_message.
  rewrite Hw. reflexivity.
Qed.

(** C4 fails in the code for TELEMETRY and LOGOFF.  In the FAILED state
    the handlers of these two requests do not look at the state: for any
    fields they write the frame 00 03 B1 70 A0 00 00, which is SUCCESS {},
    where the handlers that test the state write IGNORED {}, the frame
    00 03 B1 7E A0 00 00; the connection stays in FAILED. *)
Theorem failed_state_telemetry_logoff_success
    (self : BoltConnection.t G) (tag : Z) (fields : list value) :
  BoltConnection._state self = FAILED ->
  BoltConnection._chunk_writer self = ChunkWriter.__init__ MAX_CHUNK_SIZE ->
  tag = MSG_TELEMETRY \/ tag = MSG_LOGOFF ->
  exists self',
    BoltConnection._dispatch_message graph_clear graph_update nxcypher_run
      py_str exn_text unknown_tag_text tag fields self
    = Some (Ok tt, self')
    /\ BoltConnection._writer self'
       = BoltConnection._writer self ++ [x00; x03; xb1; x70; xa0; x00; x00]
    /\ decode [xb1; x70; xa0] = Some (Ok (VStruct MSG_SUCCESS [VDict []]))
    /\ BoltConnection._state self' = FAILED
    /\ BoltConnection._send_ignored py_str self
       = Some (Ok tt,
               BoltConnection.set_writer self
                 (BoltConnection._writer self
                  ++ [x00; x03; xb1; x7e; xa0; x00; x00])).
Proof.
  intros Hs Hw Htag.
  exists (BoltConnection.set_writer self
            (BoltConnection._writer self ++ [x00; x03; xb1; x70; xa0; x00; x00])).
  split; [|split; [|split; [|split]]].
  - unfold BoltConnection._dispatch_message.
    destruct Htag as [-> | ->]; apply send_success_empty; exact Hw.
  - reflexivity.
  - reflexivity.
  - exact Hs.
  - apply send_ignored_frame. exact Hw.
Qed.

End FailedState.

(** [failed_state_telemetry_logoff_success] on a connection that has
    failed, for a TELEMETRY request without fields. *)
Lemma failed_state_telemetry_logoff_success_witness :
  let self := BoltConnection.set_state CommitScenario.start FAILED in
  exists self',
    CommitScenario.dispatch [(MSG_TELEMETRY, [])] self = Some (Ok tt, self')
    /\ BoltConnection._writer self' = [x00; x03; xb1; x70; xa0; x00; x00].
Proof.
  intros self.
  destruct (failed_state_telemetry_logoff_success unit (fun g => g)
              (fun g _ => g) CommitScenario.echo_run CommitScenario.text_of
              (fun _ => "error"%string) (fun _ => "0x??"%string)
              self MSG_TELEMETRY [] eq_refl eq_refl (or_introl eq_refl))
    as (self' & Hd & Hw & _).
  exists self'. split; [|exact Hw].
  unfold CommitScenario.dispatch. cbn [BoltConnection._dispatch_messages].
  unfold BoltConnection.hbind. rewrite Hd. reflexivity.
Defined.

(** ** Decoding what the encoder wrote *)

Module RoundTrip.

Import PackStreamEncoder PackStreamDecoder.

Lemma append_ok (z : Z) : 0 <= z < 256 -> bytearray_append z = Ok [byte_of_Z z].
Proof.
  intros H. unfold bytearray_append.
  destruct (Z.leb_spec 0 z); [|lia]. destruct (Z.ltb_spec z 256); [|lia].
  reflexivity.
Qed.

Lemma pack_unsigned_ok (n : nat) (z : Z) :
  0 <= z < 256 ^ Z.of_nat n -> struct.pack_unsigned n z = Ok (struct.be_bytes n z).
Proof.
  intros H. unfold struct.pack_unsigned.
  destruct (Z.leb_spec 0 z); [|lia].
  destruct (Z.ltb_spec z (256 ^ Z.of_nat n)); [|lia]. reflexivity.
Qed.

Lemma read_bytes_app (a rest : bytes) :
  _read_bytes (len a) (a ++ rest) = Ok (a, rest).
Proof.
  unfold _read_bytes. rewrite len_app.
  destruct (Z.ltb_spec (len a + len rest) (len a)) as [H|_].
  - pose proof (len_nonneg rest). lia.
  - unfold len. rewrite Nat2Z.id.
    rewrite firstn_app, skipn_app, Nat.sub_diag, firstn_all, skipn_all.
    cbn [firstn skipn]. rewrite app_nil_r. reflexivity.
Qed.

Lemma read_be_bytes (n : nat) (z : Z) (rest : bytes) :
  _read_bytes (Z.of_nat n) (struct.be_bytes n z ++ rest)
  = Ok (struct.be_bytes n z, rest).
Proof.
  rewrite <- (be_bytes_length n z) at 1. apply read_bytes_app.
Qed.

Lemma read_size_app (n : nat) (z : Z) (rest : bytes) :
  0 <= z < 256 ^ Z.of_nat n ->
  _read_size n (struct.be_bytes n z ++ rest) = Ok (z, rest).
Proof.
  intros H. unfold _read_size. rewrite read_be_bytes. cbn [bind].
  unfold struct.unpack_unsigned. rewrite be_roundtrip_small by exact H.
  reflexivity.
Qed.

Lemma read_signed_app (n : nat) (z : Z) (rest : bytes) :
  (0 < n)%nat ->
  - (256 ^ Z.of_nat n / 2) <= z < 256 ^ Z.of_nat n / 2 ->
  _read_signed n (struct.be_bytes n (z mod 256 ^ Z.of_nat n) ++ rest)
  = Ok (VInt z, rest).
Proof.
  intros Hn H. unfold _read_signed. rewrite read_be_bytes. cbn [bind].
  rewrite unpack_signed_pack by assumption. reflexivity.
Qed.

Lemma read_string_app (s : string) (rest : bytes) :
  utf8.valid (list_byte_of_string s) = true ->
  _read_string (len (list_byte_of_string s)) (list_byte_of_string s ++ rest)
  = Ok (VStr s, rest).
Proof.
  intros H. unfold _read_string. rewrite read_bytes_app. cbn [bind].
  unfold utf8.decode. rewrite H. cbn [bind].
  rewrite string_of_list_byte_of_string. reflexivity.
Qed.

(** The size in the low four bits of a marker. *)
Lemma tiny_marker (base size : Z) :
  In base [0x80; 0x90; 0xA0; 0xB0] -> 0 <= size < 16 ->
  Z.lor base size = base + size /\ Z.land (base + size) 0x0F = size.
Proof.
  intros Hb Hs.
  assert (In size [0; 1; 2; 3; 4; 5; 6; 7; 8; 9; 10; 11; 12; 13; 14; 15]) as Hin.
  { cbn [In]. lia. }
  cbn [In] in Hb, Hin.
  repeat (destruct Hb as [<-|Hb]); try contradiction;
    repeat (destruct Hin as [<-|Hin]); try contradiction;
    split; reflexivity.
Qed.

(** The tests of [_decode_value] on a marker whose range is known. *)
Ltac unfold_markers :=
  unfold NULL, FLOAT_64, FALSE, TRUE, INT_8, INT_16, INT_32, INT_64,
    BYTES_8, BYTES_16, BYTES_32, STRING_8, STRING_16, STRING_32,
    LIST_8, LIST_16, LIST_32, MAP_8, MAP_16, MAP_32, STRUCT_8, STRUCT_16,
    TINY_STRING, TINY_LIST, TINY_MAP, TINY_STRUCT in *.

Ltac decide_test :=
  match goal with
  | |- context [?a <=? ?b] =>
      first [ replace (a <=? b) with true by (symmetry; apply Z.leb_le; lia)
            | replace (a <=? b) with false by (symmetry; apply Z.leb_gt; lia) ]
  | |- context [?a =? ?b] =>
      first [ replace (a =? b) with true by (symmetry; apply Z.eqb_eq; lia)
            | replace (a =? b) with false by (symmetry; apply Z.eqb_neq; lia) ]
  end.

Ltac on_marker :=
  unfold_markers;
  cbn [app _decode_value _read_byte fbind];
  rewrite Z_of_byte_of_Z_small by lia;
  unfold_markers; repeat (decide_test; cbn [andb]); cbv iota.

Lemma list_header_ok (size : Z) :
  0 <= size < 2 ^ 32 ->
  exists h,
    _list_header size = Ok h /\ (1 <= List.length h)%nat
    /\ forall fuel data,
         _decode_value (S fuel) (h ++ data)
         = run (items, data) <- _decode_list fuel size data;
           ret (VList items, data).
Proof.
  intros H. unfold _list_header.
  destruct (Z.ltb_spec size 16); [|destruct (Z.ltb_spec size 256);
    [|destruct (Z.ltb_spec size 65536)]].
  - destruct (tiny_marker 0x90 size ltac:(cbn; tauto) ltac:(lia)) as [Hl Ha].
    unfold TINY_LIST. rewrite Hl, append_ok by lia.
    eexists. split; [reflexivity|]. split; [cbn; lia|].
    intros fuel data. on_marker. rewrite Ha. reflexivity.
  - unfold LIST_8. rewrite !append_ok by lia. cbn [bind app].
    eexists. split; [reflexivity|]. split; [cbn; lia|].
    intros fuel data. on_marker. rewrite Z_of_byte_of_Z_small by lia. reflexivity.
  - unfold LIST_16. rewrite append_ok, pack_unsigned_ok by (cbn; lia).
    cbn [bind app]. eexists. split; [reflexivity|]. split; [cbn; lia|].
    intros fuel data. on_marker. rewrite read_size_app by (cbn; lia). reflexivity.
  - unfold LIST_32. rewrite append_ok, pack_unsigned_ok by (cbn; lia).
    cbn [bind app]. eexists. split; [reflexivity|]. split; [cbn; lia|].
    intros fuel data. on_marker. rewrite read_size_app by (cbn; lia). reflexivity.
Qed.

Lemma map_header_ok (size : Z) :
  0 <= size < 2 ^ 32 ->
  exists h,
    _map_header size = Ok h /\ (1 <= List.length h)%nat
    /\ forall fuel data,
         _decode_value (S fuel) (h ++ data)
         = run (d, data) <- _decode_dict fuel size data [];
           ret (VDict d, data).
Proof.
  intros H. unfold _map_header.
  destruct (Z.ltb_spec size 16); [|destruct (Z.ltb_spec size 256);
    [|destruct (Z.ltb_spec size 65536)]].
  - destruct (tiny_marker 0xA0 size ltac:(cbn; tauto) ltac:(lia)) as [Hl Ha].
    unfold TINY_MAP. rewrite Hl, append_ok by lia.
    eexists. split; [reflexivity|]. split; [cbn; lia|].
    intros fuel data. on_marker. rewrite Ha. reflexivity.
  - unfold MAP_8. rewrite !append_ok by lia. cbn [bind app].
    eexists. split; [reflexivity|]. split; [cbn; lia|].
    intros fuel data. on_marker. rewrite Z_of_byte_of_Z_small by lia. reflexivity.
  - unfold MAP_16. rewrite append_ok, pack_unsigned_ok by (cbn; lia).
    cbn [bind app]. eexists. split; [reflexivity|]. split; [cbn; lia|].
    intros fuel data. on_marker. rewrite read_size_app by (cbn; lia). reflexivity.
  - unfold MAP_32. rewrite append_ok, pack_unsigned_ok by (cbn; lia).
    cbn [bind app]. eexists. split; [reflexivity|]. split; [cbn; lia|].
    intros fuel data. on_marker. rewrite read_size_app by (cbn; lia). reflexivity.
Qed.

Lemma structure_header_ok (size tag : Z) :
  0 <= size < 65536 -> 0 <= tag < 256 ->
  exists h,
    _structure_header size tag = Ok h /\ (1 <= List.length h)%nat
    /\ forall fuel data,
         _decode_value (S fuel) (h ++ data)
         = run (fields, data) <- _decode_list fuel size data;
           ret (VStruct tag fields, data).
Proof.
  intros H Ht. unfold _structure_header.
  destruct (Z.ltb_spec size 16); [|destruct (Z.ltb_spec size 256)].
  - destruct (tiny_marker 0xB0 size ltac:(cbn; tauto) ltac:(lia)) as [Hl Ha].
    unfold TINY_STRUCT. rewrite Hl, !append_ok by lia. cbn [bind app].
    eexists. split; [reflexivity|]. split; [cbn; lia|].
    intros fuel data. on_marker. rewrite Z_of_byte_of_Z_small by lia.
    rewrite Ha. reflexivity.
  - unfold STRUCT_8. rewrite !append_ok by lia. cbn [bind app].
    eexists. split; [reflexivity|]. split; [cbn; lia|].
    intros fuel data. on_marker. rewrite !Z_of_byte_of_Z_small by lia.
    reflexivity.
  - unfold STRUCT_16. rewrite !append_ok, pack_unsigned_ok by (cbn; lia).
    cbn [bind app]. eexists. split; [reflexivity|]. split; [cbn; lia|].
    intros fuel data. on_marker. rewrite <- app_assoc.
    rewrite read_size_app by (cbn; lia). cbn [app _read_byte].
    rewrite Z_of_byte_of_Z_small by lia. reflexivity.
Qed.

(** A string, as a value and as the key of a map. *)
Lemma string_ok (s : string) :
  protocol_string s = true ->
  exists e,
    _encode_string s = Ok e /\ (1 <= List.length e)%nat
    /\ forall fuel rest,
         _decode_value (S fuel) (e ++ rest) = Some (Ok (VStr s, rest)).
Proof.
  unfold protocol_string. intros H. apply andb_true_iff in H.
  destruct H as [Hv Hs]. apply Z.ltb_lt in Hs.
  unfold _encode_string. set (encoded := list_byte_of_string s) in *.
  pose proof (len_nonneg encoded) as H0.
  destruct (Z.ltb_spec (len encoded) 16); [|destruct (Z.ltb_spec (len encoded) 256);
    [|destruct (Z.ltb_spec (len encoded) 65536)]].
  - destruct (tiny_marker 0x80 (len encoded) ltac:(cbn; tauto) ltac:(lia)) as [Hl Ha].
    unfold TINY_STRING. rewrite Hl, append_ok by lia. cbn [bind app].
    eexists. split; [reflexivity|]. split; [cbn; lia|].
    intros fuel rest. on_marker. rewrite Ha.
    unfold encoded. rewrite read_string_app by exact Hv. reflexivity.
  - unfold STRING_8. rewrite !append_ok by lia. cbn [bind app].
    eexists. split; [reflexivity|]. split; [cbn; lia|].
    intros fuel rest. on_marker. rewrite Z_of_byte_of_Z_small by lia.
    unfold encoded. rewrite read_string_app by exact Hv. reflexivity.
  - unfold STRING_16. rewrite append_ok, pack_unsigned_ok by (cbn; lia).
    cbn [bind app]. eexists. split; [reflexivity|]. split; [cbn; lia|].
    intros fuel rest. on_marker. rewrite <- app_assoc.
    rewrite read_size_app by (cbn; lia).
    unfold encoded. rewrite read_string_app by exact Hv. reflexivity.
  - unfold STRING_32. rewrite append_ok, pack_unsigned_ok by (cbn; lia).
    cbn [bind app]. eexists. split; [reflexivity|]. split; [cbn; lia|].
    intros fuel rest. on_marker. rewrite <- app_assoc.
    rewrite read_size_app by (cbn; lia).
    unfold encoded. rewrite read_string_app by exact Hv. reflexivity.
Qed.

Lemma bytes_ok (b : bytes) :
  len b < 2 ^ 32 ->
  exists e,
    _encode_bytes b = Ok e /\ (1 <= List.length e)%nat
    /\ forall fuel rest,
         _decode_value (S fuel) (e ++ rest) = Some (Ok (VBytes b, rest)).
Proof.
  intros Hs. unfold _encode_bytes. pose proof (len_nonneg b) as H0.
  destruct (Z.ltb_spec (len b) 256); [|destruct (Z.ltb_spec (len b) 65536)].
  - unfold BYTES_8. rewrite !append_ok by lia. cbn [bind app].
    eexists. split; [reflexivity|]. split; [cbn; lia|].
    intros fuel rest. on_marker. rewrite Z_of_byte_of_Z_small by lia.
    rewrite read_bytes_app. reflexivity.
  - unfold BYTES_16. rewrite append_ok, pack_unsigned_ok by (cbn; lia).
    cbn [bind app]. eexists. split; [reflexivity|]. split; [cbn; lia|].
    intros fuel rest. on_marker. rewrite <- app_assoc.
    rewrite read_size_app by (cbn; lia). rewrite read_bytes_app. reflexivity.
  - unfold BYTES_32. rewrite append_ok, pack_unsigned_ok by (cbn; lia).
    cbn [bind app]. eexists. split; [reflexivity|]. split; [cbn; lia|].
    intros fuel rest. on_marker. rewrite <- app_assoc.
    rewrite read_size_app by (cbn; lia). rewrite read_bytes_app. reflexivity.
Qed.

Lemma pack_signed_ok (n : nat) (z : Z) :
  - (256 ^ Z.of_nat n / 2) <= z < 256 ^ Z.of_nat n / 2 ->
  struct.pack_signed n z = Ok (struct.be_bytes n (z mod 256 ^ Z.of_nat n)).
Proof.
  intros H. unfold struct.pack_signed.
  destruct (Z.leb_spec (- (256 ^ Z.of_nat n / 2)) z); [|lia].
  destruct (Z.ltb_spec z (256 ^ Z.of_nat n / 2)); [|lia]. reflexivity.
Qed.

(** An integer in a lane of [n] bytes behind the marker [m]. *)
Lemma int_lane_ok (m : Z) (n : nat) (z : Z) :
  (m = INT_8 /\ n = 1%nat) \/ (m = INT_16 /\ n = 2%nat)
  \/ (m = INT_32 /\ n = 4%nat) \/ (m = INT_64 /\ n = 8%nat) ->
  - (256 ^ Z.of_nat n / 2) <= z < 256 ^ Z.of_nat n / 2 ->
  exists e,
    (do a <- bytearray_append m; do p <- struct.pack_signed n z; Ok (a ++ p))
    = Ok e
    /\ (1 <= List.length e)%nat
    /\ forall fuel rest,
         _decode_value (S fuel) (e ++ rest) = Some (Ok (VInt z, rest)).
Proof.
  intros Hm Hz. rewrite pack_signed_ok by exact Hz.
  destruct Hm as [[-> ->]|[[-> ->]|[[-> ->]|[-> ->]]]];
    rewrite append_ok by (unfold_markers; lia); cbn [bind app];
    (eexists; split; [reflexivity|]; split; [cbn [List.length]; lia|]);
    intros fuel rest; on_marker;
    rewrite read_signed_app by (try exact Hz; lia); reflexivity.
Qed.

Lemma int_ok (z : Z) :
  - 2 ^ 63 <= z < 2 ^ 63 ->
  exists e,
    _encode_int z = Ok e /\ (1 <= List.length e)%nat
    /\ forall fuel rest,
         _decode_value (S fuel) (e ++ rest) = Some (Ok (VInt z, rest)).
Proof.
  intros H. unfold _encode_int.
  change (2 ^ 63) with 9223372036854775808 in H.
  destruct ((-16 <=? z) && (z <? 128)) eqn:E1.
  - apply andb_true_iff in E1. destruct E1 as [Ea Eb].
    apply Z.leb_le in Ea. apply Z.ltb_lt in Eb.
    rewrite land_255. pose proof (Z.mod_pos_bound z 256 ltac:(lia)) as Hm.
    rewrite append_ok by exact Hm.
    eexists. split; [reflexivity|]. split; [cbn; lia|]. intros fuel rest.
    destruct (Z.leb_spec 0 z).
    + rewrite Z.mod_small by lia. on_marker. reflexivity.
    + assert (z mod 256 = z + 256) as Hz.
      { symmetry. apply (Z.mod_unique z 256 (-1)); lia. }
      rewrite Hz. on_marker. unfold ret. do 4 f_equal. lia.
  - destruct ((-128 <=? z) && (z <? 128)) eqn:E2;
      [|destruct ((-32768 <=? z) && (z <? 32768)) eqn:E3;
        [|destruct ((-2147483648 <=? z) && (z <? 2147483648)) eqn:E4]].
    + apply andb_true_iff in E2. rewrite Z.leb_le, Z.ltb_lt in E2.
      apply int_lane_ok; [tauto|]. change (256 ^ Z.of_nat 1 / 2) with 128. lia.
    + apply andb_true_iff in E3. rewrite Z.leb_le, Z.ltb_lt in E3.
      apply int_lane_ok; [tauto|]. change (256 ^ Z.of_nat 2 / 2) with 32768. lia.
    + apply andb_true_iff in E4. rewrite Z.leb_le, Z.ltb_lt in E4.
      apply int_lane_ok; [tauto|].
      change (256 ^ Z.of_nat 4 / 2) with 2147483648. lia.
    + apply int_lane_ok; [tauto|].
      change (256 ^ Z.of_nat 8 / 2) with 9223372036854775808. lia.
Qed.

Lemma float_ok (py_str : value -> string) (bits : Z) :
  0 <= bits < 2 ^ 64 ->
  exists e,
    _encode_value py_str (VFloat bits) = Ok e /\ (1 <= List.length e)%nat
    /\ forall fuel rest,
         _decode_value (S fuel) (e ++ rest) = Some (Ok (VFloat bits, rest)).
Proof.
  intros H. cbn [_encode_value]. unfold FLOAT_64.
  rewrite append_ok by lia. cbn [bind app].
  eexists. split; [reflexivity|]. split; [cbn; lia|].
  intros fuel rest. on_marker.
  change (_read_bytes 8) with (_read_bytes (Z.of_nat 8)).
  rewrite (read_be_bytes 8 bits rest). unfold struct.unpack_unsigned.
  rewrite be_roundtrip_small by exact H. reflexivity.
Qed.

Section WithStr.

Variable py_str : value -> string.
Hypothesis py_str_of_str : forall s, py_str (VStr s) = s.

(** The loops of [_encode_list], [_encode_structure] and [_encode_map]. *)
Fixpoint encode_items (l : list value) : result bytes :=
  match l with
  | [] => Ok []
  | item :: l' =>
      do a <- _encode_value py_str item;
      do b <- encode_items l';
      Ok (a ++ b)
  end.

Fixpoint encode_pairs (kvs : list (value * value)) : result bytes :=
  match kvs with
  | [] => Ok []
  | (k, v) :: kvs' =>
      do a <- _encode_string (py_str k);
      do b <- _encode_value py_str v;
      do c <- encode_pairs kvs';
      Ok (a ++ b ++ c)
  end.

Lemma encode_list_eq (l : list value) :
  _encode_value py_str (VList l)
  = do h <- _list_header (len l); do items <- encode_items l; Ok (h ++ items).
Proof. reflexivity. Qed.

Lemma encode_dict_eq (kvs : list (value * value)) :
  _encode_value py_str (VDict kvs)
  = do h <- _map_header (len kvs); do items <- encode_pairs kvs; Ok (h ++ items).
Proof. reflexivity. Qed.

Lemma encode_struct_eq (tag : Z) (fields : list value) :
  _encode_value py_str (VStruct tag fields)
  = do h <- _structure_header (len fields) tag;
    do items <- encode_items fields;
    Ok (h ++ items).
Proof. reflexivity. Qed.

(** [decodes v]: a protocol value [v] is encoded, and what was written
    is read back as [v], whatever follows it, within a budget of two
    steps for each byte. *)
Definition decodes (v : value) : Prop :=
  protocol_value v = true ->
  exists e,
    _encode_value py_str v = Ok e /\ (1 <= List.length e)%nat
    /\ forall fuel rest,
         (2 * List.length e + 1 <= fuel)%nat ->
         _decode_value fuel (e ++ rest) = Some (Ok (v, rest)).

Lemma decodes_of (v : value) :
  (protocol_value v = true ->
   exists e,
     _encode_value py_str v = Ok e /\ (1 <= List.length e)%nat
     /\ forall fuel rest,
          _decode_value (S fuel) (e ++ rest) = Some (Ok (v, rest))) ->
  decodes v.
Proof.
  intros H Hp. destruct (H Hp) as (e & He & Hl & Hd).
  exists e. split; [exact He|]. split; [exact Hl|].
  intros [|fuel] rest Hf; [lia|]. apply Hd.
Qed.

Lemma items_ok (l : list value) :
  Forall decodes l -> forallb protocol_value l = true ->
  exists e,
    encode_items l = Ok e
    /\ forall fuel rest,
         (2 * List.length e + 2 <= fuel)%nat ->
         _decode_list fuel (len l) (e ++ rest) = Some (Ok (l, rest)).
Proof.
  induction 1 as [|x l Hx Hl IH]; cbn [forallb encode_items]; intros Hp.
  - exists []. split; [reflexivity|]. intros [|fuel] rest Hf; [cbn in Hf; lia|].
    reflexivity.
  - apply andb_true_iff in Hp. destruct Hp as [Hpx Hpl].
    destruct (Hx Hpx) as (ex & Hex & Hlx & Hdx).
    destruct (IH Hpl) as (el & Hel & Hdl).
    rewrite Hex, Hel. cbn [bind]. exists (ex ++ el). split; [reflexivity|].
    intros [|fuel] rest Hf; [lia|]. rewrite length_app in Hf.
    cbn [_decode_list].
    assert (len (x :: l) = len l + 1) as Hlen by (unfold len; cbn [List.length]; lia).
    pose proof (len_nonneg l) as H0.
    destruct (Z.leb_spec (len (x :: l)) 0); [lia|].
    rewrite <- app_assoc, Hdx by lia. cbn [fbind].
    replace (len (x :: l) - 1) with (len l) by lia.
    rewrite Hdl by lia. reflexivity.
Qed.

Lemma pairs_ok (kvs : list (value * value)) :
  Forall (fun kv => decodes (fst kv) /\ decodes (snd kv)) kvs ->
  forallb (fun kv => string_key (fst kv) && protocol_value (snd kv)) kvs = true ->
  exists e,
    encode_pairs kvs = Ok e
    /\ forall fuel rest acc,
         (2 * List.length e + 2 <= fuel)%nat ->
         well_keyed kvs = true ->
         (forall k x hk, In (k, x) kvs -> hkey_of k = Some hk ->
                         pydict.find hk acc = None) ->
         _decode_dict fuel (len kvs) (e ++ rest) acc
         = Some (Ok (acc ++ kvs, rest)).
Proof.
  induction 1 as [|[k x] kvs [_ Hx] Hl IH]; cbn [forallb encode_pairs fst snd];
    intros Hp.
  - exists []. split; [reflexivity|].
    intros [|fuel] rest acc Hf _ _; [cbn in Hf; lia|].
    cbn. rewrite app_nil_r. reflexivity.
  - apply andb_true_iff in Hp. destruct Hp as [Hp Hpl].
    apply andb_true_iff in Hp. destruct Hp as [Hpk Hpx].
    destruct k as [ | | | |s| | | | | ]; try discriminate Hpk.
    cbn [string_key] in Hpk. cbn [snd] in Hx, Hpx. rewrite py_str_of_str.
    destruct (string_ok s Hpk) as (ek & Hek & Hlk & Hdk).
    destruct (Hx Hpx) as (ex & Hex & Hlx & Hdx).
    destruct (IH Hpl) as (el & Hel & Hdl).
    rewrite Hek, Hex, Hel. cbn [bind]. exists (ek ++ ex ++ el).
    split; [reflexivity|].
    intros [|fuel] rest acc Hf Hwk Hacc; [lia|]. rewrite !length_app in Hf.
    cbn [_decode_dict].
    assert (len ((VStr s, x) :: kvs) = len kvs + 1) as Hlen
      by (unfold len; cbn [List.length]; lia).
    pose proof (len_nonneg kvs) as H0.
    destruct (Z.leb_spec (len ((VStr s, x) :: kvs)) 0); [lia|].
    destruct fuel as [|fuel']; [lia|].
    rewrite <- !app_assoc, Hdk. cbn [fbind].
    rewrite Hdx by lia. cbn [fbind].
    cbn [well_keyed hkey_of] in Hwk.
    destruct (pydict.find (KStr s) kvs) eqn:Hfk; [discriminate|].
    unfold pydict.set. cbn [hkey_of].
    rewrite DictFacts.store_new
      by (apply (Hacc (VStr s) x); [left; reflexivity|reflexivity]).
    replace (len ((VStr s, x) :: kvs) - 1) with (len kvs) by lia.
    rewrite Hdl; [|lia|exact Hwk|].
    + rewrite <- app_assoc. reflexivity.
    + intros k' x' hk' Hin Hk'. rewrite DictFacts.find_app.
      rewrite (Hacc k' x' hk') by (try (right; exact Hin); exact Hk').
      cbn [pydict.find]. destruct (pydict.same_key hk' (VStr s)) eqn:E;
        [|reflexivity].
      apply DictFacts.same_key_iff in E. cbn [hkey_of] in E.
      injection E as <-.
      exfalso. exact (DictFacts.find_None_In _ _ _ _ Hfk Hin Hk').
Qed.

Lemma forallb_items (l : list value) :
  (fix all (l : list value) : bool :=
     match l with
     | [] => true
     | x :: l' => protocol_value x && all l'
     end) l
  = forallb protocol_value l.
Proof. induction l as [|x l IH]; [reflexivity|]. cbn. rewrite IH. reflexivity. Qed.

Lemma forallb_pairs (kvs : list (value * value)) :
  (fix all (kvs : list (value * value)) : bool :=
     match kvs with
     | [] => true
     | (k, x) :: kvs' => string_key k && protocol_value x && all kvs'
     end) kvs
  = forallb (fun kv => string_key (fst kv) && protocol_value (snd kv)) kvs.
Proof.
  induction kvs as [|[k x] l IH]; [reflexivity|]. cbn [forallb fst snd].
  rewrite IH. reflexivity.
Qed.

(** Every protocol value is read back. *)
Lemma protocol_value_decodes (v : value) : decodes v.
Proof.
  induction v as [ | b | z | bits | s | b | l IH | l IH | kvs IH | tag fields IH]
    using value_nested_ind.
  - apply decodes_of. intros _. cbn [_encode_value]. unfold NULL.
    rewrite append_ok by lia. eexists. split; [reflexivity|].
    split; [cbn; lia|]. intros fuel rest. on_marker. reflexivity.
  - apply decodes_of. intros _. cbn [_encode_value].
    destruct b; unfold TRUE, FALSE; rewrite append_ok by lia;
      (eexists; split; [reflexivity|]; split; [cbn; lia|]);
      intros fuel rest; on_marker; reflexivity.
  - apply decodes_of. cbn [protocol_value _encode_value]. intros H.
    apply andb_true_iff in H. rewrite Z.leb_le, Z.ltb_lt in H.
    apply int_ok. exact H.
  - apply decodes_of. cbn [protocol_value]. intros H.
    apply andb_true_iff in H. rewrite Z.leb_le, Z.ltb_lt in H.
    apply float_ok. exact H.
  - apply decodes_of. cbn [protocol_value _encode_value]. apply string_ok.
  - apply decodes_of. cbn [protocol_value _encode_value]. intros H.
    apply Z.ltb_lt in H. apply bytes_ok. exact H.
  - intros Hp. cbn [protocol_value] in Hp. rewrite forallb_items in Hp.
    apply andb_true_iff in Hp. destruct Hp as [Hs Hp]. apply Z.ltb_lt in Hs.
    destruct (list_header_ok (len l) (conj (len_nonneg l) Hs)) as (h & Hh & Hlh & Hdh).
    destruct (items_ok l IH Hp) as (e & He & Hde).
    rewrite encode_list_eq, Hh, He. cbn [bind]. exists (h ++ e).
    split; [reflexivity|]. split; [rewrite length_app; lia|].
    intros [|fuel] rest Hf; [lia|]. rewrite length_app in Hf.
    rewrite <- app_assoc, Hdh, Hde by lia. reflexivity.
  - intros Hp. discriminate Hp.
  - intros Hp. cbn [protocol_value] in Hp. rewrite forallb_pairs in Hp.
    apply andb_true_iff in Hp. destruct Hp as [Hp Hall].
    apply andb_true_iff in Hp. destruct Hp as [Hs Hwk]. apply Z.ltb_lt in Hs.
    destruct (map_header_ok (len kvs) (conj (len_nonneg kvs) Hs))
      as (h & Hh & Hlh & Hdh).
    destruct (pairs_ok kvs IH Hall) as (e & He & Hde).
    rewrite encode_dict_eq, Hh, He. cbn [bind]. exists (h ++ e).
    split; [reflexivity|]. split; [rewrite length_app; lia|].
    intros [|fuel] rest Hf; [lia|]. rewrite length_app in Hf.
    rewrite <- app_assoc, Hdh, Hde; [reflexivity|lia|exact Hwk|].
    intros k x hk _ _. reflexivity.
  - intros Hp. cbn [protocol_value] in Hp. rewrite forallb_items in Hp.
    apply andb_true_iff in Hp. destruct Hp as [Hp Hall].
    apply andb_true_iff in Hp. destruct Hp as [Hp Hs].
    apply andb_true_iff in Hp. destruct Hp as [Ht0 Ht1].
    apply Z.ltb_lt in Hs. apply Z.leb_le in Ht0. apply Z.ltb_lt in Ht1.
    destruct (structure_header_ok (len fields) tag
                (conj (len_nonneg fields) Hs) (conj Ht0 Ht1))
      as (h & Hh & Hlh & Hdh).
    destruct (items_ok fields IH Hall) as (e & He & Hde).
    rewrite encode_struct_eq, Hh, He. cbn [bind]. exists (h ++ e).
    split; [reflexivity|]. split; [rewrite length_app; lia|].
    intros [|fuel] rest Hf; [lia|]. rewrite length_app in Hf.
    rewrite <- app_assoc, Hdh, Hde by lia. reflexivity.
Qed.

End WithStr.

End RoundTrip.




(** ** The decoder on arbitrary input *)

Module DecodeFacts.

Import PackStreamDecoder.

(** [shrinks r n]: the read [r] ends within its budget, and when it
    returns a value at most [n] bytes are left. *)
Definition shrinks {A : Type} (r : option (result (A * bytes))) (n : nat) : Prop :=
  exists r', r = Some r'
             /\ forall a rest, r' = Ok (a, rest) -> (List.length rest <= n)%nat.

Lemma shrinks_ret {A : Type} (a : A) (data : bytes) (n : nat) :
  (List.length data <= n)%nat -> shrinks (ret (a, data)) n.
Proof.
  intros H. eexists. split; [reflexivity|]. intros a' rest [= <- <-]. exact H.
Qed.

Lemma shrinks_raise {A : Type} (e : exn) (n : nat) :
  shrinks (Some (@Raise (A * bytes) e)) n.
Proof. eexists. split; [reflexivity|]. intros a rest H. discriminate H. Qed.

Lemma shrinks_bind {A B : Type} (m : option (result (A * bytes)))
    (k : A * bytes -> option (result (B * bytes))) (n n' : nat) :
  shrinks m n ->
  (forall a d, (List.length d <= n)%nat -> shrinks (k (a, d)) n') ->
  shrinks (fbind m k) n'.
Proof.
  intros (r & -> & Hr) Hk. destruct r as [[a d]|e]; cbn [fbind].
  - apply Hk. eapply Hr. reflexivity.
  - apply shrinks_raise.
Qed.

Lemma fbind_ok {A B : Type} (a : A) (k : A -> option (result B)) :
  fbind (Some (Ok a)) k = k a.
Proof. reflexivity. Qed.

Lemma read_byte_shrinks (data : bytes) (n : nat) :
  (List.length data <= n)%nat -> shrinks (Some (_read_byte data)) n.
Proof.
  intros H. eexists. split; [reflexivity|]. intros a rest.
  destruct data as [|b data]; cbn [_read_byte]; [discriminate|].
  intros [= <- <-]. cbn [List.length] in H. lia.
Qed.

Lemma read_bytes_shrinks (size : Z) (data : bytes) (n : nat) :
  (List.length data <= n)%nat -> shrinks (Some (_read_bytes size data)) n.
Proof.
  intros H. eexists. split; [reflexivity|]. intros a rest. unfold _read_bytes.
  destruct (len data <? size); [discriminate|]. intros [= <- <-].
  rewrite length_skipn. lia.
Qed.

Lemma read_with_shrinks {A B : Type} (size : Z) (data : bytes) (n : nat)
    (k : bytes * bytes -> result (B * bytes)) :
  (forall bs d, exists b, k (bs, d) = Ok (b, d) \/ exists e, k (bs, d) = Raise e) ->
  (List.length data <= n)%nat ->
  shrinks (Some (bind (_read_bytes size data) k)) n.
Proof.
  intros Hk H. destruct (read_bytes_shrinks size data n H) as (r & [= <-] & Hr).
  eexists. split; [reflexivity|]. intros a rest.
  destruct (_read_bytes size data) as [[bs d]|e]; cbn [bind]; [|discriminate].
  destruct (Hk bs d) as (b & [-> | [e ->]]); [|discriminate].
  intros [= <- <-]. eapply Hr. reflexivity.
Qed.

Lemma read_string_shrinks (size : Z) (data : bytes) (n : nat) :
  (List.length data <= n)%nat -> shrinks (Some (_read_string size data)) n.
Proof.
  intros H. unfold _read_string. apply (read_with_shrinks (A := unit)); [|exact H].
  intros bs d. cbv beta iota. destruct (utf8.decode bs) as [s|e].
  - exists (VStr s). left. reflexivity.
  - exists VNone. right. exists e. reflexivity.
Qed.

Lemma read_size_shrinks (k : nat) (data : bytes) (n : nat) :
  (List.length data <= n)%nat -> shrinks (Some (_read_size k data)) n.
Proof.
  intros H. unfold _read_size. apply (read_with_shrinks (A := unit)); [|exact H].
  intros bs d. cbv beta iota. eexists. left. reflexivity.
Qed.

Lemma read_signed_shrinks (k : nat) (data : bytes) (n : nat) :
  (List.length data <= n)%nat -> shrinks (Some (_read_signed k data)) n.
Proof.
  intros H. unfold _read_signed. apply (read_with_shrinks (A := unit)); [|exact H].
  intros bs d. cbv beta iota. eexists. left. reflexivity.
Qed.

(** The three decoding functions end within a budget of two steps for
    each byte, and a decoded value takes at least one byte. *)
Definition within (fuel : nat) : Prop :=
  (forall data n,
     (2 * List.length data + 1 <= fuel)%nat -> (List.length data <= S n)%nat ->
     shrinks (_decode_value fuel data) n)
  /\ (forall size data n,
        (2 * List.length data + 2 <= fuel)%nat -> (List.length data <= n)%nat ->
        shrinks (_decode_list fuel size data) n)
  /\ (forall size data acc n,
        (2 * List.length data + 2 <= fuel)%nat -> (List.length data <= n)%nat ->
        shrinks (_decode_dict fuel size data acc) n).

Ltac leaf IHl IHd :=
  repeat first
    [ apply shrinks_ret; lia
    | apply shrinks_raise
    | apply read_string_shrinks; lia
    | apply read_signed_shrinks; lia
    | eapply shrinks_bind;
      [ first [ apply read_byte_shrinks; reflexivity
              | apply read_bytes_shrinks; reflexivity
              | apply read_size_shrinks; reflexivity
              | apply IHl; [lia|reflexivity]
              | apply IHd; [lia|reflexivity] ]
      | intros ? ? ?; cbv beta iota ] ].

Lemma within_all (fuel : nat) : within fuel.
Proof.
  induction fuel as [|fuel (IHv & IHl & IHd)].
  - repeat split; intros; lia.
  - split; [|split].
    + intros data n Hf Hn. destruct data as [|b data].
      * apply shrinks_raise.
      * cbn [List.length] in Hf, Hn. cbn [_decode_value _read_byte].
        rewrite fbind_ok. cbv beta iota.
        repeat match goal with
               | |- shrinks (if ?c then _ else _) _ => destruct c
               end;
          leaf IHl IHd.
    + intros size data n Hf Hn. cbn [_decode_list].
      destruct (size <=? 0); [apply shrinks_ret; exact Hn|].
      destruct data as [|b data].
      * destruct fuel as [|fuel']; [cbn in Hf; lia|]. apply shrinks_raise.
      * cbn [List.length] in Hf, Hn.
        eapply shrinks_bind; [apply (IHv _ (List.length data)); cbn [List.length]; lia|].
        intros item d Hd. cbv beta iota.
        eapply shrinks_bind; [apply (IHl _ _ (List.length d)); lia|].
        intros items d' Hd'. cbv beta iota. apply shrinks_ret. lia.
    + intros size data acc n Hf Hn. cbn [_decode_dict].
      destruct (size <=? 0); [apply shrinks_ret; exact Hn|].
      destruct data as [|b data].
      * destruct fuel as [|fuel']; [cbn in Hf; lia|]. apply shrinks_raise.
      * cbn [List.length] in Hf, Hn.
        eapply shrinks_bind; [apply (IHv _ (List.length data)); cbn [List.length]; lia|].
        intros k d Hd. cbv beta iota.
        destruct d as [|b' d].
        { destruct fuel as [|fuel']; [lia|]. cbn [_decode_value _read_byte fbind].
          apply shrinks_raise. }
        cbn [List.length] in Hd.
        eapply shrinks_bind; [apply (IHv _ (List.length d)); cbn [List.length]; lia|].
        intros v d' Hd'. cbv beta iota.
        destruct (pydict.set acc k v) as [acc'|e]; cbn [fbind];
          [|apply shrinks_raise].
        apply IHd; lia.
Qed.

End DecodeFacts.

(** [decode] ends on every input: the recursion budget it gives to
    [_decode_value] is never used up, so that it returns a value or
    raises; on the empty input it raises [ValueError]. *)
Theorem decode_total (data : bytes) :
  (exists r, decode data = Some r)
  /\ decode [] = Some (Raise ValueError).
Proof.
  split; [|reflexivity].
  unfold decode, PackStreamDecoder.decode.
  destruct (len data <=? 0); [eexists; reflexivity|].
  destruct (DecodeFacts.within_all (PackStreamDecoder.budget data)) as (Hv & _ & _).
  destruct (Hv data (List.length data)) as (r & -> & _).
  - unfold PackStreamDecoder.budget. lia.
  - lia.
  - destruct r as [[v rest]|e]; eexists; reflexivity.
Qed.

(** ** More on the codec *)

(** [decode] reads one value and does not look at what follows it: for a
    protocol value, the bytes of [encode] followed by any other bytes
    decode to the value. *)
Theorem decode_ignores_trailing_bytes (py_str : value -> string) (v : value)
    (trailing : bytes) :
  (forall s, py_str (VStr s) = s) ->
  protocol_value v = true ->
  exists e, encode py_str v = Ok e /\ decode (e ++ trailing) = Some (Ok v).
Proof.
  intros Hstr Hp.
  destruct (RoundTrip.protocol_value_decodes py_str Hstr v Hp)
    as (e & He & Hl & Hd).
  exists e. split; [exact He|].
  unfold decode, PackStreamDecoder.decode.
  destruct (Z.leb_spec (len (e ++ trailing)) 0) as [H|_].
  - unfold len in H. rewrite length_app in H. lia.
  - rewrite Hd; [reflexivity|].
    unfold PackStreamDecoder.budget. rewrite length_app. lia.
Qed.

Lemma decode_ignores_trailing_bytes_witness :
  exists e,
    encode CommitScenario.text_of (VList [VInt 1; VStr "a"]) = Ok e
    /\ decode (e ++ [xff; x00]) = Some (Ok (VList [VInt 1; VStr "a"])).
Proof.
  apply (decode_ignores_trailing_bytes CommitScenario.text_of).
  - intros s. reflexivity.
  - vm_compute. reflexivity.
Defined.

(** Two different protocol values never have the same encoding; this
    holds also for values that compare equal in Python, such as [1] and
    [True]. *)
Theorem encode_injective (py_str : value -> string) (v1 v2 : value)
    (e1 e2 : bytes) :
  (forall s, py_str (VStr s) = s) ->
  protocol_value v1 = true -> protocol_value v2 = true ->
  encode py_str v1 = Ok e1 -> encode py_str v2 = Ok e2 ->
  v1 <> v2 -> e1 <> e2.
Proof.
  intros Hstr Hp1 Hp2 He1 He2 Hne Heq. subst e2. apply Hne.
  destruct (RoundTrip.protocol_value_decodes py_str Hstr v1 Hp1)
    as (e1' & He1' & _ & Hd1).
  destruct (RoundTrip.protocol_value_decodes py_str Hstr v2 Hp2)
    as (e2' & He2' & _ & Hd2).
  unfold encode, PackStreamEncoder.encode in He1, He2.
  assert (e1' = e1) as -> by congruence. assert (e2' = e1) as -> by congruence.
  specialize (Hd1 (2 * List.length e1 + 1)%nat [] (Nat.le_refl _)).
  specialize (Hd2 (2 * List.length e1 + 1)%nat [] (Nat.le_refl _)).
  congruence.
Qed.

Lemma encode_injective_witness :
  py_eq (VInt 1) (VBool true) = true /\ [x01] <> [xc3].
Proof.
  split; [reflexivity|].
  apply (encode_injective CommitScenario.text_of (VInt 1) (VBool true)).
  - intros s. reflexivity.
  - reflexivity.
  - reflexivity.
  - reflexivity.
  - reflexivity.
  - discriminate.
Defined.

(** A tuple is written as a list: a tuple of protocol values comes back
    from [decode] as the list of its items, not as a tuple. *)
Theorem tuple_decodes_as_list (py_str : value -> string) (l : list value) :
  (forall s, py_str (VStr s) = s) ->
  protocol_value (VList l) = true ->
  exists e,
    encode py_str (VTuple l) = Ok e
    /\ encode py_str (VList l) = Ok e
    /\ decode e = Some (Ok (VList l)).
Proof.
  intros Hstr Hp.
  destruct (RoundTrip.protocol_value_decodes py_str Hstr (VList l) Hp)
    as (e & He & Hl & Hd).
  exists e. split; [exact He|]. split; [exact He|].
  unfold decode, PackStreamDecoder.decode.
  destruct (Z.leb_spec (len e) 0) as [H|_]; [unfold len in H; lia|].
  specialize (Hd (PackStreamDecoder.budget e) []).
  rewrite app_nil_r in Hd. rewrite Hd; [reflexivity|].
  unfold PackStreamDecoder.budget. lia.
Qed.

Lemma tuple_decodes_as_list_witness :
  exists e,
    encode CommitScenario.text_of (VTuple [VStr "a"; VStr "b"]) = Ok e
    /\ encode CommitScenario.text_of (VList [VStr "a"; VStr "b"]) = Ok e
    /\ decode e = Some (Ok (VList [VStr "a"; VStr "b"])).
Proof.
  apply (tuple_decodes_as_list CommitScenario.text_of).
  - intros s. reflexivity.
  - reflexivity.
Defined.



(** [_encode_int] raises exactly on the integers that do not fit in 64
    bits, and then it is [struct.error]. *)
Theorem encode_int_raises_outside_64_bits (z : Z) :
  (PackStreamEncoder._encode_int z = Raise StructError
   <-> ~ (- 2 ^ 63 <= z < 2 ^ 63))
  /\ forall e, PackStreamEncoder._encode_int z = Raise e -> e = StructError.
Proof.
  assert (- 2 ^ 63 <= z < 2 ^ 63 \/ ~ (- 2 ^ 63 <= z < 2 ^ 63)) as [Hin|Hout]
    by lia.
  - destruct (RoundTrip.int_ok z Hin) as (e & He & _).
    rewrite He. split; [|intros e' H; discriminate H].
    split; [intros H; discriminate H|]. intros H. contradiction.
  - assert (PackStreamEncoder._encode_int z = Raise StructError) as E.
    { unfold PackStreamEncoder._encode_int.
      change (2 ^ 63) with 9223372036854775808 in Hout.
      repeat match goal with
             | |- context [(?a <=? z) && (z <? ?b)] =>
                 replace ((a <=? z) && (z <? b)) with false
                   by (symmetry; apply andb_false_iff;
                       rewrite Z.leb_gt, Z.ltb_ge; lia)
             end.
      unfold INT_64. rewrite RoundTrip.append_ok by lia. cbn [bind].
      unfold struct.pack_signed.
      change (256 ^ Z.of_nat 8 / 2) with 9223372036854775808.
      match goal with
      | |- context [(?a <=? z) && (z <? ?b)] =>
          replace ((a <=? z) && (z <? b)) with false
            by (symmetry; apply andb_false_iff;
                rewrite Z.leb_gt, Z.ltb_ge; lia)
      end.
      reflexivity. }
    rewrite E. split; [tauto|]. intros e [= <-]. reflexivity.
Qed.

(** A structure of 65536 or more fields is never encoded: the size does
    not fit the two bytes of the widest header, and [struct.error] is
    raised before the tag or any field is written. *)
Theorem encode_wide_structure_raises (py_str : value -> string) (tag : Z)
    (fields : list value) :
  65536 <= len fields ->
  encode py_str (VStruct tag fields) = Raise StructError.
Proof.
  intros H. unfold encode, PackStreamEncoder.encode.
  rewrite RoundTrip.encode_struct_eq.
  unfold PackStreamEncoder._structure_header.
  destruct (Z.ltb_spec (len fields) 16); [lia|].
  destruct (Z.ltb_spec (len fields) 256); [lia|].
  unfold STRUCT_16. rewrite RoundTrip.append_ok by lia. cbn [bind].
  unfold struct.pack_unsigned. change (256 ^ Z.of_nat 2) with 65536.
  destruct (Z.leb_spec 0 (len fields)); [|lia].
  destruct (Z.ltb_spec (len fields) 65536); [lia|]. reflexivity.
Qed.

Lemma encode_wide_structure_raises_witness :
  encode CommitScenario.text_of (VStruct MSG_RECORD (repeat (VInt 7) (Z.to_nat 65536)))
  = Raise StructError.
Proof.
  apply encode_wide_structure_raises. vm_compute. discriminate.
Defined.

Module DecodeAllFacts.

Lemma all_loop_total (fuel : nat) :
  forall data, (List.length data <= fuel)%nat ->
               exists r, _decode_all_loop fuel data = Some r.
Proof.
  induction fuel as [|fuel IH]; intros data Hf.
  - destruct data; [|cbn in Hf; lia]. eexists. reflexivity.
  - cbn [_decode_all_loop]. destruct (0 <? len data); [|eexists; reflexivity].
    destruct data as [|b data]; [eexists; reflexivity|].
    destruct (DecodeFacts.within_all (PackStreamDecoder.budget (b :: data)))
      as (Hv & _ & _).
    destruct (Hv (b :: data) (List.length data)) as (r & -> & Hr).
    + unfold PackStreamDecoder.budget. lia.
    + cbn [List.length]. lia.
    + destruct r as [[v rest]|e]; cbn [PackStreamDecoder.fbind];
        [|eexists; reflexivity].
      cbn [List.length] in Hf.
      destruct (IH rest) as (r' & ->); [specialize (Hr v rest eq_refl); lia|].
      destruct r'; eexists; reflexivity.
Qed.

Lemma all_loop_reads (py_str : value -> string) (values : list value) :
  (forall s, py_str (VStr s) = s) ->
  forallb protocol_value values = true ->
  exists e,
    encode_all py_str values = Ok e
    /\ forall fuel, (List.length e <= fuel)%nat ->
                    _decode_all_loop fuel e = Some (Ok values).
Proof.
  intros Hstr. induction values as [|v values IH]; cbn [forallb encode_all]; intros Hp.
  - exists []. split; [reflexivity|]. intros [|fuel] _; reflexivity.
  - apply andb_true_iff in Hp. destruct Hp as [Hv Hvs].
    destruct (RoundTrip.protocol_value_decodes py_str Hstr v Hv)
      as (a & Ha & Hla & Hda).
    destruct (IH Hvs) as (b & Hb & Hdb).
    unfold encode, PackStreamEncoder.encode. rewrite Ha, Hb. cbn [bind].
    exists (a ++ b). split; [reflexivity|]. intros fuel Hf.
    rewrite length_app in Hf. destruct fuel as [|fuel]; [lia|].
    cbn [_decode_all_loop].
    destruct (Z.ltb_spec 0 (len (a ++ b))) as [_|H];
      [|unfold len in H; rewrite length_app in H; lia].
    rewrite Hda by (unfold PackStreamDecoder.budget; rewrite length_app; lia).
    cbn [PackStreamDecoder.fbind]. rewrite Hdb by lia. reflexivity.
Qed.

End DecodeAllFacts.

(** [decode_all] ends on every input: it returns the values or raises. *)
Theorem decode_all_total (data : bytes) : exists r, decode_all data = Some r.
Proof. apply DecodeAllFacts.all_loop_total. apply Nat.le_refl. Qed.

(** [decode_all] reads back every value of a sequence of encoded
    protocol values, in order. *)
Theorem decode_all_reads_every_value (py_str : value -> string)
    (values : list value) :
  (forall s, py_str (VStr s) = s) ->
  forallb protocol_value values = true ->
  exists e,
    encode_all py_str values = Ok e /\ decode_all e = Some (Ok values).
Proof.
  intros Hstr Hp.
  destruct (DecodeAllFacts.all_loop_reads py_str values Hstr Hp) as (e & He & Hd).
  exists e. split; [exact He|]. apply Hd. apply Nat.le_refl.
Qed.

Lemma decode_all_reads_every_value_witness :
  exists e,
    encode_all CommitScenario.text_of [VInt (-17); VStr "ab"; VList [VNone]] = Ok e
    /\ decode_all e = Some (Ok [VInt (-17); VStr "ab"; VList [VNone]]).
Proof.
  apply (decode_all_reads_every_value CommitScenario.text_of).
  - intros s. reflexivity.
  - reflexivity.
Defined.

(** ** More on the chunk framer *)

Module StreamFacts.

Import ChunkReader ChunkFacts.

Lemma loop_message_not_empty (fuel : nat) :
  forall s m s', _try_read_message_loop fuel s = Some (Some m, s') -> m <> [].
Proof.
  induction fuel as [|fuel IH]; intros s m s'; cbn [_try_read_message_loop];
    [discriminate|].
  unfold _loop_body.
  destruct (_read_header s) as [[n s1]|]; [|discriminate].
  destruct (n =? 0).
  - cbn [_message_buffer _buffer].
    destruct (_message_buffer s1) as [|b mb] eqn:E.
    + apply IH.
    + intros [= <- <-]. discriminate.
  - destruct (len (_buffer s1) <? n); [discriminate|]. apply IH.
Qed.

Lemma drain_not_empty (s : t) (ms : list bytes) (s' : t) :
  drain s ms s' -> Forall (fun m => m <> []) ms.
Proof.
  induction 1 as [s s' Hr|s s1 s' m ms [fuel Hr] Hd IH]; constructor.
  - eapply loop_message_not_empty. exact Hr.
  - exact IH.
Qed.

Lemma write_all_drain (max_chunk_size : Z) (messages : list bytes) :
  1 <= max_chunk_size ->
  exists stream,
    write_all (ChunkWriter.__init__ max_chunk_size) messages = Some (Ok stream)
    /\ drain (extend __init__ stream) (filter not_empty messages) __init__.
Proof.
  intros Hm. induction messages as [|m messages (rest & Hw & Hd)].
  - exists []. split; [reflexivity|]. rewrite extend_nil.
    apply drain_stop. exact reads_init.
  - destruct (write_chunked max_chunk_size m Hm) as (body & Hwm & Hc).
    cbn [write_all]. rewrite Hwm, Hw.
    exists ((body ++ [x00; x00]) ++ rest). split; [reflexivity|].
    rewrite <- extend_extend.
    replace (filter not_empty (m :: messages))
      with ((match m with [] => [] | _ => [m] end) ++ filter not_empty messages)
      by (destruct m; reflexivity).
    eapply drain_extend; [apply drain_framed; exact Hc|exact Hd].
Qed.

End StreamFacts.

(** [feed] ends in every state and on every input, whether well framed
    or not, and it never returns an empty message. *)
Theorem feed_total_no_empty_message (self : ChunkReader.t) (data : bytes) :
  exists messages self',
    ChunkReader.feed self data = Some (messages, self')
    /\ Forall (fun m => m <> []) messages.
Proof.
  destruct (ChunkFacts.feed_drain self data) as (ms & s' & Hf & Hd).
  exists ms, s'. split; [exact Hf|].
  eapply StreamFacts.drain_not_empty. exact Hd.
Qed.

(** Messages written one after the other by a writer come out of a new
    reader in the same order, however the stream is cut into the slices
    given to [feed]; the empty messages are dropped, and the reader ends
    in its initial state. *)
Theorem feed_message_stream (max_chunk_size : Z) (messages : list bytes) :
  1 <= max_chunk_size ->
  exists stream,
    write_all (ChunkWriter.__init__ max_chunk_size) messages = Some (Ok stream)
    /\ forall parts,
         List.concat parts = stream ->
         exists outs,
           ChunkReader.feed_all ChunkReader.__init__ parts
           = Some (outs, ChunkReader.__init__)
           /\ List.concat outs = filter not_empty messages.
Proof.
  intros Hm.
  destruct (StreamFacts.write_all_drain max_chunk_size messages Hm)
    as (stream & Hw & Hd).
  exists stream. split; [exact Hw|]. intros parts Hparts.
  destruct (ChunkFacts.feed_all_drain parts ChunkReader.__init__
              ChunkFacts.reads_init) as (outs & s' & Hf & Hd').
  rewrite Hparts in Hd'.
  destruct (ChunkFacts.drain_det _ _ _ Hd' _ _ Hd) as [Hms ->].
  exists outs. split; [exact Hf|exact Hms].
Qed.

Lemma feed_message_stream_witness :
  exists stream,
    write_all (ChunkWriter.__init__ 2) [[x01; x02; x03]; []; [x04]]
    = Some (Ok stream)
    /\ forall parts,
         List.concat parts = stream ->
         exists outs,
           ChunkReader.feed_all ChunkReader.__init__ parts
           = Some (outs, ChunkReader.__init__)
           /\ List.concat outs = [[x01; x02; x03]; [x04]].
Proof.
  apply (feed_message_stream 2 [[x01; x02; x03]; []; [x04]]). lia.
Defined.

(** A writer whose chunk size is not positive.  With the chunk size 0 the
    loop of [write] on a message that is not empty makes no progress: it
    returns within no number of rounds.  With a negative chunk size the
    first header cannot be packed and [struct.error] is raised.  The
    empty message is framed as the bare end marker in both cases. *)
Theorem write_with_bad_chunk_size (max_chunk_size : Z) (b : byte) (data : bytes) :
  max_chunk_size <= 0 ->
  let self := ChunkWriter.__init__ max_chunk_size in
  ChunkWriter.write self [] = Some (Ok [x00; x00])
  /\ (max_chunk_size = 0 ->
      forall fuel framed,
        ChunkWriter._write_loop fuel self (b :: data) 0 framed = None)
  /\ (max_chunk_size < 0 ->
      ChunkWriter.write self (b :: data) = Some (Raise StructError)).
Proof.
  intros Hm self. split; [reflexivity|]. split.
  - intros ->. subst self. change (ChunkWriter.__init__ 0) with 0.
    assert ((0 <? len (b :: data)) = true) as Hlt
      by (apply Z.ltb_lt; unfold len; cbn [List.length]; lia).
    induction fuel as [|fuel IH]; intros framed; cbn [ChunkWriter._write_loop];
      rewrite Hlt; [reflexivity|].
    replace (Z.min (len (b :: data) - 0) 0) with 0
      by (unfold len; cbn [List.length]; lia).
    change (struct.pack_unsigned 2 0) with (Ok [x00; x00]).
    cbv iota. change (0 + 0) with 0. apply IH.
  - intros Hneg. subst self. unfold ChunkWriter.__init__, MAX_CHUNK_SIZE.
    rewrite Z.min_l by lia. unfold ChunkWriter.write.
    cbn [List.length ChunkWriter._write_loop].
    replace (0 <? len (b :: data)) with true
      by (symmetry; apply Z.ltb_lt; unfold len; cbn [List.length]; lia).
    replace (Z.min (len (b :: data) - 0) max_chunk_size) with max_chunk_size
      by (unfold len; cbn [List.length]; lia).
    unfold struct.pack_unsigned.
    destruct (Z.leb_spec 0 max_chunk_size); [lia|]. reflexivity.
Qed.

Lemma write_with_bad_chunk_size_witness :
  ChunkWriter.write (ChunkWriter.__init__ (-1)) [x01] = Some (Raise StructError).
Proof.
  apply (write_with_bad_chunk_size (-1) x01 []); lia.
Defined.

(** ** More on the state machine and the session *)

Module StateFacts.

Lemma defunct_stays (calls : list state_call) :
  after_state_calls calls DEFUNCT = DEFUNCT.
Proof.
  unfold after_state_calls.
  induction calls as [|c calls IH]; [reflexivity|].
  cbn [fold_left]. destruct c as [s| |]; exact IH.
Qed.

Lemma negotiation_not_entered (self : StateMachine.t) (c : state_call) :
  after_state_call self c = NEGOTIATION -> self = NEGOTIATION.
Proof.
  destruct c as [s| |]; [destruct self, s|destruct self|]; cbv;
    intros H; first [reflexivity|discriminate H].
Qed.

End StateFacts.

(** DEFUNCT is final: once [mark_defunct] has been called, the state is
    DEFUNCT after any further calls of [transition_to], [reset] and
    [mark_defunct]. *)
Theorem defunct_is_final (before after : list state_call) (self : StateMachine.t) :
  after_state_calls (before ++ CallMarkDefunct :: after) self = DEFUNCT
  /\ StateMachine.is_defunct
       (after_state_calls (before ++ CallMarkDefunct :: after) self) = true.
Proof.
  assert (after_state_calls (before ++ CallMarkDefunct :: after) self = DEFUNCT)
    as E.
  { unfold after_state_calls. rewrite fold_left_app. cbn [fold_left after_state_call].
    apply StateFacts.defunct_stays. }
  rewrite E. split; reflexivity.
Qed.

(** NEGOTIATION is the state of a new machine only: no call leads to it,
    so a machine found in NEGOTIATION after any calls started there. *)
Theorem negotiation_is_initial_only (calls : list state_call)
    (self : StateMachine.t) :
  after_state_calls calls self = NEGOTIATION -> self = NEGOTIATION.
Proof.
  unfold after_state_calls. revert self.
  induction calls as [|c calls IH]; intros self H; [exact H|].
  cbn [fold_left] in H. apply IH in H.
  eapply StateFacts.negotiation_not_entered. exact H.
Qed.

Lemma negotiation_is_initial_only_witness :
  StateMachine.__init__ = NEGOTIATION.
Proof.
  apply (negotiation_is_initial_only [CallTransitionTo READY] StateMachine.__init__).
  reflexivity.
Defined.

(** [reset] does not consult the transition table: it leads to READY
    from every state but DEFUNCT, also from NEGOTIATION and
    AUTHENTICATION, from where [transition_to] refuses READY or has it
    only after HELLO. *)
Theorem reset_ignores_transition_table (self : StateMachine.t) :
  StateMachine.reset self
  = (if StateMachine.is_defunct self then DEFUNCT else READY)
  /\ StateMachine.reset NEGOTIATION = READY
  /\ StateMachine.transition_to NEGOTIATION READY = (Raise ValueError, NEGOTIATION).
Proof. split; [destruct self; reflexivity|]. split; reflexivity. Qed.

Module ResultFacts.

Import QueryResult.

(** The cursor of a result object stays within the records. *)
Definition in_range (self : t) : Prop := 0 <= cursor self <= len (records self).

(** The number of records a call with the count [n] takes. *)
Definition taken (self : t) (n : Z) : Z :=
  if n <? 0 then len (records self) - cursor self
  else Z.min n (len (records self) - cursor self).

Lemma pull_spec (self : t) (n : Z) :
  in_range self ->
  pull self n
  = (firstn (Z.to_nat (taken self n)) (skipn (Z.to_nat (cursor self)) (records self)),
     mk (fields self) (records self) (cursor self + taken self n))
  /\ 0 <= taken self n
  /\ in_range (mk (fields self) (records self) (cursor self + taken self n)).
Proof.
  intros [H0 H1]. unfold pull, taken, pyslice, in_range.
  cbn [cursor records]. destruct (Z.ltb_spec n 0).
  - unfold slice_index. destruct (Z.ltb_spec (cursor self) 0); [lia|].
    rewrite Z.min_l by lia. split; [|lia].
    f_equal. f_equal. lia.
  - unfold slice_index. destruct (Z.ltb_spec (cursor self) 0); [lia|].
    destruct (Z.ltb_spec (Z.min (cursor self + n) (len (records self))) 0); [lia|].
    split; [|lia].
    rewrite (Z.min_l (cursor self)) by lia.
    rewrite (Z.min_l (Z.min _ _)) by lia.
    f_equal; [f_equal|f_equal]; lia.
Qed.

Lemma firstn_plus {A : Type} (a b : nat) :
  forall l : list A, firstn (a + b) l = firstn a l ++ firstn b (skipn a l).
Proof.
  induction a as [|a IH]; intros l; [reflexivity|].
  destruct l as [|x l]; cbn [Nat.add firstn skipn app].
  - rewrite firstn_nil. reflexivity.
  - rewrite IH. reflexivity.
Qed.

Lemma batches_spec (ns : list Z) :
  forall self, in_range self ->
    let (batches, self') := pull_batches self ns in
    in_range self' /\ records self' = records self
    /\ cursor self <= cursor self'
    /\ List.concat batches
       = firstn (Z.to_nat (cursor self' - cursor self))
           (skipn (Z.to_nat (cursor self)) (records self)).
Proof.
  induction ns as [|n ns IH]; intros self Hr; cbn [pull_batches].
  - split; [exact Hr|]. split; [reflexivity|]. split; [lia|].
    rewrite Z.sub_diag. reflexivity.
  - destruct (pull_spec self n Hr) as (-> & Ht & Hr1).
    specialize (IH _ Hr1). destruct (pull_batches _ ns) as [batches self'].
    cbn [records cursor] in IH. destruct IH as (Hr' & Hrec & Hc & Hcat).
    split; [exact Hr'|]. split; [exact Hrec|]. split; [lia|].
    cbn [List.concat]. rewrite Hcat.
    unfold in_range in Hr, Hr1, Hr'. cbn [cursor records] in Hr1.
    set (l := records self). set (c := cursor self) in *.
    set (k := taken self n) in *. set (c' := cursor self') in *.
    replace (Z.to_nat (c + k)) with (Z.to_nat k + Z.to_nat c)%nat by lia.
    rewrite <- skipn_skipn.
    replace (Z.to_nat (c' - c)) with (Z.to_nat k + Z.to_nat (c' - (c + k)))%nat
      by lia.
    rewrite firstn_plus. reflexivity.
Qed.

End ResultFacts.

(** Pulling in any batches and then pulling what remains delivers each
    record from the cursor on exactly once and in order, and after it
    [has_more] is false.  The counts may be anything: a negative count
    pulls all, a count too large pulls what is left. *)
Theorem pull_delivers_each_record_once (self : QueryResult.t) (ns : list Z) :
  0 <= QueryResult.cursor self <= len (QueryResult.records self) ->
  let (batches, self') := pull_batches self ns in
  let (last, self'') := QueryResult.pull self' (-1) in
  List.concat batches ++ last
  = skipn (Z.to_nat (QueryResult.cursor self)) (QueryResult.records self)
  /\ QueryResult.has_more self'' = false.
Proof.
  intros Hr. pose proof (ResultFacts.batches_spec ns self Hr) as H.
  destruct (pull_batches self ns) as [batches self'].
  destruct H as (Hr' & Hrec & Hc & Hcat).
  destruct (ResultFacts.pull_spec self' (-1) Hr') as (-> & _ & _).
  unfold ResultFacts.taken. cbn [Z.ltb Z.compare].
  split.
  - rewrite Hcat, Hrec.
    destruct Hr' as [_ Hle]. rewrite Hrec in Hle.
    set (l := QueryResult.records self) in *.
    set (c := QueryResult.cursor self) in *.
    set (c' := QueryResult.cursor self') in *.
    rewrite (firstn_all2 (n := Z.to_nat (len l - c')))
      by (rewrite length_skipn; unfold len in *; lia).
    replace (Z.to_nat c') with (Z.to_nat (c' - c) + Z.to_nat c)%nat by lia.
    rewrite <- skipn_skipn. apply firstn_skipn.
  - unfold QueryResult.has_more. cbn [QueryResult.cursor QueryResult.records].
    apply Z.ltb_ge. lia.
Qed.

Lemma pull_delivers_each_record_once_witness :
  let self := QueryResult.mk [VStr "n"] [[VInt 1]; [VInt 2]; [VInt 3]] 0 in
  let (batches, self') := pull_batches self [1; 0; 5] in
  let (last, self'') := QueryResult.pull self' (-1) in
  List.concat batches ++ last = [[VInt 1]; [VInt 2]; [VInt 3]]
  /\ QueryResult.has_more self'' = false.
Proof.
  apply (pull_delivers_each_record_once
           (QueryResult.mk [VStr "n"] [[VInt 1]; [VInt 2]; [VInt 3]] 0) [1; 0; 5]).
  cbn. lia.
Defined.

(** [discard] counts exactly the records [pull] would have returned for
    the same count, and leaves the object as [pull] would. *)
Theorem discard_counts_what_pull_returns (self : QueryResult.t) (n : Z) :
  0 <= QueryResult.cursor self <= len (QueryResult.records self) ->
  fst (QueryResult.discard self n) = len (fst (QueryResult.pull self n))
  /\ snd (QueryResult.discard self n) = snd (QueryResult.pull self n).
Proof.
  intros Hr. destruct (ResultFacts.pull_spec self n Hr) as (-> & Ht & _).
  cbn [fst snd]. unfold QueryResult.discard, ResultFacts.taken in *.
  unfold len in *. destruct Hr as [H0 H1].
  destruct (n <? 0) eqn:E; cbn [fst snd].
  - split; [|f_equal; lia].
    rewrite firstn_all2 by (rewrite length_skipn; lia).
    rewrite length_skipn. lia.
  - apply Z.ltb_ge in E. split; [|f_equal; lia].
    rewrite length_firstn, length_skipn. lia.
Qed.

Lemma discard_counts_what_pull_returns_witness :
  let self := QueryResult.mk [VStr "n"] [[VInt 1]; [VInt 2]; [VInt 3]] 1 in
  fst (QueryResult.discard self 5) = 2
  /\ snd (QueryResult.discard self 5) = snd (QueryResult.pull self 5).
Proof.
  apply (discard_counts_what_pull_returns
           (QueryResult.mk [VStr "n"] [[VInt 1]; [VInt 2]; [VInt 3]] 1) 5).
  cbn. lia.
Defined.

(** A committed transaction is published in the live graph object: after
    [begin_transaction], any mutations of the working graph and
    [commit_transaction], the object the session was created with is
    cleared and updated with the working copy, which holds the content
    the live graph had at [begin_transaction] with the mutations
    applied.  The session still refers to the same object. *)
Theorem commit_publishes_transaction (G : Type) (graph_clear : G -> G)
    (graph_update : G -> G -> G) (h : BoltSession.store G)
    (self : BoltSession.t) (mutations : list (G -> G)) :
  (BoltSession.graph self < BoltSession.fresh h)%nat ->
  BoltSession.in_transaction self = false ->
  let '(h', self', r) :=
    transaction_then_commit graph_clear graph_update h self mutations in
  r = Ok tt
  /\ BoltSession.graph self' = BoltSession.graph self
  /\ BoltSession.in_transaction self' = false
  /\ BoltSession.tx_graph self' = None
  /\ BoltSession.get_working_graph self' = BoltSession.graph self
  /\ BoltSession.cell h' (BoltSession.graph self)
     = graph_update
         (graph_clear (BoltSession.cell h (BoltSession.graph self)))
         (fold_left (fun g f => f g) mutations
            (BoltSession.cell h (BoltSession.graph self))).
Proof.
  intros Halloc Htx.
  unfold transaction_then_commit, BoltSession.begin_transaction. rewrite Htx.
  unfold BoltSession.deepcopy, BoltSession.commit_transaction.
  cbn [BoltSession.in_transaction negb BoltSession.tx_graph BoltSession.graph].
  set (self1 := BoltSession.mk _ _ true _ _ _ _).
  set (h1 := BoltSession.mk_store G _ _).
  assert (forall ms hh,
            BoltSession.cell hh (BoltSession.graph self)
            = BoltSession.cell h (BoltSession.graph self) ->
            let hh' := fold_left
                         (fun h f => BoltSession.mutate_working_graph h self1 f)
                         ms hh in
            BoltSession.cell hh' (BoltSession.graph self)
            = BoltSession.cell h (BoltSession.graph self)
            /\ BoltSession.cell hh' (BoltSession.fresh h)
               = fold_left (fun g f => f g) ms
                   (BoltSession.cell hh (BoltSession.fresh h))) as Hfold.
  { induction ms as [|f ms IH]; intros hh Hlive; cbn [fold_left].
    - split; [exact Hlive|reflexivity].
    - destruct (IH (BoltSession.mutate_working_graph hh self1 f)) as [IH1 IH2].
      + unfold BoltSession.mutate_working_graph, BoltSession.write_cell.
        cbn [BoltSession.cell BoltSession.get_working_graph self1
             BoltSession.in_transaction BoltSession.tx_graph].
        destruct (Nat.eqb_spec (BoltSession.graph self) (BoltSession.fresh h));
          [lia|exact Hlive].
      + split; [exact IH1|]. rewrite IH2.
        unfold BoltSession.mutate_working_graph, BoltSession.write_cell.
        cbn [BoltSession.cell BoltSession.get_working_graph self1
             BoltSession.in_transaction BoltSession.tx_graph].
        rewrite Nat.eqb_refl. reflexivity. }
  destruct (Hfold mutations h1) as [Hlive Hcopy].
  { subst h1. cbn [BoltSession.cell].
    destruct (Nat.eqb_spec (BoltSession.graph self) (BoltSession.fresh h));
      [lia|reflexivity]. }
  cbv zeta in Hlive, Hcopy.
  repeat split.
  unfold BoltSession.write_cell. cbn [BoltSession.cell].
  rewrite !Nat.eqb_refl.
  destruct (Nat.eqb_spec (BoltSession.fresh h) (BoltSession.graph self)); [lia|].
  rewrite Hlive, Hcopy. subst h1. cbn [BoltSession.cell].
  rewrite Nat.eqb_refl. reflexivity.
Qed.

Lemma commit_publishes_transaction_witness :
  let h := BoltSession.mk_store nat (fun _ => 7%nat) 1%nat in
  let self := BoltSession.__init__ 0%nat in
  let '(h', self', r) :=
    transaction_then_commit (fun _ => 0%nat) Nat.add h self [S; Nat.mul 2] in
  r = Ok tt /\ BoltSession.cell h' 0%nat = 16%nat.
Proof.
  intros h self.
  pose proof (commit_publishes_transaction nat (fun _ => 0%nat) Nat.add h self
                [S; Nat.mul 2] ltac:(cbn; lia) eq_refl) as H.
  destruct (transaction_then_commit _ _ h self _) as [[h' self'] r].
  destruct H as (Hr & _ & _ & _ & _ & Hc). split; [exact Hr|exact Hc].
Defined.

(** ** More on the connection handler *)

Section ConnectionFacts.

Variable G : Type.
Variable graph_clear : G -> G.
Variable graph_update : G -> G -> G.
Variable nxcypher_run : value -> value -> G -> result value * G.
Variable py_str : value -> string.
Variable exn_text : exn -> string.
Variable unknown_tag_text : Z -> string.

Hypothesis py_str_of_str : forall s, py_str (VStr s) = s.

Lemma try_except_ok {A : Type} (body : BoltConnection.H G A)
    (handler : exn -> BoltConnection.H G A) (self self' : BoltConnection.t G)
    (a : A) :
  body self = Some (Ok a, self') ->
  BoltConnection.try_except body handler self = Some (Ok a, self').
Proof. intros H. unfold BoltConnection.try_except. rewrite H. reflexivity. Qed.

(** A protocol value is sent: it is encoded, framed and appended to the
    bytes written, and the bytes encoded decode to it. *)
Lemma send_message_ok (message : value) (self : BoltConnection.t G) :
  protocol_value message = true ->
  BoltConnection._chunk_writer self = ChunkWriter.__init__ MAX_CHUNK_SIZE ->
  exists encoded body,
    encode py_str message = Ok encoded
    /\ encoded <> []
    /\ decode encoded = Some (Ok message)
    /\ ChunkFacts.chunked body encoded
    /\ BoltConnection._send_message py_str message self
       = Some (Ok tt,
               BoltConnection.set_writer self
                 (BoltConnection._writer self ++ body ++ [x00; x00])).
Proof.
  intros Hp Hw.
  destruct (RoundTrip.protocol_value_decodes py_str py_str_of_str message Hp)
    as (e & He & Hl & Hd).
  destruct (ChunkFacts.write_chunked MAX_CHUNK_SIZE e ltac:(unfold MAX_CHUNK_SIZE; lia))
    as (body & Hwr & Hc).
  exists e, body. split; [exact He|].
  split; [destruct e; [cbn in Hl; lia|discriminate]|].
  split.
  - unfold decode, PackStreamDecoder.decode.
    destruct (Z.leb_spec (len e) 0) as [H|_]; [unfold len in H; lia|].
    specialize (Hd (PackStreamDecoder.budget e) []).
    rewrite app_nil_r in Hd. rewrite Hd; [reflexivity|].
    unfold PackStreamDecoder.budget. lia.
  - split; [exact Hc|].
    unfold BoltConnection._send_message, encode, PackStreamEncoder.encode.
    rewrite He, Hw, Hwr. reflexivity.
Qed.

(** What the server sends, a client reads.  A message that is a protocol
    value is written by [_send_message] as framed bytes; a new chunk
    reader fed these bytes, cut into slices in any way, returns exactly
    one message, and [decode] of it is the message sent. *)
Theorem sent_message_is_received (message : value) (self : BoltConnection.t G) :
  protocol_value message = true ->
  BoltConnection._chunk_writer self = ChunkWriter.__init__ MAX_CHUNK_SIZE ->
  exists framed,
    BoltConnection._send_message py_str message self
    = Some (Ok tt,
            BoltConnection.set_writer self (BoltConnection._writer self ++ framed))
    /\ forall parts,
         List.concat parts = framed ->
         exists outs encoded,
           ChunkReader.feed_all ChunkReader.__init__ parts
           = Some (outs, ChunkReader.__init__)
           /\ List.concat outs = [encoded]
           /\ decode encoded = Some (Ok message).
Proof.
  intros Hp Hw.
  destruct (send_message_ok message self Hp Hw)
    as (e & body & He & Hne & Hd & Hc & Hs).
  exists (body ++ [x00; x00]). split; [exact Hs|]. intros parts Hparts.
  destruct (ChunkFacts.feed_all_drain parts ChunkReader.__init__
              ChunkFacts.reads_init) as (outs & s' & Hf & Hdr).
  rewrite Hparts in Hdr.
  destruct (ChunkFacts.drain_det _ _ _ Hdr _ _ (ChunkFacts.drain_framed _ _ Hc))
    as [Hms ->].
  exists outs, e. split; [exact Hf|]. split; [|exact Hd].
  rewrite Hms. destruct e; [contradiction|reflexivity].
Qed.

(** In FAILED the handlers of HELLO, LOGON, RUN, PULL, DISCARD, BEGIN,
    COMMIT and ROLLBACK answer IGNORED and change nothing else, whatever
    the fields of the request. *)
Theorem failed_state_guarded_requests_ignored (self : BoltConnection.t G)
    (tag : Z) (fields : list value) :
  BoltConnection._state self = FAILED ->
  BoltConnection._chunk_writer self = ChunkWriter.__init__ MAX_CHUNK_SIZE ->
  In tag [MSG_HELLO; MSG_LOGON; MSG_RUN; MSG_PULL; MSG_DISCARD; MSG_BEGIN;
          MSG_COMMIT; MSG_ROLLBACK] ->
  BoltConnection._dispatch_message graph_clear graph_update nxcypher_run
    py_str exn_text unknown_tag_text tag fields self
  = Some (Ok tt,
          BoltConnection.set_writer self
            (BoltConnection._writer self ++ [x00; x03; xb1; x7e; xa0; x00; x00])).
Proof.
  intros Hs Hw Htag.
  pose proof (send_ignored_frame G py_str self Hw) as Hi.
  unfold BoltConnection._dispatch_message.
  cbn [In] in Htag.
  repeat (destruct Htag as [<-|Htag]); try contradiction;
    cbn [BoltConnection.handlers Z.eqb Pos.eqb MSG_HELLO MSG_LOGON MSG_RUN
         MSG_PULL MSG_DISCARD MSG_BEGIN MSG_COMMIT MSG_ROLLBACK MSG_GOODBYE
         MSG_RESET];
    unfold BoltConnection._handle_hello, BoltConnection._handle_run,
      BoltConnection._handle_pull, BoltConnection._handle_discard,
      BoltConnection._handle_begin, BoltConnection._handle_commit,
      BoltConnection._handle_rollback, BoltConnection.hbind,
      BoltConnection.get, BoltConnection.state_is;
    rewrite Hs; cbn [ConnectionState_eqb negb orb]; exact Hi.
Qed.

(** RESET is answered in every state.  From any state but DEFUNCT, also
    before HELLO, the handler drops the result, rolls back an open
    transaction, puts the connection in READY and answers SUCCESS; the
    graphs in the store are not touched. *)
Theorem reset_from_any_state (self : BoltConnection.t G) (fields : list value) :
  BoltConnection._state self <> DEFUNCT ->
  BoltConnection._chunk_writer self = ChunkWriter.__init__ MAX_CHUNK_SIZE ->
  exists self',
    BoltConnection._dispatch_message graph_clear graph_update nxcypher_run
      py_str exn_text unknown_tag_text MSG_RESET fields self
    = Some (Ok tt, self')
    /\ BoltConnection._state self' = READY
    /\ BoltSession.current_result (BoltConnection._session self') = None
    /\ BoltSession.in_transaction (BoltConnection._session self') = false
    /\ BoltSession.get_working_graph (BoltConnection._session self')
       = BoltSession.graph (BoltConnection._session self)
    /\ BoltConnection.store self' = BoltConnection.store self
    /\ BoltConnection._converter self' = BoltConnection._converter self
    /\ BoltConnection._writer self'
       = BoltConnection._writer self ++ [x00; x03; xb1; x70; xa0; x00; x00].
Proof.
  intros Hs Hw.
  destruct self as [st rd wr gr sn cid state sess conv crd cw nv ci].
  cbn [BoltConnection._state BoltConnection._chunk_writer] in Hs, Hw. subst cw.
  destruct sess as [g cr tx txg bm db qid].
  unfold BoltConnection._dispatch_message.
  cbn [BoltConnection.handlers Z.eqb Pos.eqb MSG_RESET MSG_HELLO MSG_LOGON
       MSG_GOODBYE].
  assert (StateMachine.reset state = READY) as Hr
    by (destruct state; first [reflexivity|congruence]).
  destruct tx; eexists; (split; [cbv - [StateMachine.reset app]; rewrite Hr; reflexivity|]);
    cbn; repeat split; reflexivity.
Qed.

(** A successful COMMIT replaces the converter: in TX_READY with an open
    transaction the handler commits, moves to READY, installs a new
    converter with empty identifier tables and answers SUCCESS. *)
Theorem commit_replaces_converter (self : BoltConnection.t G) (fields : list value) :
  BoltConnection._state self = TX_READY ->
  BoltSession.in_transaction (BoltConnection._session self) = true ->
  BoltConnection._chunk_writer self = ChunkWriter.__init__ MAX_CHUNK_SIZE ->
  exists self',
    BoltConnection._dispatch_message graph_clear graph_update nxcypher_run
      py_str exn_text unknown_tag_text MSG_COMMIT fields self
    = Some (Ok tt, self')
    /\ BoltConnection._converter self'
       = ResultConverter.__init__ (BoltConnection._graph self)
    /\ BoltConnection._state self' = READY
    /\ BoltSession.in_transaction (BoltConnection._session self') = false
    /\ BoltConnection._writer self'
       = BoltConnection._writer self ++ [x00; x03; xb1; x70; xa0; x00; x00].
Proof.
  intros Hs Htx Hw.
  destruct self as [st rd wr gr sn cid state sess conv crd cw nv ci].
  cbn [BoltConnection._state BoltConnection._chunk_writer
       BoltConnection._session] in Hs, Htx, Hw. subst cw state.
  destruct sess as [g cr tx txg bm db qid].
  cbn [BoltSession.in_transaction] in Htx. subst tx.
  unfold BoltConnection._dispatch_message.
  cbn [BoltConnection.handlers Z.eqb Pos.eqb MSG_COMMIT MSG_HELLO MSG_LOGON
       MSG_GOODBYE MSG_RESET MSG_RUN MSG_PULL MSG_DISCARD MSG_BEGIN].
  unfold BoltConnection._handle_commit. unfold BoltConnection.hbind at 1.
  unfold BoltConnection.get.
  cbn [BoltConnection._state ConnectionState_eqb negb].
  eexists. split; [apply try_except_ok; cbv - [app Nat.eqb]; reflexivity|].
  cbn. repeat split; reflexivity.
Qed.

End ConnectionFacts.

(** [sent_message_is_received] for a record with an integer and a
    string, on a new connection. *)
Lemma sent_message_is_received_witness :
  exists framed,
    BoltConnection._send_message CommitScenario.text_of
      (VList [VInt 1; VStr "a"]) CommitScenario.start
    = Some (Ok tt,
            BoltConnection.set_writer CommitScenario.start
              (BoltConnection._writer CommitScenario.start ++ framed))
    /\ forall parts,
         List.concat parts = framed ->
         exists outs encoded,
           ChunkReader.feed_all ChunkReader.__init__ parts
           = Some (outs, ChunkReader.__init__)
           /\ List.concat outs = [encoded]
           /\ decode encoded = Some (Ok (VList [VInt 1; VStr "a"])).
Proof.
  apply (sent_message_is_received unit CommitScenario.text_of
           (fun s => eq_refl) (VList [VInt 1; VStr "a"]) CommitScenario.start).
  - reflexivity.
  - reflexivity.
Defined.

(** [failed_state_guarded_requests_ignored] for a RUN request on a
    connection that has failed. *)
Lemma failed_state_guarded_requests_ignored_witness :
  let self := BoltConnection.set_state CommitScenario.start FAILED in
  BoltConnection._dispatch_message (fun g => g) (fun g _ => g)
    CommitScenario.echo_run CommitScenario.text_of (fun _ => "error"%string)
    (fun _ => "0x??"%string) MSG_RUN [VStr "RETURN 1"; VDict []] self
  = Some (Ok tt,
          BoltConnection.set_writer self
            (BoltConnection._writer self ++ [x00; x03; xb1; x7e; xa0; x00; x00])).
Proof.
  intros self.
  apply (failed_state_guarded_requests_ignored unit (fun g => g) (fun g _ => g)
           CommitScenario.echo_run CommitScenario.text_of
           (fun _ => "error"%string) (fun _ => "0x??"%string)
           self MSG_RUN [VStr "RETURN 1"; VDict []]).
  - reflexivity.
  - reflexivity.
  - cbn [In]. right. right. left. reflexivity.
Defined.

(** [reset_from_any_state] for a connection that streams a result. *)
Lemma reset_from_any_state_witness :
  let self := BoltConnection.set_state CommitScenario.start STREAMING in
  exists self',
    BoltConnection._dispatch_message (fun g => g) (fun g _ => g)
      CommitScenario.echo_run CommitScenario.text_of (fun _ => "error"%string)
      (fun _ => "0x??"%string) MSG_RESET [] self
    = Some (Ok tt, self')
    /\ BoltConnection._state self' = READY.
Proof.
  intros self.
  destruct (reset_from_any_state unit (fun g => g) (fun g _ => g)
              CommitScenario.echo_run CommitScenario.text_of
              (fun _ => "error"%string) (fun _ => "0x??"%string) self [])
    as (self' & Hd & Hs & _).
  - discriminate.
  - reflexivity.
  - exists self'. split; [exact Hd|exact Hs].
Defined.

(** [commit_replaces_converter] for a connection with an open
    transaction whose converter has given the identifier 0 to a node. *)
Lemma commit_replaces_converter_witness :
  let self :=
    BoltConnection.set_converter
      (BoltConnection.set_session
         (BoltConnection.set_state CommitScenario.start TX_READY)
         (BoltSession.mk 0%nat None true (Some 1%nat) [] "neo4j" (-1)))
      (snd (ResultConverter._get_node_id (VStr "a") (ResultConverter.__init__ 0)))
  in
  exists self',
    BoltConnection._dispatch_message (fun g => g) (fun g _ => g)
      CommitScenario.echo_run CommitScenario.text_of (fun _ => "error"%string)
      (fun _ => "0x??"%string) MSG_COMMIT [] self
    = Some (Ok tt, self')
    /\ BoltConnection._converter self' = ResultConverter.__init__ 0.
Proof.
  intros self.
  destruct (commit_replaces_converter unit (fun g => g) (fun g _ => g)
              CommitScenario.echo_run CommitScenario.text_of
              (fun _ => "error"%string) (fun _ => "0x??"%string) self [])
    as (self' & Hd & Hc & _).
  - reflexivity.
  - reflexivity.
  - reflexivity.
  - exists self'. split; [exact Hd|exact Hc].
Defined.
